(** * The blob-to-warehouse load: tables, CSV repair, coercion, run ledger

    A shallow embedding of [scripts/etl_utils.py] and [scripts/etl_load.py].
    Python objects that are mutated in place (DataFrames) live in a heap and
    are passed by reference; the database and the record of the external
    calls that were issued are part of the same state.  Exceptions are the
    left summand of the result of every step. *)

From Stdlib Require Import Ascii String QArith.
From stdpp Require Import base option list strings pretty gmap.

Open Scope Z_scope.
Open Scope string_scope.
Open Scope list_scope.

(** ** Text *)

Module Text.

(** A text is held as its bytes: the UTF-8 encoding of the Python [str]
    (a lone surrogate, which UTF-8 does not encode, is written as the three
    bytes [ED A0..BF 80..BF]).  The characters that [str.strip] and
    [str.isspace] take for whitespace are, with their encodings,
    U+0009..U+000D, U+001C..U+001F and U+0020 (one byte), U+0085 and U+00A0
    ([C2 85], [C2 A0]), U+1680 ([E1 9A 80]), U+2000..U+200A, U+2028, U+2029,
    U+202F ([E2 80 80..8A], [E2 80 A8], [E2 80 A9], [E2 80 AF]), U+205F
    ([E2 81 9F]) and U+3000 ([E3 80 80]). *)

(** The whitespace characters of one byte: tab to carriage return, the four
    separators 28 to 31, and the blank. *)
Definition is_space (c : ascii) : bool :=
  let n := nat_of_ascii c in
  ((9 <=? n) && (n <=? 13) || (28 <=? n) && (n <=? 32))%nat.

(** Those of two bytes: U+0085 and U+00A0. *)
Definition is_space2 (a b : ascii) : bool :=
  let x := nat_of_ascii a in
  let y := nat_of_ascii b in
  ((x =? 194) && ((y =? 133) || (y =? 160)))%nat.

(** Those of three bytes. *)
Definition is_space3 (a b c : ascii) : bool :=
  let x := nat_of_ascii a in
  let y := nat_of_ascii b in
  let z := nat_of_ascii c in
  ((x =? 225) && (y =? 154) && (z =? 128)
   || (x =? 226) && (y =? 128)
      && ((128 <=? z) && (z <=? 138) || (z =? 168) || (z =? 169) || (z =? 175))
   || (x =? 226) && (y =? 129) && (z =? 159)
   || (x =? 227) && (y =? 128) && (z =? 128))%nat.

(** The text is exactly one whitespace character. *)
Definition is_space_char (s : string) : bool :=
  match s with
  | String a EmptyString => is_space a
  | String a (String b EmptyString) => is_space2 a b
  | String a (String b (String c EmptyString)) => is_space3 a b c
  | _ => false
  end.

(** [s.lstrip()]: whitespace characters are removed from the left, one
    character (of one, two or three bytes) at a time. *)
Fixpoint lstrip (s : string) : string :=
  match s with
  | EmptyString => EmptyString
  | String a s1 =>
      if is_space a then lstrip s1
      else
        match s1 with
        | String b s2 =>
            if is_space2 a b then lstrip s2
            else
              match s2 with
              | String c s3 => if is_space3 a b c then lstrip s3 else s
              | EmptyString => s
              end
        | EmptyString => s
        end
  end.

(** [s.rstrip()]: what is left of [s] once the whitespace characters at its
    right end are removed; a character that becomes the whole rest is removed
    in turn. *)
Fixpoint rstrip (s : string) : string :=
  match s with
  | EmptyString => EmptyString
  | String c s' =>
      let r := rstrip s' in
      if is_space_char (String c r) then EmptyString else String c r
  end.

(** [s.strip()] *)
Definition strip (s : string) : string := rstrip (lstrip s).

(** [ch in s] for a one-character [ch] *)
Fixpoint contains (ch : ascii) (s : string) : bool :=
  match s with
  | EmptyString => false
  | String c s' => Ascii.eqb c ch || contains ch s'
  end.

(** [s.split(sep)] for a one-character [sep]: every occurrence cuts, so
    the result has one more piece than [s] has separators. *)
Fixpoint split (sep : ascii) (s : string) : list string :=
  match s with
  | EmptyString => [EmptyString]
  | String c s' =>
      if Ascii.eqb c sep then EmptyString :: split sep s'
      else match split sep s' with
           | p :: ps => String c p :: ps
           | [] => [String c EmptyString]
           end
  end.

(** [s.startswith(p)] *)
Definition startswith (p s : string) : bool := String.prefix p s.

(** [x in xs] for a list of strings *)
Definition mem (x : string) (xs : list string) : bool :=
  existsb (String.eqb x) xs.

End Text.

(** ** Tables *)

(** What a cell of a DataFrame holds in this pipeline.  [read_csv] with
    [dtype=str] gives text and missing cells ([VStr], [VNaN]); the repair
    and the coercion produce the rest. *)
Inductive value :=
  | VStr (s : string)     (* a Python str *)
  | VNaN                  (* float nan, the missing cell of object and float columns *)
  | VNone                 (* None, the filler of [str.split(expand=True)] *)
  | VNum (x : Q)          (* a finite float, as the rational it denotes *)
  | VNegZero              (* the float -0.0 *)
  | VInf (neg : bool)     (* float infinity *)
  | VInt (z : Z)          (* an integer cell: int64, uint64 or Int64 *)
  | VNA                   (* pd.NA, the missing Int64 cell *)
  | VTime (t : Z)         (* a naive timestamp, nanoseconds since the epoch *)
  | VNaT.                 (* the missing timestamp *)

Abbreviation row := (list value) (only parsing).

(** A DataFrame: its column labels and its rows.  [length (rows f)] is the
    length of the index, whatever the number of columns. *)
Record frame := Frame { columns : list string; rows : list row }.

#[global] Instance value_inhabited : Inhabited value := populate VNaN.
#[global] Instance frame_inhabited : Inhabited frame := populate (Frame [] []).

(** ** Exceptions *)

(** The [ValueError]s of the program and of pandas, by what they report. *)
Inductive value_error :=
  | MissingColumns (missing found : list string)
      (* "Missing expected columns: {missing}. Found: {found}" *)
  | LengthMismatch (expected given : nat)
      (* assigning [given] labels to a table of [expected] columns *)
  | EmptyLoad (table_name : string)
      (* "Refusing to load empty DataFrame into {table_name}." *)
  | NotOneColumn (label : string).
      (* to_datetime on the sub-table a repeated label selects *)

(** ** The warehouse and the run ledger *)

Record run_row := RunRow {
  RunID : Z;
  StartedAt : option Z;
  EndedAt : option Z;
  Status : option string;
  StgProviderCount : option Z;
  StgPatientCount : option Z;
  StgClaimCount : option Z;
  ProviderCount : option Z;
  PatientCount : option Z;
  ClaimCount : option Z;
  RejectTotal : option Z
}.

(** The relations the merge procedures maintain. *)
Record final_tables := FinalTables {
  Provider : list row;
  Patient : list row;
  Claim : list row;
  Reject_Claim : list (Z * row)         (* rejected claims, tagged with the run *)
}.

Record database := Database {
  staging : gmap string (list row);     (* dbo.StgProvider, dbo.StgPatient, dbo.StgClaim *)
  final : final_tables;
  ETL_Run : list run_row;
  next_RunID : Z;                       (* the identity counter of ETL_Run *)
  utc_now : Z                           (* what SYSUTCDATETIME() returns *)
}.

(** The calls the program makes to the outside: blob storage, the SQL
    engine, standard output. *)
Inductive call :=
  | ReadBlob (container blob_name : string)         (* download and parse one blob *)
  | InsertRun                                       (* INSERT INTO dbo.ETL_Run ... DEFAULT VALUES *)
  | Truncate (table_name : string)                  (* TRUNCATE TABLE dbo.{table_name} *)
  | ToSql (table_name : string) (data : list row)   (* DataFrame.to_sql, if_exists="append" *)
  | SelectCount (relation : string) (run : option Z)  (* SELECT COUNT( * ) FROM dbo.{relation} *)
  | Exec (proc_name : string) (run : option Z)      (* EXEC {proc_name} [@RunID=run] *)
  | UpdateRun (run : Z) (counts : list Z)           (* UPDATE dbo.ETL_Run SET the seven counts *)
  | FinishRun (run : Z) (status : string)           (* UPDATE dbo.ETL_Run SET EndedAt, Status *)
  | Print (run : Z).                                (* the closing message on stdout *)

Inductive exn :=
  | ValueError (e : value_error)
  | KeyError (labels : list string)
  | TypeError (label : string)          (* a cast or conversion pandas refuses *)
  | AttributeError (label : string)     (* .str on something that is not a text column *)
  | ExternalError (c : call).           (* raised by storage, the SQL engine or stdout *)

(** ** State and control *)

(** A DataFrame object is named by its address in the heap. *)
Abbreviation ref := nat (only parsing).

Record world := World {
  heap : list frame;        (* the DataFrame objects, by address *)
  db : database;
  calls : list call         (* the external calls issued so far, oldest first *)
}.

Definition M (A : Type) : Type := world -> (exn + A) * world.

#[global] Instance M_ret : MRet M := fun A a w => (inr a, w).
#[global] Instance M_bind : MBind M := fun A B f m w =>
  match m w with
  | (inr a, w') => f a w'
  | (inl e, w') => (inl e, w')
  end.

Definition raise {A} (e : exn) : M A := fun w => (inl e, w).

(** [try: m except Exception as e: h e] *)
Definition try_except {A} (m : M A) (h : exn -> M A) : M A := fun w =>
  match m w with
  | (inr a, w') => (inr a, w')
  | (inl e, w') => h e w'
  end.

(** [for x in xs: body x] *)
Fixpoint for_each {A} (xs : list A) (body : A -> M unit) : M unit :=
  match xs with
  | [] => mret tt
  | x :: xs' => _ ← body x; for_each xs' body
  end.

Definition get_heap : M (list frame) := fun w => (inr (heap w), w).
Definition put_heap (h : list frame) : M unit := fun w =>
  (inr tt, World h (db w) (calls w)).
Definition get_db : M database := fun w => (inr (db w), w).
Definition put_db (d : database) : M unit := fun w =>
  (inr tt, World (heap w) d (calls w)).
Definition emit (c : call) : M unit := fun w =>
  (inr tt, World (heap w) (db w) (calls w ++ [c])).

(** *** DataFrame objects *)

Definition alloc (f : frame) : M ref :=
  h ← get_heap; _ ← put_heap (h ++ [f]); mret (length h).

Definition deref (r : ref) : M frame :=
  h ← get_heap; mret (h !!! r).

Definition assign (r : ref) (f : frame) : M unit :=
  h ← get_heap; put_heap (<[r := f]> h).

(** [df.columns] *)
Definition get_columns (df : ref) : M (list string) :=
  f ← deref df; mret (columns f).

(** [df.columns = labels]: in place; pandas refuses a list of another length. *)
Definition set_columns (df : ref) (labels : list string) : M unit :=
  f ← deref df;
  if (length labels =? length (columns f))%nat
  then assign df (Frame labels (rows f))
  else raise (ValueError (LengthMismatch (length (columns f)) (length labels))).

(** The positions of a label among the columns. *)
Fixpoint positions_from (i : nat) (label : string) (labels : list string) : list nat :=
  match labels with
  | [] => []
  | l :: ls =>
      if String.eqb l label then i :: positions_from (S i) label ls
      else positions_from (S i) label ls
  end.

Definition positions := positions_from 0.

Definition cell (r : row) (i : nat) : value := default VNaN (r !! i).

(** The cells of the column at a position, top to bottom. *)
Definition column (i : nat) (f : frame) : list value :=
  map (fun r => cell r i) (rows f).

Definition set_cell (i : nat) (r : row) (v : value) : row := <[i := v]> r.

(** The table with the column at a position replaced, cell by cell. *)
Definition set_column (i : nat) (series : list value) (f : frame) : frame :=
  Frame (columns f) (zip_with (set_cell i) (rows f) series).

(** The table made of the columns at the given positions. *)
Definition take_columns (idx : list nat) (f : frame) : frame :=
  Frame (map (fun i => default "" (columns f !! i)) idx)
        (map (fun r => map (cell r) idx) (rows f)).

(** [df[labels]] for a list of labels: a new table with, for each label in
    turn, every column that carries it; [KeyError] when a label is absent. *)
Definition select (labels : list string) (f : frame) : exn + frame :=
  match List.filter (fun l => negb (Text.mem l (columns f))) labels with
  | [] => inr (take_columns (flat_map (fun l => positions l (columns f)) labels) f)
  | absent => inl (KeyError absent)
  end.

Definition getitem_list (df : ref) (labels : list string) : M ref :=
  f ← deref df;
  match select labels f with
  | inr g => alloc g
  | inl e => raise e
  end.

(** ** CSV repair ([etl_utils._split_single_column_csv]) *)

Definition is_text (v : value) : bool :=
  match v with VStr _ | VNaN | VNone => true | _ => false end.

(** The pieces of one cell under [.str.split(sep, expand=True)]: a text cell
    is cut at every separator, a missing cell stays one missing cell. *)
Definition split_cell (sep : ascii) (v : value) : row :=
  match v with
  | VStr s => map VStr (Text.split sep s)
  | _ => [VNaN]
  end.

(** The row of a missing cell is missing over the whole width; the pieces
    of a text that are fewer than the widest row has are followed by [None]. *)
Definition pad (width : nat) (r : row) : row :=
  match r with
  | VNaN :: _ => replicate width VNaN
  | _ => r ++ replicate (width - length r) VNone
  end.

Definition max_width (rs : list row) : nat :=
  foldr (fun r n => Nat.max (length r) n) 0%nat rs.

(** [series.str.split(sep, expand=True)]: a new table, one row per cell, as
    wide as the cell with the most pieces, labelled 0, 1, ...; the accessor
    [.str] exists only on a column of text and missing cells. *)
Definition str_split_expand (label : string) (sep : ascii) (series : list value)
  : exn + frame :=
  if forallb is_text series then
    let parts := map (split_cell sep) series in
    let width := max_width parts in
    inr (Frame (map pretty (seq 0 width)) (map (pad width) parts))
  else inl (AttributeError label).

(** The delimiter the repair settles on for a header. *)
Definition pick_sep (header : string) : ascii :=
  if Text.contains ";" header then ";"%char
  else if Text.contains "|" header then "|"%char
  else ","%char.

Definition has_delimiter (header : string) : bool :=
  existsb (fun ch => Text.contains ch header) [","%char; ";"%char; "|"%char].

(** [if new_names:] *)
Definition truthy {A} (o : option (list A)) : bool :=
  match o with Some (_ :: _) => true | _ => false end.

(** [dict(zip(keys, vals)).get(k, k)]: the last pair for a key wins. *)
Fixpoint rename_label (pairs : list (string * string)) (k : string) : string :=
  match pairs with
  | [] => k
  | (k', v) :: rest =>
      let r := rename_label rest k in
      if String.eqb k' k then (if Text.mem k (map fst rest) then r else v) else r
  end.

(** First block of the function (the [if] on a one-column table): the
    table to go on with, which is a new object after a split and the
    caller's own otherwise. *)
Definition split_block (df : ref) : M ref :=
  cols ← get_columns df;
  match cols with
  | [header] =>
      if has_delimiter header then
        let sep := pick_sep header in
        let header_parts := map Text.strip (Text.split sep header) in
        f ← deref df;
        match str_split_expand header sep (column 0 f) with
        | inr g =>
            df' ← alloc g;
            _ ← set_columns df' header_parts;
            mret df'
        | inl e => raise e
        end
      else mret df
  | _ => mret df
  end.

(** Second block: strip the labels in place, validate, project. *)
Definition validate_block (df : ref) (expected_cols : list string)
    (new_names : option (list string)) : M ref :=
  cols ← get_columns df;
  _ ← set_columns df (map Text.strip cols);
  cols ← get_columns df;
  let missing := List.filter (fun c => negb (Text.mem c cols)) expected_cols in
  match missing with
  | _ :: _ => raise (ValueError (MissingColumns missing cols))
  | [] =>
      sel ← getitem_list df expected_cols;
      if truthy new_names then
        f ← deref sel;
        let mapping := zip expected_cols (default [] new_names) in
        alloc (Frame (map (rename_label mapping) (columns f)) (rows f))
      else mret sel
  end.

Definition _split_single_column_csv (df : ref) (expected_cols : list string)
    (new_names : option (list string)) : M ref :=
  df ← split_block df;
  validate_block df expected_cols new_names.

(** ** Numbers in text ([pd.to_numeric] on one cell) *)

Module Numeric.

#[local] Open Scope Z_scope.

(** *** Floats of 64 bits *)

(** A float: a finite one is held as the rational it denotes, in lowest
    terms; the negative zero is apart. *)
Inductive float64 :=
  | FNum (x : Q)
  | FNegZero
  | FInf (neg : bool)
  | FNaN.

Definition of_float (x : float64) : value :=
  match x with
  | FNum q => VNum q
  | FNegZero => VNegZero
  | FInf neg => VInf neg
  | FNaN => VNaN
  end.

(** [n / d] rounded to an integer, ties to the even one. *)
Definition round_half_even (n d : Z) : Z :=
  let q := n / d in
  let r := n mod d in
  match 2 * r ?= d with
  | Lt => q
  | Gt => q + 1
  | Eq => if Z.even q then q else q + 1
  end.

(** The float nearest to the positive rational [n / d], ties to even: 53
    bits of precision, the smallest exponent that of the subnormals;
    [None] beyond the largest finite float. *)
Definition nearest64 (n d : Z) : option Q :=
  let e0 := Z.log2 n - Z.log2 d in
  let above := if 0 <=? e0 then d * 2 ^ e0 <=? n else d <=? n * 2 ^ (- e0) in
  let e := if above then e0 else e0 - 1 in
  let p := Z.max (e - 52) (- 1074) in
  if 0 <=? p then
    let m := round_half_even n (d * 2 ^ p) in
    if 2 ^ 1024 <=? m * 2 ^ p then None else Some (inject_Z (m * 2 ^ p))
  else
    let m := round_half_even (n * 2 ^ (- p)) d in
    Some (Qred (Qmake m (Z.to_pos (2 ^ (- p))))).

(** The result of an operation of C on doubles whose exact result is the
    rational [x >= 0]. *)
Definition round64 (x : Q) : option Q :=
  match Qnum x with
  | Zpos n => nearest64 (Zpos n) (Zpos (Qden x))
  | _ => Some 0%Q
  end.

Definition mul64 (a b : Q) : option Q := round64 (a * b).
Definition div64 (a b : Q) : option Q := round64 (a / b).

(** [e[k]], the table of the powers of ten of the parser: the literals
    [1e0] to [1e308]. *)
Definition e (k : Z) : Q := default 0%Q (round64 (inject_Z (10 ^ k))).

(** [number * 10. + digit], on a number of at most 17 digits *)
Definition accumulate (number : Q) (d : Z) : Q :=
  default 0%Q (t ← mul64 number (inject_Z 10); round64 (t + inject_Z d)).

(** [(double) z] for an integer *)
Definition float_of_Z (z : Z) : float64 :=
  match round64 (inject_Z (Z.abs z)) with
  | Some x => if z <? 0 then FNum (- x) else FNum x
  | None => FInf (z <? 0)
  end.

(** *** The parser of decimal literals ([precise_xstrtod], as [to_double]
    calls it: decimal point [.], exponent marker [E], no thousands
    separator, trailing blanks skipped) *)

Definition is_digit (c : ascii) : bool :=
  let n := nat_of_ascii c in ((48 <=? n) && (n <=? 57))%nat.

Definition digit (c : ascii) : Z := Z.of_nat (nat_of_ascii c) - 48.

(** [isspace_ascii] *)
Definition is_cspace (c : ascii) : bool :=
  let n := nat_of_ascii c in ((9 <=? n) && (n <=? 13) || (n =? 32))%nat.

Fixpoint skip_spaces (l : list ascii) : list ascii :=
  match l with
  | c :: l' => if is_cspace c then skip_spaces l' else l
  | [] => []
  end.

Definition read_sign (l : list ascii) : bool * list ascii :=
  match l with
  | c :: l' =>
      if Ascii.eqb c "-" then (true, l')
      else if Ascii.eqb c "+" then (false, l')
      else (false, l)
  | [] => (false, [])
  end.

Definition max_digits : nat := 17.

(** The digits before the point: the first 17 make the number, each
    further one counts in the exponent.  [exact] is the integer that all the
    digits spell. *)
Fixpoint read_integer (number : Q) (num_digits : nat) (exponent exact : Z)
    (l : list ascii) : Q * nat * Z * Z * list ascii :=
  match l with
  | c :: l' =>
      if is_digit c then
        if (num_digits <? max_digits)%nat
        then read_integer (accumulate number (digit c)) (S num_digits) exponent
                          (10 * exact + digit c) l'
        else read_integer number num_digits (exponent + 1) (10 * exact + digit c) l'
      else (number, num_digits, exponent, exact, l)
  | [] => (number, num_digits, exponent, exact, [])
  end.

(** The digits after the point: those that bring the number to 17 digits
    count, the others are read and dropped. *)
Fixpoint read_decimals (number : Q) (num_digits num_decimals : nat) (l : list ascii)
  : Q * nat * nat * list ascii :=
  match l with
  | c :: l' =>
      if is_digit c then
        if (num_digits <? max_digits)%nat
        then read_decimals (accumulate number (digit c)) (S num_digits) (S num_decimals) l'
        else read_decimals number num_digits num_decimals l'
      else (number, num_digits, num_decimals, l)
  | [] => (number, num_digits, num_decimals, [])
  end.

(** The digits of the exponent, 17 at most.  The parser holds the exponent
    in a C [int]; a text whose exponent does not fit one is outside what C
    defines, and here the exponent is the integer that the digits spell. *)
Fixpoint read_exponent (n : Z) (num_digits : nat) (l : list ascii) : Z * nat * list ascii :=
  match l with
  | c :: l' =>
      if is_digit c && (num_digits <? max_digits)%nat
      then read_exponent (10 * n + digit c) (S num_digits) l'
      else (n, num_digits, l)
  | [] => (n, num_digits, [])
  end.

(** The number times ten to the exponent, one rounded operation with the
    table where the exponent allows it; [None] is [ERANGE]. *)
Definition scale (number : Q) (exponent : Z) : option Q :=
  if 308 <? exponent then None
  else if 0 <? exponent then mul64 number (e exponent)
  else if exponent <? - 308 then
    if exponent <? - 616 then Some 0%Q
    else t ← div64 number (e (- 308 - exponent)); div64 t (e 308)
  else div64 number (e (- exponent)).

(** What a literal reads as. *)
Record literal := Literal {
  l_value : float64;      (* the double *)
  maybe_int : bool;       (* neither a point nor an exponent marker was seen *)
  l_exact : Z             (* the integer spelled, when [maybe_int] *)
}.

(** [to_double]: the literal, or [None] when the parser reports an error
    or does not reach the end of the text. *)
Definition to_double (s : string) : option literal :=
  let l := skip_spaces (list_ascii_of_string s) in
  let '(negative, l) := read_sign l in
  let '(number, num_digits, exponent, exact, l) := read_integer 0 0 0 0 l in
  let '(number, num_digits, exponent, is_int, l) :=
    match l with
    | c :: l' =>
        if Ascii.eqb c "." then
          let '(number, num_digits, num_decimals, l'') :=
            read_decimals number num_digits 0 l' in
          (number, num_digits, exponent - Z.of_nat num_decimals, false, l'')
        else (number, num_digits, exponent, true, l)
    | [] => (number, num_digits, exponent, true, [])
    end in
  if (num_digits =? 0)%nat then None
  else
    let '(exponent, is_int, l) :=
      match l with
      | c :: l' =>
          if Ascii.eqb c "e" || Ascii.eqb c "E" then
            let '(eneg, l2) := read_sign l' in
            let '(n, n3, l3) := read_exponent 0 0 l2 in
            if (n3 =? 0)%nat then (exponent, false, l)
            else (if eneg then exponent - n else exponent + n, false, l3)
          else (exponent, is_int, l)
      | [] => (exponent, is_int, [])
      end in
    match scale number exponent with
    | None => None
    | Some x =>
        match skip_spaces l with
        | [] =>
            Some (Literal (if negative
                           then (if Qnum x =? 0 then FNegZero else FNum (- x))
                           else FNum x)
                          is_int (if negative then - exact else exact))
        | _ => None
        end
    end.

(** *** One text cell ([floatify], then [int(val)] for an integer literal) *)

Definition lower (c : ascii) : ascii :=
  let n := nat_of_ascii c in
  if ((65 <=? n) && (n <=? 90))%nat then ascii_of_nat (n + 32) else c.

Fixpoint lowercase (s : string) : string :=
  match s with
  | EmptyString => EmptyString
  | String c s' => String (lower c) (lowercase s')
  end.

(** The spellings of infinity that are read when the literal fails. *)
Definition infinity (s : string) : option bool :=
  let t := lowercase s in
  if Text.mem t ["inf"; "+inf"; "infinity"; "+infinity"] then Some false
  else if Text.mem t ["-inf"; "-infinity"] then Some true
  else None.

(** The text as C sees it: the bytes before the first zero byte. *)
Fixpoint c_string (s : string) : string :=
  match s with
  | EmptyString => EmptyString
  | String c s' =>
      if (nat_of_ascii c =? 0)%nat then EmptyString else String c (c_string s')
  end.

(** What one cell of an object column contributes: an integer, with the
    double that the parser read for it, or a float. *)
Inductive reading :=
  | RInt (z : Z) (x : float64)
  | RFloat (x : float64).

(** A text cell under [errors="coerce"]: what does not parse is nan.  The
    integer of an integer literal is [int(val)], which refuses a text with a
    zero byte. *)
Definition read_text (s : string) : reading :=
  match to_double (c_string s) with
  | Some lit =>
      if maybe_int lit then
        if String.eqb (c_string s) s then RInt (l_exact lit) (l_value lit)
        else RFloat FNaN
      else RFloat (l_value lit)
  | None =>
      match infinity (c_string s) with
      | Some neg => RFloat (FInf neg)
      | None => RFloat FNaN
      end
  end.

Definition read_cell (v : value) : reading :=
  match v with
  | VStr s => read_text s
  | VNum q => RFloat (FNum q)
  | VNegZero => RFloat FNegZero
  | VInf neg => RFloat (FInf neg)
  | VInt z => RInt z (float_of_Z z)
  | _ => RFloat FNaN
  end.

(** *** A whole column ([pd.to_numeric(series, errors="coerce")]) *)

Definition int64_min : Z := - 2 ^ 63.
Definition int64_max : Z := 2 ^ 63 - 1.
Definition uint64_max : Z := 2 ^ 64 - 1.

(** The cell makes the column one of floats: a float, a missing cell, or
    an integer beyond 64 bits. *)
Definition forces_float (r : reading) : bool :=
  match r with
  | RFloat _ => true
  | RInt z _ => (z <? int64_min) || (uint64_max <? z)
  end.

Definition is_negative (r : reading) : bool :=
  match r with RInt z _ => z <? 0 | RFloat _ => false end.

Definition is_unsigned (r : reading) : bool :=
  match r with RInt z _ => int64_max <? z | RFloat _ => false end.

Definition as_float (r : reading) : value :=
  match r with RInt _ x => of_float x | RFloat x => of_float x end.

Definition as_int (r : reading) : value :=
  match r with RInt z _ => VInt z | RFloat x => of_float x end.

(** [lib.maybe_convert_numeric] under [coerce_numeric]: a column of floats
    as soon as one cell is a float or missing, or when negative integers
    meet integers beyond [int64]; a column of integers ([int64] or [uint64])
    otherwise, with the integers exact. *)
Definition convert_object (series : list value) : list value :=
  let readings := map read_cell series in
  if existsb forces_float readings
     || existsb is_negative readings && existsb is_unsigned readings
  then map as_float readings
  else map as_int readings.

(** The cells of an object column that are not numbers. *)
Definition is_object (v : value) : bool :=
  match v with VStr _ | VNone => true | _ => false end.

(** A column of numbers is left as it is; one of timestamps is viewed as
    its nanosecond counts. *)
Definition numeric_view (v : value) : value :=
  match v with
  | VTime t => VInt t
  | VNaT => VInt int64_min
  | _ => v
  end.

Definition to_numeric (series : list value) : list value :=
  if existsb is_object series then convert_object series
  else map numeric_view series.

(** [.astype("Int64")] on one numeric cell: nan becomes NA, a float must be
    a whole number that fits 64 bits, as an integer must, anything else is
    refused. *)
Definition to_Int64 (v : value) : option value :=
  match v with
  | VNaN | VNA | VNone => Some VNA
  | VNegZero => Some (VInt 0)
  | VInt z => if (int64_min <=? z) && (z <=? int64_max) then Some (VInt z) else None
  | VNum q =>
      let r := Qred q in
      if ((Zpos (Qden r) =? 1) && (int64_min <=? Qnum r) && (Qnum r <=? int64_max))%Z
      then Some (VInt (Qnum r)) else None
  | _ => None
  end.

(** The cast of a whole column: it raises as soon as one cell is refused. *)
Definition astype_Int64 (series : list value) : option (list value) :=
  mapM to_Int64 series.

End Numeric.

(** ** Type coercion ([_coerce_types], the same text in both files) *)

(** The parts of pandas that the program relies on and that are taken as
    given: how one cell becomes a timestamp under [errors="coerce"], a
    conversion that yields NaT ([None]) where it cannot parse, and how
    floats and timestamps print. *)
Record pandas := Pandas {
  datetime_of : value -> option Z;
  repr_float : Q -> string;
  repr_timestamp : Z -> string
}.

(** [df.copy()]: a new object with the same labels and cells. *)
Definition copy (df : ref) : M ref :=
  f ← deref df; alloc f.

(** [df[label]] for one label: the column when exactly one column carries
    the label; a repeated label selects a sub-table, which is [None] here. *)
Definition getitem (df : ref) (label : string) : M (option (list value)) :=
  f ← deref df;
  match positions label (columns f) with
  | [i] => mret (Some (column i f))
  | _ => mret None
  end.

(** [df[label] = series], in place, for a label that one column carries. *)
Definition setitem (df : ref) (label : string) (series : list value) : M unit :=
  f ← deref df;
  match positions label (columns f) with
  | i :: _ => assign df (set_column i series f)
  | [] => mret tt
  end.

Section Coercion.

Context (pd : pandas).

(** [pd.to_datetime(series, errors="coerce", utc=False)], cell by cell. *)
Definition to_datetime (v : value) : value :=
  match datetime_of pd v with
  | Some t => VTime t
  | None => VNaT
  end.

(** [str(x)] of a cell, as [.astype(str)] applies it. *)
Definition py_str (v : value) : string :=
  match v with
  | VStr s => s
  | VNaN => "nan"
  | VNone => "None"
  | VNum q => repr_float pd q
  | VNegZero => "-0.0"
  | VInf neg => if neg then "-inf" else "inf"
  | VInt z => pretty z
  | VNA => "<NA>"
  | VTime t => repr_timestamp pd t
  | VNaT => "NaT"
  end.

(** [series.astype(str).str.strip()] on one cell *)
Definition to_stripped_str (v : value) : value := VStr (Text.strip (py_str v)).

(** One turn of the loop, for a label that the table has. *)
Definition coerce_column (out : ref) (col target : string) : M unit :=
  s ← getitem out col;
  if Text.startswith "datetime" target then
    match s with
    | Some series => setitem out col (map to_datetime series)
    | None => raise (ValueError (NotOneColumn col))
    end
  else if String.eqb target "float" then
    match s with
    | Some series => setitem out col (Numeric.to_numeric series)
    | None => raise (TypeError col)
    end
  else if String.eqb target "int" then
    match s with
    | Some series =>
        match Numeric.astype_Int64 (Numeric.to_numeric series) with
        | Some ints => setitem out col ints
        | None => raise (TypeError col)
        end
    | None => raise (TypeError col)
    end
  else
    (* "str" and every other tag *)
    match s with
    | Some series => setitem out col (map to_stripped_str series)
    | None => raise (AttributeError col)
    end.

(** [mapping] is the dict in the order of its items. *)
Definition _coerce_types (df : ref) (mapping : list (string * string)) : M ref :=
  out ← copy df;
  _ ← for_each mapping (fun '(col, target) =>
        cols ← get_columns out;
        if negb (Text.mem col cols) then mret tt
        else coerce_column out col target);
  mret out.

End Coercion.

(** ** The load ([etl_load.py]) *)

(** What the program does not decide: the content of the blobs ([None]: the
    blob is absent or does not parse), which external calls fail, the column
    defaults of [ETL_Run], the configured container, and what the stored
    procedures do.  The procedures are opaque; they read the staging
    relations and rewrite the final relations, not the run ledger. *)
Record environment := Environment {
  blob : string -> string -> option frame;
  fails : call -> bool;
  container : string;
  run_defaults : run_row;
  procedure : string -> option Z -> gmap string (list row) -> final_tables -> final_tables
}.

Definition with_RunID (id : Z) (r : run_row) : run_row :=
  RunRow id (StartedAt r) (EndedAt r) (Status r)
         (StgProviderCount r) (StgPatientCount r) (StgClaimCount r)
         (ProviderCount r) (PatientCount r) (ClaimCount r) (RejectTotal r).

Definition with_counts (sp st sc fp ft fc rj : Z) (r : run_row) : run_row :=
  RunRow (RunID r) (StartedAt r) (EndedAt r) (Status r)
         (Some sp) (Some st) (Some sc) (Some fp) (Some ft) (Some fc) (Some rj).

Definition with_end (now : Z) (status : string) (r : run_row) : run_row :=
  RunRow (RunID r) (StartedAt r) (Some now) (Some status)
         (StgProviderCount r) (StgPatientCount r) (StgClaimCount r)
         (ProviderCount r) (PatientCount r) (ClaimCount r) (RejectTotal r).

(** [UPDATE dbo.ETL_Run SET ... WHERE RunID = rid] *)
Definition update_where (rid : Z) (set : run_row -> run_row) (d : database) : database :=
  Database (staging d) (final d)
           (map (fun r => if (RunID r =? rid)%Z then set r else r) (ETL_Run d))
           (next_RunID d) (utc_now d).

Definition insert_run (defaults : run_row) (d : database) : database :=
  Database (staging d) (final d)
           (ETL_Run d ++ [with_RunID (next_RunID d) defaults])
           (next_RunID d + 1) (utc_now d).

Definition set_staging (st : gmap string (list row)) (d : database) : database :=
  Database st (final d) (ETL_Run d) (next_RunID d) (utc_now d).

Definition set_final (ft : final_tables) (d : database) : database :=
  Database (staging d) ft (ETL_Run d) (next_RunID d) (utc_now d).

Definition relation_of (name : string) (d : database) : list row :=
  default [] (staging d !! name).

Definition count_of (relation : string) (run : option Z) (d : database) : Z :=
  if String.eqb relation "Provider" then Z.of_nat (length (Provider (final d)))
  else if String.eqb relation "Patient" then Z.of_nat (length (Patient (final d)))
  else if String.eqb relation "Claim" then Z.of_nat (length (Claim (final d)))
  else if String.eqb relation "Reject_Claim" then
    Z.of_nat (length (List.filter (fun p => bool_decide (Some (fst p) = run))
                                  (Reject_Claim (final d))))
  else Z.of_nat (length (relation_of relation d)).

(** [d.get(key, 0)] *)
Fixpoint dict_get (d : list (string * Z)) (key : string) : Z :=
  match d with
  | [] => 0
  | (k, v) :: rest => if String.eqb k key then v else dict_get rest key
  end.

(** [df.empty]: one of the two axes has length zero. *)
Definition empty (f : frame) : bool :=
  match rows f, columns f with
  | [], _ | _, [] => true
  | _, _ => false
  end.

Section Load.

Context (pd : pandas) (env : environment).

(** One call to the outside: it is issued, then either raises or has its
    effect on the database. *)
Definition external (c : call) (effect : database -> database) : M unit :=
  _ ← emit c;
  if fails env c then raise (ExternalError c)
  else d ← get_db; put_db (effect d).

(** [with engine.begin() as conn: body]: commit when the body returns,
    roll back when it raises. *)
Definition transaction {A} (body : M A) : M A := fun w =>
  match body w with
  | (inl e, w') => (inl e, World (heap w') (db w) (calls w'))
  | ok => ok
  end.

Definition read_csv_from_blob (container blob_name : string) : M ref :=
  _ ← emit (ReadBlob container blob_name);
  match blob env container blob_name with
  | Some f => alloc f
  | None => raise (ExternalError (ReadBlob container blob_name))
  end.

Definition truncate_staging : M unit :=
  _ ← external (Truncate "StgClaim") (fun d => set_staging (<["StgClaim" := []]> (staging d)) d);
  _ ← external (Truncate "StgPatient") (fun d => set_staging (<["StgPatient" := []]> (staging d)) d);
  external (Truncate "StgProvider") (fun d => set_staging (<["StgProvider" := []]> (staging d)) d).

Definition load_staging (table_name : string) (df : option ref) : M unit :=
  match df with
  | None => raise (ValueError (EmptyLoad table_name))
  | Some r =>
      f ← deref r;
      if empty f then raise (ValueError (EmptyLoad table_name))
      else external (ToSql table_name (rows f))
             (fun d => set_staging
                (<[table_name := relation_of table_name d ++ rows f]> (staging d)) d)
  end.

Definition exec_proc (proc_name : string) : M unit :=
  transaction
    (external (Exec proc_name None)
       (fun d => set_final (procedure env proc_name None (staging d) (final d)) d)).

Definition start_run : M Z :=
  transaction
    (d ← get_db;
     _ ← external InsertRun (insert_run (run_defaults env));
     mret (next_RunID d)).

Definition update_run_counts (run_id : Z) (stg_counts final_counts : list (string * Z))
    (reject_total : Z) : M unit :=
  let sp := dict_get stg_counts "provider" in
  let st := dict_get stg_counts "patient" in
  let sc := dict_get stg_counts "claim" in
  let fp := dict_get final_counts "provider" in
  let ft := dict_get final_counts "patient" in
  let fc := dict_get final_counts "claim" in
  transaction
    (external (UpdateRun run_id [sp; st; sc; fp; ft; fc; reject_total])
       (update_where run_id (with_counts sp st sc fp ft fc reject_total))).

Definition finish_run (run_id : Z) (status : string) : M unit :=
  transaction
    (external (FinishRun run_id status)
       (fun d => update_where run_id (with_end (utc_now d) status) d)).

(** [conn.execute(text("SELECT COUNT( * ) ...")).scalar_one()] *)
Definition select_count (relation : string) (run : option Z) : M Z :=
  _ ← external (SelectCount relation run) id;
  d ← get_db; mret (count_of relation run d).

(** [df.columns = [c.strip() for c in df.columns]] *)
Definition strip_columns (df : ref) : M unit :=
  cols ← get_columns df; set_columns df (map Text.strip cols).

(** [if len(df.columns) == 1: df = _split_single_column_csv(df, expected)] *)
Definition repair_if_single (df : ref) (expected : list string) : M ref :=
  cols ← get_columns df;
  if (length cols =? 1)%nat then _split_single_column_csv df expected None
  else mret df.

Definition provider_cols : list string := ["Name"; "Region"; "Specialty"].
Definition patient_cols : list string := ["FirstName"; "LastName"; "BirthDate"; "Gender"].
Definition claim_cols : list string :=
  ["PatientFirstName"; "PatientLastName"; "PatientBirthDate"; "ProviderName";
   "ProviderRegion"; "AmountBilled"; "AmountPaid"; "Status"; "DateSubmitted"; "DatePaid"].

Definition provider_types : list (string * string) :=
  [("Name", "str"); ("Region", "str"); ("Specialty", "str")].
Definition patient_types : list (string * string) :=
  [("FirstName", "str"); ("LastName", "str"); ("BirthDate", "datetime64[ns]");
   ("Gender", "str")].
Definition claim_types : list (string * string) :=
  [("PatientFirstName", "str"); ("PatientLastName", "str");
   ("PatientBirthDate", "datetime64[ns]");
   ("ProviderName", "str"); ("ProviderRegion", "str");
   ("AmountBilled", "float"); ("AmountPaid", "float");
   ("Status", "str"); ("DateSubmitted", "datetime64[ns]"); ("DatePaid", "datetime64[ns]")].

(** The body of the [try] in [main]. *)
Definition main_body (run_id : Z) : M unit :=
  (* 1) read the three blobs *)
  providers ← read_csv_from_blob (container env) "providers.csv";
  patients ← read_csv_from_blob (container env) "patients.csv";
  claims ← read_csv_from_blob (container env) "claims.csv";
  _ ← strip_columns providers;
  _ ← strip_columns patients;
  _ ← strip_columns claims;
  providers ← repair_if_single providers provider_cols;
  patients ← repair_if_single patients patient_cols;
  claims ← repair_if_single claims claim_cols;
  (* 2) coerce types *)
  providers ← _coerce_types pd providers provider_types;
  patients ← _coerce_types pd patients patient_types;
  claims ← _coerce_types pd claims claim_types;
  (* 3) truncate staging and load the staging tables *)
  _ ← transaction truncate_staging;
  sel ← getitem_list providers provider_cols;
  _ ← load_staging "StgProvider" (Some sel);
  sel ← getitem_list patients patient_cols;
  _ ← load_staging "StgPatient" (Some sel);
  sel ← getitem_list claims claim_cols;
  _ ← load_staging "StgClaim" (Some sel);
  stg_counts ← transaction
    (p ← select_count "StgProvider" None;
     t ← select_count "StgPatient" None;
     c ← select_count "StgClaim" None;
     mret [("provider", p); ("patient", t); ("claim", c)]);
  (* 4) the merge procedures for providers and patients *)
  _ ← exec_proc "dbo.sp_upsert_provider";
  _ ← exec_proc "dbo.sp_upsert_patient";
  (* 5) the merge procedure for claims, with this run's identifier *)
  _ ← transaction
    (external (Exec "dbo.sp_upsert_claim" (Some run_id))
       (fun d => set_final
          (procedure env "dbo.sp_upsert_claim" (Some run_id) (staging d) (final d)) d));
  (* 6) final counts and rejects of this run *)
  '(final_counts, reject_total) ← transaction
    (p ← select_count "Provider" None;
     t ← select_count "Patient" None;
     c ← select_count "Claim" None;
     r ← select_count "Reject_Claim" (Some run_id);
     mret ([("provider", p); ("patient", t); ("claim", c)], r));
  _ ← update_run_counts run_id stg_counts final_counts reject_total;
  _ ← finish_run run_id "SUCCESS";
  external (Print run_id) id.

Definition main : M unit :=
  run_id ← start_run;
  try_except (main_body run_id)
    (fun e => _ ← finish_run run_id "FAILED"; raise e).

End Load.

(** ** Concrete inputs *)

(** A world with the given DataFrame objects, an empty database and no call
    issued yet. *)
Definition empty_db : database :=
  Database ∅ (FinalTables [] [] [] []) [] 1 0.

Definition on_heap (h : list frame) : world := World h empty_db [].

(** The malformed table of the docstring of the repair. *)
Definition providers_raw : frame :=
  Frame ["Name,Region,Specialty"]
        [[VStr "North Clinic,Midwest,Primary Care"];
         [VStr "Sunrise Hospital,South,Cardiology"]].

(** An instance of the given parts of pandas, for examples: no text is a
    date, numbers and timestamps print as the empty text. *)
Definition pandas_sample : pandas :=
  Pandas (fun _ => None) (fun _ => "") (fun _ => "").

(** * Properties *)

(** ** Running single steps *)

Lemma bind_run {A B} (m : M A) (f : A -> M B) (w : world) :
  (m ≫= f) w = match m w with
               | (inr a, w') => f a w'
               | (inl e, w') => (inl e, w')
               end.
Proof. reflexivity. Qed.

Lemma deref_run (w : world) (r : ref) (f : frame) :
  heap w !! r = Some f -> deref r w = (inr f, w).
Proof.
  intros H. unfold deref. rewrite bind_run. cbn.
  by rewrite (list_lookup_total_correct _ _ _ H).
Qed.

Lemma get_columns_run (w : world) (r : ref) (f : frame) :
  heap w !! r = Some f -> get_columns r w = (inr (columns f), w).
Proof.
  intros H. unfold get_columns. rewrite bind_run, (deref_run _ _ _ H). reflexivity.
Qed.

Lemma alloc_run (w : world) (f : frame) :
  alloc f w = (inr (length (heap w)), World (heap w ++ [f]) (db w) (calls w)).
Proof. reflexivity. Qed.

Lemma set_columns_run (w : world) (r : ref) (f : frame) (labels : list string) :
  heap w !! r = Some f ->
  length labels = length (columns f) ->
  set_columns r labels w
  = (inr tt, World (<[r := Frame labels (rows f)]> (heap w)) (db w) (calls w)).
Proof.
  intros H Hlen. unfold set_columns. rewrite bind_run, (deref_run _ _ _ H).
  rewrite Hlen, Nat.eqb_refl. reflexivity.
Qed.

Lemma set_columns_mismatch (w : world) (r : ref) (f : frame) (labels : list string) :
  heap w !! r = Some f ->
  length labels <> length (columns f) ->
  set_columns r labels w
  = (inl (ValueError (LengthMismatch (length (columns f)) (length labels))), w).
Proof.
  intros H Hlen. unfold set_columns. rewrite bind_run, (deref_run _ _ _ H).
  apply Nat.eqb_neq in Hlen. rewrite Hlen. reflexivity.
Qed.

Lemma getitem_list_run (w : world) (r : ref) (f g : frame) (labels : list string) :
  heap w !! r = Some f ->
  select labels f = inr g ->
  getitem_list r labels w
  = (inr (length (heap w)), World (heap w ++ [g]) (db w) (calls w)).
Proof.
  intros H Hs. unfold getitem_list. rewrite bind_run, (deref_run _ _ _ H), Hs.
  reflexivity.
Qed.

(** ** The two blocks of the repair *)

Definition stripped (f : frame) : frame := Frame (map Text.strip (columns f)) (rows f).

Definition missing_from (expected_cols labels : list string) : list string :=
  List.filter (fun c => negb (Text.mem c labels)) expected_cols.

Definition projection (expected_cols : list string) (f : frame) : frame :=
  take_columns (flat_map (fun l => positions l (columns f)) expected_cols) f.

Definition with_heap (h : list frame) (w : world) : world := World h (db w) (calls w).

Lemma split_block_keeps (w : world) (df : ref) (f : frame) :
  heap w !! df = Some f ->
  (forall header, columns f = [header] -> has_delimiter header = false) ->
  split_block df w = (inr df, w).
Proof.
  intros H Hk. unfold split_block. rewrite bind_run, (get_columns_run _ _ _ H).
  destruct (columns f) as [|header [|c2 cs]] eqn:Hc; try reflexivity.
  rewrite (Hk header eq_refl). reflexivity.
Qed.

Lemma split_block_splits (w : world) (df : ref) (f : frame) (header : string) :
  heap w !! df = Some f ->
  columns f = [header] ->
  has_delimiter header = true ->
  split_block df w =
    match str_split_expand header (pick_sep header) (column 0 f) with
    | inr g =>
        let parts := map Text.strip (Text.split (pick_sep header) header) in
        if (length parts =? length (columns g))%nat
        then (inr (length (heap w)), with_heap (heap w ++ [Frame parts (rows g)]) w)
        else (inl (ValueError (LengthMismatch (length (columns g)) (length parts))),
              with_heap (heap w ++ [g]) w)
    | inl e => (inl e, w)
    end.
Proof.
  intros H Hc Hd. unfold split_block.
  rewrite bind_run, (get_columns_run _ _ _ H), Hc, Hd.
  rewrite bind_run, (deref_run _ _ _ H).
  destruct (str_split_expand _ _ _) as [e|g]; [reflexivity|].
  rewrite bind_run, alloc_run, bind_run.
  set (w1 := World (heap w ++ [g]) (db w) (calls w)).
  assert (Hg : heap w1 !! length (heap w) = Some g).
  { unfold w1; cbn. rewrite lookup_app_r by lia. by rewrite Nat.sub_diag. }
  cbn zeta.
  destruct (Nat.eqb_spec (length (map Text.strip (Text.split (pick_sep header) header)))
                         (length (columns g))) as [Heq|Hne].
  - rewrite (set_columns_run _ _ _ _ Hg Heq). unfold w1, with_heap; cbn.
    rewrite insert_app_r_alt by lia. rewrite Nat.sub_diag. reflexivity.
  - rewrite (set_columns_mismatch _ _ _ _ Hg Hne). reflexivity.
Qed.

Lemma select_present (expected_cols : list string) (f : frame) :
  missing_from expected_cols (columns f) = [] ->
  select expected_cols f = inr (projection expected_cols f).
Proof. unfold select, missing_from. intros ->. reflexivity. Qed.

Lemma validate_block_run (w : world) (df : ref) (f : frame)
    (expected_cols : list string) (new_names : option (list string)) :
  heap w !! df = Some f ->
  validate_block df expected_cols new_names w =
    let f' := stripped f in
    let h1 := <[df := f']> (heap w) in
    match missing_from expected_cols (columns f') with
    | (_ :: _) as missing =>
        (inl (ValueError (MissingColumns missing (columns f'))), with_heap h1 w)
    | [] =>
        let sel := projection expected_cols f' in
        if truthy new_names then
          let mapping := zip expected_cols (default [] new_names) in
          (inr (S (length (heap w))),
           with_heap (h1 ++ [sel; Frame (map (rename_label mapping) (columns sel)) (rows sel)]) w)
        else (inr (length (heap w)), with_heap (h1 ++ [sel]) w)
    end.
Proof.
  intros H. unfold validate_block.
  rewrite bind_run, (get_columns_run _ _ _ H), bind_run.
  rewrite (set_columns_run _ _ f) by (done || by rewrite length_map).
  set (w1 := World _ _ _).
  assert (H1 : heap w1 !! df = Some (stripped f)).
  { unfold w1; cbn. apply list_lookup_insert_eq. by eapply lookup_lt_Some. }
  rewrite bind_run, (get_columns_run _ _ _ H1). cbn zeta.
  fold (missing_from expected_cols (columns (stripped f))).
  destruct (missing_from _ _) as [|m ms] eqn:Hm; [|reflexivity].
  rewrite bind_run, (getitem_list_run _ _ _ _ _ H1 (select_present _ _ Hm)).
  unfold w1; cbn [heap db calls]. rewrite length_insert.
  destruct (truthy new_names); [|reflexivity].
  rewrite bind_run. erewrite deref_run.
  2:{ cbn. rewrite lookup_app_r by (rewrite length_insert; lia).
      rewrite length_insert, Nat.sub_diag. reflexivity. }
  rewrite alloc_run. cbn. rewrite length_app, length_insert. cbn.
  rewrite <- app_assoc. cbn. unfold with_heap. do 2 f_equal. lia.
Qed.

(** ** Facts about text and columns *)

Lemma rstrip_idem (s : string) : Text.rstrip (Text.rstrip s) = Text.rstrip s.
Proof.
  induction s as [|c s IH]; [reflexivity|].
  cbn [Text.rstrip]. cbn zeta.
  destruct (Text.is_space_char (String c (Text.rstrip s))) eqn:Hc; [reflexivity|].
  cbn [Text.rstrip]. cbn zeta. by rewrite IH, Hc.
Qed.

(** No whitespace character begins the text. *)
Definition starts_clean (s : string) : Prop :=
  match s with
  | EmptyString => True
  | String a s1 =>
      Text.is_space a = false
      /\ match s1 with
         | EmptyString => True
         | String b s2 =>
             Text.is_space2 a b = false
             /\ match s2 with
                | EmptyString => True
                | String c _ => Text.is_space3 a b c = false
                end
         end
  end.

Lemma lstrip_of_clean (s : string) : starts_clean s -> Text.lstrip s = s.
Proof.
  destruct s as [|a [|b [|c s]]]; cbn; try done.
  - by intros [-> _].
  - by intros (-> & -> & _).
  - by intros (-> & -> & ->).
Qed.

Lemma lstrip_clean (s : string) : starts_clean (Text.lstrip s).
Proof.
  assert (H : forall n s, (String.length s <= n)%nat -> starts_clean (Text.lstrip s)).
  { clear s. induction n as [|n IH]; intros s Hn.
    - destruct s; [exact I|cbn in Hn; lia].
    - destruct s as [|a s1]; [exact I|]. cbn [Text.lstrip]. cbn in Hn.
      destruct (Text.is_space a) eqn:H1; [apply IH; lia|].
      destruct s1 as [|b s2]; [by cbn|]. cbn in Hn.
      destruct (Text.is_space2 a b) eqn:H2; [apply IH; lia|].
      destruct s2 as [|c s3]; [by cbn|]. cbn in Hn.
      destruct (Text.is_space3 a b c) eqn:H3; [apply IH; lia|].
      by cbn. }
  by apply (H (String.length s)).
Qed.

(** What [rstrip] leaves begins as the text does. *)
Lemma rstrip_clean (s : string) : starts_clean s -> starts_clean (Text.rstrip s).
Proof.
  destruct s as [|a s1]; [exact id|].
  cbn [Text.rstrip]. cbn zeta.
  destruct (Text.is_space_char (String a (Text.rstrip s1))) eqn:E0; [by intros _|].
  destruct s1 as [|b s2]; [by cbn|].
  cbn [Text.rstrip] in *. cbn zeta in *.
  destruct (Text.is_space_char (String b (Text.rstrip s2))) eqn:E1; [by cbn; intros [? _]|].
  destruct s2 as [|c s3]; [by cbn|].
  cbn [Text.rstrip] in *. cbn zeta in *.
  destruct (Text.is_space_char (String c (Text.rstrip s3))) eqn:E2;
    [by cbn; intros (? & ? & _)|].
  cbn. tauto.
Qed.

Lemma strip_idem (s : string) : Text.strip (Text.strip s) = Text.strip s.
Proof.
  unfold Text.strip.
  rewrite (lstrip_of_clean (Text.rstrip (Text.lstrip s))).
  - apply rstrip_idem.
  - apply rstrip_clean, lstrip_clean.
Qed.

Lemma mem_spec (x : string) (xs : list string) : Text.mem x xs = true <-> x ∈ xs.
Proof.
  unfold Text.mem. rewrite existsb_exists. split.
  - intros (y & Hin & Heq). apply String.eqb_eq in Heq. subst. by apply list_elem_of_In.
  - intros Hin. exists x. split; [by apply list_elem_of_In|apply String.eqb_refl].
Qed.

Lemma missing_from_nil (expected_cols labels : list string) :
  missing_from expected_cols labels = [] <-> forall c, c ∈ expected_cols -> c ∈ labels.
Proof.
  unfold missing_from. induction expected_cols as [|c cs IH]; cbn.
  - split; [intros _ c Hc; inversion Hc|done].
  - destruct (Text.mem c labels) eqn:Hm; cbn.
    + rewrite IH. apply mem_spec in Hm. split.
      * intros Hall x Hx. apply elem_of_cons in Hx as [->|Hx]; auto.
      * intros Hall x Hx. apply Hall. by right.
    + split; [done|]. intros Hall.
      assert (Hc : c ∈ labels) by (apply Hall; by left).
      apply mem_spec in Hc. congruence.
Qed.

Lemma positions_from_absent (k : nat) (label : string) (labels : list string) :
  label ∉ labels -> positions_from k label labels = [].
Proof.
  revert k. induction labels as [|l ls IH]; intros k Hn; [reflexivity|].
  cbn. apply not_elem_of_cons in Hn as [Hne Hn].
  destruct (String.eqb_spec l label); [congruence|]. by apply IH.
Qed.



(** A table is well formed when every row has one cell per column. *)
Definition well_formed (f : frame) : Prop :=
  Forall (fun r => length r = length (columns f)) (rows f).



Lemma positions_from_unique (k : nat) (label : string) (labels : list string) :
  NoDup labels -> label ∈ labels ->
  exists i, labels !! i = Some label /\ positions_from k label labels = [(k + i)%nat].
Proof.
  revert k. induction labels as [|c cs IH]; intros k Hnd Hin; [inversion Hin|].
  apply NoDup_cons in Hnd as [Hc Hnd]. cbn.
  destruct (String.eqb_spec c label) as [->|Hne].
  - exists 0%nat. rewrite (positions_from_absent _ _ _ Hc), Nat.add_0_r. done.
  - apply elem_of_cons in Hin as [->|Hin]; [done|].
    destruct (IH (S k) Hnd Hin) as (i & Hi & Hp).
    exists (S i). split; [exact Hi|]. rewrite Hp. f_equal. lia.
Qed.

Lemma projection_columns (expected_cols : list string) (f : frame) :
  NoDup (columns f) ->
  (forall c, c ∈ expected_cols -> c ∈ columns f) ->
  columns (projection expected_cols f) = expected_cols.
Proof.
  intros Hnd. unfold projection, take_columns. cbn.
  induction expected_cols as [|c cs IH]; intros Hall; [reflexivity|].
  cbn. rewrite map_app, IH by (intros x Hx; apply Hall; by right).
  destruct (positions_from_unique 0 c (columns f) Hnd) as (i & Hi & Hp).
  { apply Hall. by left. }
  unfold positions. rewrite Hp. cbn. by rewrite Hi.
Qed.


Lemma has_delimiter_false (header : string) :
  Text.contains "," header = false ->
  Text.contains ";" header = false ->
  Text.contains "|" header = false ->
  has_delimiter header = false.
Proof. unfold has_delimiter. cbn. by intros -> -> ->. Qed.

(** ** CSV repair: the claims *)


(** C8. On a one-column table whose header holds no comma, semicolon or pipe
    the repair splits nothing: the first block hands the caller's table on
    as it is, untouched, and the call is the validation of that table.  When
    required columns are absent from its (stripped) label, the call raises the
    error that carries the absent names and the label found. *)
Theorem single_column_without_delimiter (w : world) (df : ref) (f : frame)
    (header : string) (expected_cols : list string) (new_names : option (list string)) :
  heap w !! df = Some f ->
  columns f = [header] ->
  Text.contains "," header = false ->
  Text.contains ";" header = false ->
  Text.contains "|" header = false ->
  split_block df w = (inr df, w)
  /\ _split_single_column_csv df expected_cols new_names w
     = validate_block df expected_cols new_names w
  /\ forall missing,
       missing = List.filter (fun c => negb (Text.mem c [Text.strip header])) expected_cols ->
       missing <> [] ->
       fst (_split_single_column_csv df expected_cols new_names w)
       = inl (ValueError (MissingColumns missing [Text.strip header])).
Proof.
  intros H Hc H1 H2 H3.
  assert (Hk : split_block df w = (inr df, w)).
  { apply (split_block_keeps _ _ _ H). intros h Hh. rewrite Hc in Hh.
    injection Hh as <-. by apply has_delimiter_false. }
  assert (Hrun : _split_single_column_csv df expected_cols new_names w
                 = validate_block df expected_cols new_names w).
  { unfold _split_single_column_csv. by rewrite bind_run, Hk. }
  split; [exact Hk|]. split; [exact Hrun|].
  intros missing -> Hne. rewrite Hrun, (validate_block_run _ _ _ _ _ H). cbn zeta.
  unfold missing_from, stripped. cbn [columns]. rewrite Hc. cbn [map].
  destruct (List.filter _ expected_cols); [done|reflexivity].
Qed.

Lemma single_column_without_delimiter_witness :
  let w := on_heap [Frame [" Name "] [[VStr "North Clinic"]]] in
  split_block 0%nat w = (inr 0%nat, w)
  /\ fst (_split_single_column_csv 0%nat ["Name"; "Region"] None w)
     = inl (ValueError (MissingColumns ["Region"] ["Name"])).
Proof.
  intros w.
  destruct (single_column_without_delimiter w 0%nat (Frame [" Name "] [[VStr "North Clinic"]])
              " Name " ["Name"; "Region"] None) as (Hk & _ & Hm);
    try reflexivity.
  split; [exact Hk|]. apply (Hm ["Region"]); [reflexivity|discriminate].
Defined.

(** C10. When no split is needed (the table has several columns or none,
    or one column whose header holds no delimiter) the repair strips the
    labels of the caller's own table object: after the call, whether it
    returned or raised, the object at the caller's address carries the
    stripped labels, and a table that is returned is another object. *)
Theorem repair_strips_in_place (w : world) (df : ref) (f : frame)
    (expected_cols : list string) (new_names : option (list string)) :
  heap w !! df = Some f ->
  (length (columns f) <> 1%nat
   \/ exists header, columns f = [header] /\ has_delimiter header = false) ->
  heap (snd (_split_single_column_csv df expected_cols new_names w)) !! df
  = Some (Frame (map Text.strip (columns f)) (rows f))
  /\ forall r, fst (_split_single_column_csv df expected_cols new_names w) = inr r -> r <> df.
Proof.
  intros H Hcase.
  assert (Hlt : (df < length (heap w))%nat) by by eapply lookup_lt_Some.
  assert (Hk : split_block df w = (inr df, w)).
  { apply (split_block_keeps _ _ _ H). intros h Hh.
    destruct Hcase as [Hn|(h' & Hh' & Hd)].
    - rewrite Hh in Hn. done.
    - rewrite Hh in Hh'. by injection Hh' as ->. }
  unfold _split_single_column_csv.
  rewrite bind_run, Hk, (validate_block_run _ _ _ _ _ H). cbn zeta.
  destruct (missing_from _ _); [destruct (truthy new_names)|]; cbn [fst snd with_heap heap].
  - split; [|intros r [= <-]; lia].
    rewrite lookup_app_l by (rewrite length_insert; lia). by apply list_lookup_insert_eq.
  - split; [|intros r [= <-]; lia].
    rewrite lookup_app_l by (rewrite length_insert; lia). by apply list_lookup_insert_eq.
  - split; [|discriminate]. by apply list_lookup_insert_eq.
Qed.

Lemma repair_strips_in_place_witness :
  let f := Frame [" Name"; "Region "] [[VStr "North Clinic"; VStr "Midwest"]] in
  heap (snd (_split_single_column_csv 0%nat ["Name"] None (on_heap [f]))) !! 0%nat
  = Some (Frame ["Name"; "Region"] [[VStr "North Clinic"; VStr "Midwest"]]).
Proof.
  intros f.
  apply (repair_strips_in_place (on_heap [f]) 0%nat f ["Name"] None); [reflexivity|].
  left. cbn. lia.
Defined.







(** ** Coercion as a function of the copied table *)

(** What one turn of the loop makes of the table [out]. *)
Definition coerce_turn (pd : pandas) (out : frame) (col target : string) : exn + frame :=
  if negb (Text.mem col (columns out)) then inr out
  else
    match positions col (columns out) with
    | [i] =>
        let s := column i out in
        if Text.startswith "datetime" target then inr (set_column i (map (to_datetime pd) s) out)
        else if String.eqb target "float" then inr (set_column i (Numeric.to_numeric s) out)
        else if String.eqb target "int" then
          match Numeric.astype_Int64 (Numeric.to_numeric s) with
          | Some ints => inr (set_column i ints out)
          | None => inl (TypeError col)
          end
        else inr (set_column i (map (to_stripped_str pd) s) out)
    | _ =>
        inl (if Text.startswith "datetime" target then ValueError (NotOneColumn col)
             else if String.eqb target "float" then TypeError col
             else if String.eqb target "int" then TypeError col
             else AttributeError col)
    end.

(** The loop: the outcome, and the table as the loop leaves it. *)
Fixpoint coerce_loop (pd : pandas) (mapping : list (string * string)) (out : frame)
  : (exn + unit) * frame :=
  match mapping with
  | [] => (inr tt, out)
  | (col, target) :: rest =>
      match coerce_turn pd out col target with
      | inr out' => coerce_loop pd rest out'
      | inl e => (inl e, out)
      end
  end.

Definition loop_body (pd : pandas) (out : ref) : string * string -> M unit :=
  fun '(col, target) =>
    cols ← get_columns out;
    if negb (Text.mem col cols) then mret tt
    else coerce_column pd out col target.

Lemma setitem_run (h : list frame) (d : database) (c : list call) (r : ref) (f : frame)
    (label : string) (series : list value) (i : nat) (rest : list nat) :
  h !! r = Some f ->
  positions label (columns f) = i :: rest ->
  setitem r label series (World h d c)
  = (inr tt, World (<[r := set_column i series f]> h) d c).
Proof.
  intros H Hp. unfold setitem. rewrite bind_run, (deref_run (World h d c) r f H), Hp.
  reflexivity.
Qed.

Lemma getitem_run (h : list frame) (d : database) (c : list call) (r : ref) (f : frame)
    (label : string) :
  h !! r = Some f ->
  getitem r label (World h d c)
  = (inr match positions label (columns f) with
         | [i] => Some (column i f)
         | _ => None
         end, World h d c).
Proof.
  intros H. unfold getitem. rewrite bind_run, (deref_run (World h d c) r f H).
  destruct (positions label (columns f)) as [|i [|j l]]; reflexivity.
Qed.

Lemma loop_body_run (pd : pandas) (h : list frame) (d : database) (c : list call)
    (r : ref) (out : frame) (col target : string) :
  h !! r = Some out ->
  loop_body pd r (col, target) (World h d c)
  = match coerce_turn pd out col target with
    | inr out' => (inr tt, World (<[r := out']> h) d c)
    | inl e => (inl e, World h d c)
    end.
Proof.
  intros H. unfold loop_body, coerce_turn.
  rewrite bind_run, (get_columns_run (World h d c) r out H).
  destruct (Text.mem col (columns out)); cbn [negb].
  2:{ rewrite list_insert_id by exact H. reflexivity. }
  unfold coerce_column. rewrite bind_run, (getitem_run _ _ _ _ _ _ H).
  destruct (positions col (columns out)) as [|i [|j l]] eqn:Hp.
  - repeat (destruct (_ : bool); try reflexivity).
  - destruct (Text.startswith "datetime" target);
      [by rewrite (setitem_run _ _ _ _ _ _ _ _ _ H Hp)|].
    destruct (String.eqb target "float");
      [by rewrite (setitem_run _ _ _ _ _ _ _ _ _ H Hp)|].
    destruct (String.eqb target "int").
    + cbn zeta. destruct (Numeric.astype_Int64 _); [|reflexivity].
      by rewrite (setitem_run _ _ _ _ _ _ _ _ _ H Hp).
    + by rewrite (setitem_run _ _ _ _ _ _ _ _ _ H Hp).
  - repeat (destruct (_ : bool); try reflexivity).
Qed.

Lemma for_each_coerce_run (pd : pandas) (mapping : list (string * string))
    (h : list frame) (d : database) (c : list call) (r : ref) (out : frame) :
  h !! r = Some out ->
  for_each mapping (loop_body pd r) (World h d c)
  = (fst (coerce_loop pd mapping out),
     World (<[r := snd (coerce_loop pd mapping out)]> h) d c).
Proof.
  revert h out. induction mapping as [|[col target] rest IH]; intros h out H.
  - cbn. by rewrite list_insert_id by exact H.
  - cbn [for_each coerce_loop]. rewrite bind_run, (loop_body_run _ _ _ _ _ _ _ _ H).
    destruct (coerce_turn pd out col target) as [e|out'].
    + cbn. by rewrite list_insert_id by exact H.
    + rewrite (IH (<[r := out']> h) out').
      * by rewrite list_insert_insert_eq.
      * apply list_lookup_insert_eq. by eapply lookup_lt_Some.
Qed.

Lemma coerce_types_run (pd : pandas) (mapping : list (string * string))
    (w : world) (df : ref) (f : frame) :
  heap w !! df = Some f ->
  _coerce_types pd df mapping w
  = (match fst (coerce_loop pd mapping f) with
     | inr _ => inr (length (heap w))
     | inl e => inl e
     end,
     with_heap (heap w ++ [snd (coerce_loop pd mapping f)]) w).
Proof.
  intros H. destruct w as [h d c]. cbn [heap] in H. unfold _coerce_types, copy.
  rewrite !bind_run, (deref_run (World h d c) df f H), alloc_run. cbn [heap db calls].
  change (for_each mapping _) with (for_each mapping (loop_body pd (length h))).
  rewrite bind_run.
  rewrite (for_each_coerce_run pd mapping (h ++ [f]) d c (length h) f).
  2:{ rewrite lookup_app_r by lia. by rewrite Nat.sub_diag. }
  rewrite insert_app_r_alt by lia. rewrite Nat.sub_diag. cbn [insert list_insert].
  unfold with_heap. cbn. destruct (fst (coerce_loop pd mapping f)); reflexivity.
Qed.

Lemma column_length (i : nat) (f : frame) : length (column i f) = length (rows f).
Proof. unfold column. apply length_map. Qed.

Lemma set_column_rows_length (i : nat) (s : list value) (f : frame) :
  length s = length (rows f) -> length (rows (set_column i s f)) = length (rows f).
Proof. intros Hs. cbn. rewrite length_zip_with. lia. Qed.

Lemma cell_set_other (i j : nat) (r : row) (v : value) :
  i <> j -> cell (set_cell i r v) j = cell r j.
Proof. intros Hij. unfold cell, set_cell. by rewrite list_lookup_insert_ne. Qed.

Lemma set_column_other (i j : nat) (s : list value) (f : frame) :
  length s = length (rows f) -> i <> j -> column j (set_column i s f) = column j f.
Proof.
  intros Hs Hij. unfold column, set_column. cbn [rows].
  revert s Hs. induction (rows f) as [|r rs IH]; intros [|v s] Hs; try discriminate; [done|].
  cbn [zip_with map]. f_equal; [by apply cell_set_other|apply IH; by injection Hs].
Qed.

Lemma positions_from_lookup (k i : nat) (label : string) (labels : list string) :
  i ∈ positions_from k label labels ->
  (k <= i)%nat /\ labels !! (i - k)%nat = Some label.
Proof.
  revert k. induction labels as [|l ls IH]; intros k Hi; [inversion Hi|].
  cbn in Hi. destruct (String.eqb_spec l label) as [->|Hne].
  - apply elem_of_cons in Hi as [->|Hi].
    + rewrite Nat.sub_diag. done.
    + destruct (IH _ Hi) as [Hle Hl]. split; [lia|].
      replace (i - k)%nat with (S (i - S k)) by lia. exact Hl.
  - destruct (IH _ Hi) as [Hle Hl]. split; [lia|].
    replace (i - k)%nat with (S (i - S k)) by lia. exact Hl.
Qed.

Lemma astype_Int64_length (s ints : list value) :
  Numeric.astype_Int64 s = Some ints -> length ints = length s.
Proof. intros H. symmetry. by eapply length_mapM. Qed.

Lemma to_numeric_length (s : list value) : length (Numeric.to_numeric s) = length s.
Proof.
  unfold Numeric.to_numeric, Numeric.convert_object.
  repeat match goal with |- context [if ?b then _ else _] => destruct b end;
    by rewrite !length_map.
Qed.

Lemma coerce_turn_shape (pd : pandas) (out out' : frame) (col target : string) :
  coerce_turn pd out col target = inr out' ->
  columns out' = columns out
  /\ length (rows out') = length (rows out)
  /\ forall j label, columns out !! j = Some label -> label <> col ->
       column j out' = column j out.
Proof.
  unfold coerce_turn. destruct (Text.mem col (columns out)); cbn [negb].
  2:{ intros [= <-]. done. }
  destruct (positions col (columns out)) as [|i [|i2 l]] eqn:Hp; try discriminate.
  assert (Hi : columns out !! i = Some col).
  { destruct (positions_from_lookup 0 i col (columns out)) as [_ Hl].
    - unfold positions in Hp. rewrite Hp. by left.
    - by rewrite Nat.sub_0_r in Hl. }
  assert (Hgen : forall s, length s = length (rows out) ->
            columns (set_column i s out) = columns out
            /\ length (rows (set_column i s out)) = length (rows out)
            /\ forall j label, columns out !! j = Some label -> label <> col ->
                 column j (set_column i s out) = column j out).
  { intros s Hs. split; [reflexivity|]. split; [by apply set_column_rows_length|].
    intros j label Hj Hne. apply set_column_other; [exact Hs|]. intros <-. congruence. }
  cbn zeta.
  destruct (Text.startswith "datetime" target).
  { intros [= <-]. apply Hgen. by rewrite length_map, column_length. }
  destruct (String.eqb target "float").
  { intros [= <-]. apply Hgen. by rewrite to_numeric_length, column_length. }
  destruct (String.eqb target "int").
  { destruct (Numeric.astype_Int64 _) as [ints|] eqn:Hc; [|discriminate].
    intros [= <-]. apply Hgen.
    by rewrite (astype_Int64_length _ _ Hc), to_numeric_length, column_length. }
  intros [= <-]. apply Hgen. by rewrite length_map, column_length.
Qed.

Lemma coerce_loop_shape (pd : pandas) (mapping : list (string * string)) (out : frame) :
  columns (snd (coerce_loop pd mapping out)) = columns out
  /\ length (rows (snd (coerce_loop pd mapping out))) = length (rows out)
  /\ forall j label, columns out !! j = Some label -> label ∉ map fst mapping ->
       column j (snd (coerce_loop pd mapping out)) = column j out.
Proof.
  revert out. induction mapping as [|[col target] rest IH]; intros out; [done|].
  cbn [coerce_loop]. destruct (coerce_turn pd out col target) as [e|out'] eqn:Ht; [done|].
  destruct (coerce_turn_shape _ _ _ _ _ Ht) as (Hc & Hr & Ho).
  destruct (IH out') as (Hc' & Hr' & Ho').
  split; [congruence|]. split; [congruence|].
  intros j label Hj Hn. cbn in Hn. apply not_elem_of_cons in Hn as [Hne Hn].
  rewrite (Ho' j label) by (by rewrite ?Hc). by apply (Ho j label).
Qed.

Definition present (labels : list string) (entry : string * string) : bool :=
  Text.mem (fst entry) labels.

Lemma coerce_loop_skips_absent (pd : pandas) (mapping : list (string * string)) (out : frame) :
  coerce_loop pd mapping out
  = coerce_loop pd (List.filter (present (columns out)) mapping) out.
Proof.
  revert out. induction mapping as [|[col target] rest IH]; intros out; [done|].
  cbn [List.filter]. unfold present at 1. cbn [fst].
  destruct (Text.mem col (columns out)) eqn:Hm.
  - cbn [coerce_loop]. destruct (coerce_turn pd out col target) as [e|out'] eqn:Ht; [done|].
    destruct (coerce_turn_shape _ _ _ _ _ Ht) as (Hc & _). rewrite <- Hc. apply IH.
  - cbn [coerce_loop]. unfold coerce_turn. rewrite Hm. cbn [negb]. apply IH.
Qed.

Lemma coerce_turn_returns (pd : pandas) (out : frame) (col target : string) :
  NoDup (columns out) -> target <> "int" ->
  exists out', coerce_turn pd out col target = inr out'.
Proof.
  intros Hnd Hint. unfold coerce_turn.
  destruct (Text.mem col (columns out)) eqn:Hm; cbn [negb]; [|by eexists].
  apply mem_spec in Hm.
  destruct (positions_from_unique 0 col (columns out) Hnd Hm) as (i & _ & Hp).
  unfold positions. rewrite Hp. cbn zeta.
  destruct (Text.startswith "datetime" target); [by eexists|].
  destruct (String.eqb target "float"); [by eexists|].
  destruct (String.eqb_spec target "int"); [done|by eexists].
Qed.

Lemma coerce_loop_returns (pd : pandas) (mapping : list (string * string)) (out : frame) :
  NoDup (columns out) ->
  (forall col target, (col, target) ∈ mapping -> target <> "int") ->
  fst (coerce_loop pd mapping out) = inr tt.
Proof.
  revert out. induction mapping as [|[col target] rest IH]; intros out Hnd Hint; [done|].
  cbn [coerce_loop].
  destruct (coerce_turn_returns pd out col target Hnd) as [out' Ht].
  { apply (Hint col). by left. }
  rewrite Ht. destruct (coerce_turn_shape _ _ _ _ _ Ht) as (Hc & _).
  apply IH; [by rewrite Hc|]. intros c t Hin. apply (Hint c). by right.
Qed.

(** ** Coercion: the claims *)

(** Text that is neither a literal nor a spelling of infinity becomes the
    missing integer under the target ["int"]. *)
Lemma non_numeric_becomes_NA (s : string) :
  Numeric.to_double (Numeric.c_string s) = None ->
  Numeric.infinity (Numeric.c_string s) = None ->
  Numeric.astype_Int64 (Numeric.to_numeric [VStr s]) = Some [VNA].
Proof.
  intros H1 H2. unfold Numeric.astype_Int64, Numeric.to_numeric, Numeric.convert_object.
  cbn [existsb Numeric.is_object orb map Numeric.read_cell]. unfold Numeric.read_text.
  rewrite H1, H2. reflexivity.
Qed.

(** The targets other than ["int"] never raise on a table of distinct labels. *)
Lemma coercion_returns_without_int (pd : pandas) (w : world) (df : ref) (f : frame)
    (mapping : list (string * string)) :
  heap w !! df = Some f ->
  NoDup (columns f) ->
  (forall col target, (col, target) ∈ mapping -> target <> "int") ->
  fst (_coerce_types pd df mapping w) = inr (length (heap w)).
Proof.
  intros H Hnd Hint. rewrite (coerce_types_run pd mapping w df f H). cbn [fst].
  by rewrite (coerce_loop_returns pd mapping f Hnd Hint).
Qed.

(** C3. The claim holds for ["3.0"] and for text that is no number, but the
    coercion is not total: under the target ["int"] the text ["3.5"] is read
    as the float 3.5, which the cast to Int64 refuses, and the call raises
    instead of storing a null. *)
Theorem coerce_int_raises_on_fraction (pd : pandas) :
  fst (_coerce_types pd 0%nat [("n", "int")] (on_heap [Frame ["n"] [[VStr "3.5"]]]))
  = inl (TypeError "n")
  /\ snd (_coerce_types pd 0%nat [("n", "int")]
            (on_heap [Frame ["n"] [[VStr "3.0"]; [VStr "abc"]]]))
     = on_heap [Frame ["n"] [[VStr "3.0"]; [VStr "abc"]];
                Frame ["n"] [[VInt 3]; [VNA]]].
Proof. split; reflexivity. Qed.

(** C6. Coercion works on a copy.  Whatever the mapping, and whether the
    call returns or raises, the heap afterwards is the heap before plus one
    new table: the input table and every other object are as they were.  A
    table that is returned is that new object; it has the labels and the
    number of rows of the input, and every column whose label is not a key
    of the mapping holds the cells it has in the input.  Entries of the
    mapping whose column the table lacks change nothing: the call behaves as
    with those entries removed.  The call returns whenever the labels are
    distinct and no target is ["int"]. *)
Theorem coercion_works_on_a_copy (pd : pandas) (w : world) (df : ref) (f : frame)
    (mapping : list (string * string)) :
  heap w !! df = Some f ->
  exists out : frame,
    snd (_coerce_types pd df mapping w) = with_heap (heap w ++ [out]) w
    /\ heap (snd (_coerce_types pd df mapping w)) !! df = Some f
    /\ (forall r, fst (_coerce_types pd df mapping w) = inr r ->
          r = length (heap w) /\ r <> df
          /\ heap (snd (_coerce_types pd df mapping w)) !! r = Some out)
    /\ columns out = columns f
    /\ length (rows out) = length (rows f)
    /\ (forall j label, columns f !! j = Some label -> label ∉ map fst mapping ->
          column j out = column j f)
    /\ _coerce_types pd df mapping w
       = _coerce_types pd df
           (List.filter (fun entry => Text.mem (fst entry) (columns f)) mapping) w
    /\ (NoDup (columns f) ->
        (forall col target, (col, target) ∈ mapping -> target <> "int") ->
        fst (_coerce_types pd df mapping w) = inr (length (heap w))).
Proof.
  intros H. exists (snd (coerce_loop pd mapping f)).
  assert (Hlt : (df < length (heap w))%nat) by by eapply lookup_lt_Some.
  destruct (coerce_loop_shape pd mapping f) as (Hc & Hr & Ho).
  rewrite (coerce_types_run pd mapping w df f H). cbn [fst snd].
  split; [reflexivity|]. split; [by apply lookup_app_l_Some|].
  split.
  { intros r Hr'. destruct (fst (coerce_loop pd mapping f)); [discriminate|].
    injection Hr' as <-. split; [reflexivity|]. split; [lia|].
    cbn. rewrite lookup_app_r by lia. by rewrite Nat.sub_diag. }
  split; [exact Hc|]. split; [exact Hr|]. split; [exact Ho|]. split.
  - rewrite (coerce_types_run pd _ w df f H).
    change (fun entry : string * string => Text.mem (fst entry) (columns f))
      with (present (columns f)).
    by rewrite <- (coerce_loop_skips_absent pd mapping f).
  - intros Hnd Hint. by rewrite (coerce_loop_returns pd mapping f Hnd Hint).
Qed.

Lemma coercion_works_on_a_copy_witness :
  let f := Frame ["AmountBilled"; "Status"] [[VStr "12.50"; VStr " paid "]] in
  exists out : frame,
    snd (_coerce_types pandas_sample 0%nat [("AmountBilled", "float"); ("DatePaid", "datetime64[ns]")]
           (on_heap [f]))
    = on_heap [f; out]
    /\ column 1 out = [VStr " paid "].
Proof.
  intros f.
  destruct (coercion_works_on_a_copy pandas_sample (on_heap [f]) 0%nat f
              [("AmountBilled", "float"); ("DatePaid", "datetime64[ns]")] eq_refl)
    as (out & Hs & _ & _ & _ & _ & Ho & _).
  exists out. split; [exact Hs|].
  apply (Ho 1%nat "Status"); [reflexivity|]. cbn.
  rewrite !not_elem_of_cons. repeat split; try discriminate. apply not_elem_of_nil.
Defined.

(** ** The staging load: the claims *)

(** An environment for examples: the three blobs hold one row each and no
    call fails. *)
Definition providers_blob : frame :=
  Frame [" Name"; "Region"; "Specialty "]
        [[VStr "North Clinic"; VStr "Midwest"; VStr "Primary Care"]].

Definition patients_blob : frame :=
  Frame ["FirstName;LastName;BirthDate;Gender"] [[VStr "Ada;Diaz;1980-02-03;F"]].

Definition claims_blob : frame := Frame claim_cols [map VStr claim_cols].

Definition blobs_sample (container blob_name : string) : option frame :=
  if String.eqb blob_name "providers.csv" then Some providers_blob
  else if String.eqb blob_name "patients.csv" then Some patients_blob
  else if String.eqb blob_name "claims.csv" then Some claims_blob
  else None.

Definition run_defaults_sample : run_row :=
  RunRow 0 (Some 0) None (Some "RUNNING") None None None None None None None.

Definition env_sample (fails : call -> bool) : environment :=
  Environment blobs_sample fails "landing" run_defaults_sample (fun _ _ _ ft => ft).

Definition nothing_fails (c : call) : bool := false.

(** C5, as stated, fails: a table with rows but no column is [empty] for
    pandas, and the load refuses it although it has two rows. *)
Lemma load_refuses_table_with_rows :
  let f := Frame [] [[]; []] in
  length (rows f) = 2%nat
  /\ load_staging (env_sample nothing_fails) "StgProvider" (Some 0%nat) (on_heap [f])
     = (inl (ValueError (EmptyLoad "StgProvider")), on_heap [f]).
Proof. split; reflexivity. Qed.

(** C5, amended.  The load raises the empty-load error exactly when no table
    is given or the table has no row or no column, and then it issues no
    call and changes nothing.  For any other table it issues one [to_sql]
    call that carries all the rows; when the engine accepts it the rows are
    appended to the named staging relation, and when the engine refuses it
    the engine's error is raised and nothing is appended. *)
Theorem load_staging_outcome (env : environment) (table_name : string) (w : world)
    (r : ref) (f : frame) :
  heap w !! r = Some f ->
  load_staging env table_name None w = (inl (ValueError (EmptyLoad table_name)), w)
  /\ (fst (load_staging env table_name (Some r) w) = inl (ValueError (EmptyLoad table_name))
      <-> rows f = [] \/ columns f = [])
  /\ (rows f = [] \/ columns f = [] ->
      load_staging env table_name (Some r) w = (inl (ValueError (EmptyLoad table_name)), w))
  /\ (rows f <> [] -> columns f <> [] ->
      let insert := ToSql table_name (rows f) in
      load_staging env table_name (Some r) w
      = if fails env insert
        then (inl (ExternalError insert), World (heap w) (db w) (calls w ++ [insert]))
        else (inr tt,
              World (heap w)
                    (set_staging (<[table_name := relation_of table_name (db w) ++ rows f]>
                                    (staging (db w))) (db w))
                    (calls w ++ [insert]))).
Proof.
  intros H.
  assert (Hrun : load_staging env table_name (Some r) w
                 = if empty f then (inl (ValueError (EmptyLoad table_name)), w)
                   else if fails env (ToSql table_name (rows f))
                   then (inl (ExternalError (ToSql table_name (rows f))),
                         World (heap w) (db w) (calls w ++ [ToSql table_name (rows f)]))
                   else (inr tt,
                         World (heap w)
                           (set_staging (<[table_name := relation_of table_name (db w) ++ rows f]>
                                           (staging (db w))) (db w))
                           (calls w ++ [ToSql table_name (rows f)]))).
  { unfold load_staging. rewrite bind_run, (deref_run _ _ _ H).
    destruct (empty f); [reflexivity|]. unfold external. rewrite bind_run. cbn.
    destruct (fails env _); reflexivity. }
  assert (Hempty : if empty f then rows f = [] \/ columns f = []
                   else rows f <> [] /\ columns f <> []).
  { unfold empty. destruct (rows f), (columns f); cbn; auto. }
  split; [reflexivity|]. rewrite Hrun.
  destruct (empty f); [|destruct Hempty as [Hr Hc]].
  - split; [done|]. split; [done|]. intros Hr Hc. by destruct Hempty.
  - split; [|split].
    + split; [destruct (fails env _); discriminate|]. intros [?|?]; done.
    + intros [?|?]; done.
    + reflexivity.
Qed.

Lemma load_staging_outcome_witness :
  let f := Frame ["Name"] [[VStr "North Clinic"]; [VStr "Sunrise Hospital"]] in
  load_staging (env_sample nothing_fails) "StgProvider" (Some 0%nat) (on_heap [f])
  = (inr tt,
     World [f]
           (set_staging (<["StgProvider" := [[VStr "North Clinic"]; [VStr "Sunrise Hospital"]]]> ∅)
                        empty_db)
           [ToSql "StgProvider" [[VStr "North Clinic"]; [VStr "Sunrise Hospital"]]]).
Proof.
  intros f.
  destruct (load_staging_outcome (env_sample nothing_fails) "StgProvider" (on_heap [f])
              0%nat f eq_refl) as (_ & _ & _ & Hload).
  apply Hload; discriminate.
Defined.

(** ** What a run shows: the calls that matter and the ledger *)

(** The calls on which the claims about a run bear: the creation of the run
    row, the merge procedures, the update of the counts, the finalization,
    the closing message.  Reading blobs, truncating, loading and counting
    are the other ones. *)
Definition is_key (c : call) : bool :=
  match c with
  | InsertRun | Exec _ _ | UpdateRun _ _ | FinishRun _ _ | Print _ => true
  | _ => false
  end.

Definition key_calls (w : world) : list call := List.filter is_key (calls w).

Definition ledger (d : database) : list run_row * Z * Z :=
  (ETL_Run d, next_RunID d, utc_now d).

Definition obs (w : world) : list call * (list run_row * Z * Z) :=
  (key_calls w, ledger (db w)).

(** A step is steady when it issues none of those calls and leaves the
    ledger alone. *)
Definition steady {A} (m : M A) : Prop := forall w, obs (snd (m w)) = obs w.

Lemma steady_ret {A} (a : A) : steady (mret a : M A).
Proof. intros w. reflexivity. Qed.

Lemma steady_raise {A} (e : exn) : steady (raise e : M A).
Proof. intros w. reflexivity. Qed.

Lemma steady_bind {A B} (m : M A) (f : A -> M B) :
  steady m -> (forall a, steady (f a)) -> steady (m ≫= f).
Proof.
  intros Hm Hf w. rewrite bind_run. specialize (Hm w).
  destruct (m w) as [[e|a] w']; cbn in *; [exact Hm|].
  by rewrite (Hf a w').
Qed.

Lemma steady_get_heap : steady get_heap.
Proof. intros w. reflexivity. Qed.

Lemma steady_put_heap (h : list frame) : steady (put_heap h).
Proof. intros w. reflexivity. Qed.

Lemma steady_get_db : steady get_db.
Proof. intros w. reflexivity. Qed.

Lemma steady_for_each {A} (xs : list A) (body : A -> M unit) :
  (forall x, steady (body x)) -> steady (for_each xs body).
Proof.
  intros Hb. induction xs as [|x xs IH]; cbn [for_each].
  - apply steady_ret.
  - apply steady_bind; [apply Hb|intros _; exact IH].
Qed.

Create HintDb steady.
#[local] Hint Resolve steady_ret steady_raise steady_get_heap steady_put_heap
  steady_get_db : steady.

(** Breaks a program into its steps and closes each with the hints. *)
Ltac steady_steps :=
  repeat first
    [ solve [auto with steady]
    | apply steady_bind; [|intros]
    | apply steady_for_each; intros
    | match goal with
      | |- steady (match ?x with _ => _ end) => destruct x
      | |- steady (if ?b then _ else _) => destruct b
      end ].

Lemma steady_alloc (f : frame) : steady (alloc f).
Proof. unfold alloc. steady_steps. Qed.

Lemma steady_deref (r : ref) : steady (deref r).
Proof. unfold deref. steady_steps. Qed.

Lemma steady_assign (r : ref) (f : frame) : steady (assign r f).
Proof. unfold assign. steady_steps. Qed.

#[local] Hint Resolve steady_alloc steady_deref steady_assign : steady.

Lemma steady_get_columns (df : ref) : steady (get_columns df).
Proof. unfold get_columns. steady_steps. Qed.

Lemma steady_set_columns (df : ref) (labels : list string) : steady (set_columns df labels).
Proof. unfold set_columns. steady_steps. Qed.

Lemma steady_getitem_list (df : ref) (labels : list string) : steady (getitem_list df labels).
Proof. unfold getitem_list. steady_steps. Qed.

Lemma steady_getitem (df : ref) (label : string) : steady (getitem df label).
Proof. unfold getitem. steady_steps. Qed.

Lemma steady_setitem (df : ref) (label : string) (s : list value) : steady (setitem df label s).
Proof. unfold setitem. steady_steps. Qed.

Lemma steady_copy (df : ref) : steady (copy df).
Proof. unfold copy. steady_steps. Qed.

#[local] Hint Resolve steady_get_columns steady_set_columns steady_getitem_list
  steady_getitem steady_setitem steady_copy : steady.

Lemma steady_repair (df : ref) (expected_cols : list string) (new_names : option (list string)) :
  steady (_split_single_column_csv df expected_cols new_names).
Proof.
  unfold _split_single_column_csv, split_block, validate_block. steady_steps.
Qed.

Lemma steady_coerce_types (pd : pandas) (df : ref) (mapping : list (string * string)) :
  steady (_coerce_types pd df mapping).
Proof.
  unfold _coerce_types, coerce_column. steady_steps.
Qed.

#[local] Hint Resolve steady_repair steady_coerce_types : steady.

Lemma key_calls_snoc (h : list frame) (d : database) (cs : list call) (c : call) :
  key_calls (World h d (cs ++ [c]))
  = key_calls (World h d cs) ++ (if is_key c then [c] else []).
Proof. unfold key_calls. cbn. rewrite List.filter_app. cbn. by destruct (is_key c). Qed.

Lemma steady_emit (c : call) : is_key c = false -> steady (emit c).
Proof.
  intros Hc [h d cs]. unfold obs. cbn [snd emit heap db calls].
  by rewrite key_calls_snoc, Hc, app_nil_r.
Qed.

Section Run.

Context (pd : pandas) (env : environment).

Lemma external_run (c : call) (effect : database -> database) (w : world) :
  external env c effect w
  = if fails env c
    then (inl (ExternalError c), World (heap w) (db w) (calls w ++ [c]))
    else (inr tt, World (heap w) (effect (db w)) (calls w ++ [c])).
Proof.
  unfold external. rewrite bind_run. cbn [emit].
  destruct (fails env c); reflexivity.
Qed.

Lemma steady_external (c : call) (effect : database -> database) :
  is_key c = false ->
  (forall d, ledger (effect d) = ledger d) ->
  steady (external env c effect).
Proof.
  intros Hc He [h d cs]. rewrite external_run.
  destruct (fails env c); unfold obs; cbn [snd heap db calls].
  - by rewrite key_calls_snoc, Hc, app_nil_r.
  - by rewrite key_calls_snoc, Hc, app_nil_r, He.
Qed.

Lemma steady_transaction {A} (body : M A) : steady body -> steady (transaction body).
Proof.
  intros Hb w. unfold transaction. specialize (Hb w).
  destruct (body w) as [[e|a] w']; [|exact Hb].
  unfold obs in *. cbn in *. injection Hb as Hk Hl.
  f_equal. exact Hk.
Qed.

Lemma steady_read_csv_from_blob (container blob_name : string) :
  steady (read_csv_from_blob env container blob_name).
Proof.
  unfold read_csv_from_blob. apply steady_bind; [by apply steady_emit|intros _].
  steady_steps.
Qed.

Lemma steady_truncate_staging : steady (truncate_staging env).
Proof.
  unfold truncate_staging.
  apply steady_bind; [by apply steady_external|intros _].
  apply steady_bind; [by apply steady_external|intros _].
  by apply steady_external.
Qed.

Lemma steady_load_staging (table_name : string) (df : option ref) :
  steady (load_staging env table_name df).
Proof.
  unfold load_staging. destruct df; [|apply steady_raise].
  apply steady_bind; [apply steady_deref|intros f].
  destruct (empty f); [apply steady_raise|]. by apply steady_external.
Qed.

Lemma steady_select_count (relation : string) (run : option Z) :
  steady (select_count env relation run).
Proof.
  unfold select_count. apply steady_bind; [by apply steady_external|intros _].
  steady_steps.
Qed.

Lemma steady_strip_columns (df : ref) : steady (strip_columns df).
Proof. unfold strip_columns. steady_steps. Qed.

Lemma steady_repair_if_single (df : ref) (expected : list string) :
  steady (repair_if_single df expected).
Proof. unfold repair_if_single. steady_steps. Qed.

#[local] Hint Resolve steady_read_csv_from_blob steady_truncate_staging
  steady_load_staging steady_select_count steady_strip_columns
  steady_repair_if_single steady_transaction : steady.

(** *** Stepping through a program *)

(** After a steady step the program goes on, or has raised, in a world that
    shows what the world before showed. *)
Lemma steady_step {A B} (m : M A) (f : A -> M B) (Q : (exn + B) * world -> Prop)
    (w : world) (o : list call * (list run_row * Z * Z)) :
  steady m ->
  obs w = o ->
  (forall e w', obs w' = o -> Q (inl e, w')) ->
  (forall a w', obs w' = o -> Q (f a w')) ->
  Q ((m ≫= f) w).
Proof.
  intros Hm Ho Hraise Hgo. rewrite bind_run. specialize (Hm w). rewrite Ho in Hm.
  destruct (m w) as [[e|a] w']; cbn in Hm; auto.
Qed.

(** A call made inside its own transaction. *)
Lemma call_run (c : call) (effect : database -> database) (w : world) :
  transaction (external env c effect) w
  = if fails env c
    then (inl (ExternalError c), World (heap w) (db w) (calls w ++ [c]))
    else (inr tt, World (heap w) (effect (db w)) (calls w ++ [c])).
Proof.
  unfold transaction. rewrite external_run.
  destruct (fails env c); reflexivity.
Qed.

Lemma call_step {B} (c : call) (effect : database -> database) (f : unit -> M B)
    (Q : (exn + B) * world -> Prop) (w : world) :
  (fails env c = true ->
   Q (inl (ExternalError c), World (heap w) (db w) (calls w ++ [c]))) ->
  (fails env c = false ->
   Q (f tt (World (heap w) (effect (db w)) (calls w ++ [c])))) ->
  Q ((transaction (external env c effect) ≫= f) w).
Proof.
  intros Hraise Hgo. rewrite bind_run, call_run.
  destruct (fails env c); auto.
Qed.

Lemma obs_after_key_call (w : world) (c : call) (d' : database)
    (k : list call) (l l' : list run_row * Z * Z) :
  is_key c = true ->
  obs w = (k, l) ->
  ledger d' = l' ->
  obs (World (heap w) d' (calls w ++ [c])) = (k ++ [c], l').
Proof.
  intros Hc Ho Hl. destruct w as [h d cs]. unfold obs, key_calls in *.
  cbn [heap db calls] in *. injection Ho as Hk _.
  rewrite List.filter_app. cbn [List.filter]. by rewrite Hc, Hk, Hl.
Qed.

Lemma obs_ledger (w : world) (k : list call) (l : list run_row * Z * Z) :
  obs w = (k, l) -> ledger (db w) = l.
Proof. unfold obs. by intros [= _ Hl]. Qed.

Lemma ledger_set_final (ft : final_tables) (d : database) :
  ledger (set_final ft d) = ledger d.
Proof. reflexivity. Qed.

Lemma ledger_update_where (rid : Z) (set : run_row -> run_row) (d : database)
    (runs : list run_row) (next now : Z) :
  ledger d = (runs, next, now) ->
  ledger (update_where rid set d)
  = (map (fun r => if (RunID r =? rid)%Z then set r else r) runs, next, now).
Proof. unfold ledger. cbn. by intros [= -> -> ->]. Qed.

Lemma ledger_finish (rid : Z) (status : string) (d : database)
    (runs : list run_row) (next now : Z) :
  ledger d = (runs, next, now) ->
  ledger (update_where rid (with_end (utc_now d) status) d)
  = (map (fun r => if (RunID r =? rid)%Z then with_end now status r else r) runs, next, now).
Proof. unfold ledger. cbn. by intros [= -> -> ->]. Qed.

(** A key call made inside its own transaction: it shows in the key calls
    whether it raises or not, and only its effect can change the ledger. *)
Lemma key_call_step {B} (c : call) (effect : database -> database) (f : unit -> M B)
    (Q : (exn + B) * world -> Prop) (w : world)
    (k : list call) (l l' : list run_row * Z * Z) :
  is_key c = true ->
  obs w = (k, l) ->
  (forall d, ledger d = l -> ledger (effect d) = l') ->
  (fails env c = true -> forall w', obs w' = (k ++ [c], l) -> Q (inl (ExternalError c), w')) ->
  (fails env c = false -> forall w', obs w' = (k ++ [c], l') -> Q (f tt w')) ->
  Q ((transaction (external env c effect) ≫= f) w).
Proof.
  intros Hc Ho He Hraise Hgo. apply call_step; intros Hf.
  - apply (Hraise Hf). eapply obs_after_key_call; [exact Hc|exact Ho|by eapply obs_ledger].
  - apply (Hgo Hf). eapply obs_after_key_call; [exact Hc|exact Ho|].
    apply He. by eapply obs_ledger.
Qed.

(** *** The paths through the body of [main] *)

Definition merge_provider : call := Exec "dbo.sp_upsert_provider" None.
Definition merge_patient : call := Exec "dbo.sp_upsert_patient" None.
Definition merge_claim (rid : Z) : call := Exec "dbo.sp_upsert_claim" (Some rid).
Definition finish_success (rid : Z) : call := FinishRun rid "SUCCESS".
Definition finish_failed (rid : Z) : call := FinishRun rid "FAILED".

(** The seven numbers written by [update_run_counts]. *)
Record tally := Tally { t_sp : Z; t_st : Z; t_sc : Z; t_fp : Z; t_ft : Z; t_fc : Z; t_rj : Z }.

Definition count_update (rid : Z) (t : tally) : call :=
  UpdateRun rid [t_sp t; t_st t; t_sc t; t_fp t; t_ft t; t_fc t; t_rj t].

Definition counted (rid : Z) (t : tally) (runs : list run_row) : list run_row :=
  map (fun r => if (RunID r =? rid)%Z
                then with_counts (t_sp t) (t_st t) (t_sc t) (t_fp t) (t_ft t) (t_fc t) (t_rj t) r
                else r) runs.

Definition finished (rid now : Z) (status : string) (runs : list run_row) : list run_row :=
  map (fun r => if (RunID r =? rid)%Z then with_end now status r else r) runs.

Definition merges_pass (rid : Z) : Prop :=
  fails env merge_provider = false
  /\ fails env merge_patient = false
  /\ fails env (merge_claim rid) = false.

(** Where the body of the [try] can raise: the key calls issued in the
    body up to that point, the rows of the ledger at that point, and the
    exception. *)
Inductive failure (rid : Z) (runs : list run_row) (now : Z)
  : list call -> list run_row -> exn -> Prop :=
  | fail_prepare e :
      failure rid runs now [] runs e
  | fail_provider :
      fails env merge_provider = true ->
      failure rid runs now [merge_provider] runs (ExternalError merge_provider)
  | fail_patient :
      fails env merge_provider = false ->
      fails env merge_patient = true ->
      failure rid runs now [merge_provider; merge_patient] runs (ExternalError merge_patient)
  | fail_claim :
      fails env merge_provider = false ->
      fails env merge_patient = false ->
      fails env (merge_claim rid) = true ->
      failure rid runs now [merge_provider; merge_patient; merge_claim rid] runs
              (ExternalError (merge_claim rid))
  | fail_counting e :
      merges_pass rid ->
      failure rid runs now [merge_provider; merge_patient; merge_claim rid] runs e
  | fail_update t :
      merges_pass rid ->
      fails env (count_update rid t) = true ->
      failure rid runs now
              [merge_provider; merge_patient; merge_claim rid; count_update rid t] runs
              (ExternalError (count_update rid t))
  | fail_finish t :
      merges_pass rid ->
      fails env (count_update rid t) = false ->
      fails env (finish_success rid) = true ->
      failure rid runs now
              [merge_provider; merge_patient; merge_claim rid; count_update rid t;
               finish_success rid]
              (counted rid t runs) (ExternalError (finish_success rid))
  | fail_print t :
      merges_pass rid ->
      fails env (count_update rid t) = false ->
      fails env (finish_success rid) = false ->
      fails env (Print rid) = true ->
      failure rid runs now
              [merge_provider; merge_patient; merge_claim rid; count_update rid t;
               finish_success rid; Print rid]
              (finished rid now "SUCCESS" (counted rid t runs)) (ExternalError (Print rid)).

(** The key calls of a body that runs to its end. *)
Definition full_body (rid : Z) (t : tally) : list call :=
  [merge_provider; merge_patient; merge_claim rid; count_update rid t;
   finish_success rid; Print rid].

Definition all_pass (rid : Z) (t : tally) : Prop :=
  merges_pass rid
  /\ fails env (count_update rid t) = false
  /\ fails env (finish_success rid) = false
  /\ fails env (Print rid) = false.

(** How the body of the [try] can end, from a world that shows the key
    calls [k] and the ledger [(runs, next, now)]. *)
Inductive body_path (rid : Z) (k : list call) (runs : list run_row) (next now : Z)
  : (exn + unit) * world -> Prop :=
  | body_raises T runs' e w :
      failure rid runs now T runs' e ->
      obs w = (k ++ T, (runs', next, now)) ->
      body_path rid k runs next now (inl e, w)
  | body_returns t w :
      all_pass rid t ->
      obs w = (k ++ full_body rid t, (finished rid now "SUCCESS" (counted rid t runs), next, now)) ->
      body_path rid k runs next now (inr tt, w).

(** One steady step of the preparation: a failure ends the body on
    [path_prepare], otherwise the body goes on in a world that shows the same. *)
Ltac prepare_step Ho :=
  eapply steady_step;
  [ first [ solve [auto with steady]
          | apply steady_transaction; steady_steps; solve [auto with steady] ]
  | exact Ho
  | let e := fresh "e" in let w' := fresh "w" in let Ho' := fresh "Ho" in
    intros e w' Ho'; eapply body_raises;
    [apply fail_prepare|by rewrite app_nil_r]
  | ];
  clear Ho;
  let a := fresh "a" in let w' := fresh "w" in
  intros a w' Ho.

Lemma main_body_paths (rid : Z) (w : world) (k : list call) (runs : list run_row)
    (next now : Z) :
  obs w = (k, (runs, next, now)) ->
  body_path rid k runs next now (main_body pd env rid w).
Proof.
  intros Ho. unfold main_body.
  do 20 prepare_step Ho.
  (* the three merges *)
  unfold exec_proc.
  eapply key_call_step; [reflexivity|exact Ho|intros d Hd; exact Hd| |];
    intros F1 w20 Ho1; [by eapply body_raises; [by constructor|]|]. clear Ho.
  eapply key_call_step; [reflexivity|exact Ho1|intros d Hd; exact Hd| |];
    intros F2 w21 Ho2;
    [rewrite <- app_assoc in Ho2; by eapply body_raises; [by constructor|]|]. clear Ho1.
  eapply key_call_step; [reflexivity|exact Ho2|intros d Hd; exact Hd| |];
    intros F3 w22 Ho3;
    [rewrite <- !app_assoc in Ho3; by eapply body_raises; [by constructor|]|]. clear Ho2.
  rewrite <- !app_assoc in Ho3. cbn [app] in Ho3.
  assert (Hm : merges_pass rid) by done.
  (* the final counts *)
  eapply steady_step;
    [apply steady_transaction; steady_steps; solve [auto with steady]
    |exact Ho3
    |intros e w23 Ho4; by eapply body_raises; [by apply fail_counting|]
    |intros [final_counts reject_total] w23 Ho4]. clear Ho3.
  (* counts, finalization, message *)
  set (t := Tally (dict_get a18 "provider") (dict_get a18 "patient") (dict_get a18 "claim")
                  (dict_get final_counts "provider") (dict_get final_counts "patient")
                  (dict_get final_counts "claim") reject_total).
  unfold update_run_counts, finish_run. cbn zeta.
  eapply (key_call_step (count_update rid t));
    [reflexivity|exact Ho4|intros d Hd; by apply ledger_update_where| |];
    intros F4 w24 Ho5;
    [rewrite <- !app_assoc in Ho5; by eapply body_raises; [by apply (fail_update _ _ _ t)|]|].
  clear Ho4.
  eapply (key_call_step (finish_success rid));
    [reflexivity|exact Ho5|intros d Hd; by apply ledger_finish| |];
    intros F5 w25 Ho6;
    [rewrite <- !app_assoc in Ho6; by eapply body_raises; [by apply (fail_finish _ _ _ t)|]|].
  clear Ho5.
  rewrite external_run.
  pose proof (obs_after_key_call w25 (Print rid) (db w25) _ _ _ eq_refl Ho6
                (obs_ledger _ _ _ Ho6)) as Ho7.
  rewrite <- !app_assoc in Ho7. cbn [app] in Ho7.
  destruct (fails env (Print rid)) eqn:F6.
  - by eapply body_raises; [by apply (fail_print _ _ _ t)|].
  - by apply (body_returns _ _ _ _ _ t).
Qed.

(** *** The handler of [main] *)

(** What [main] makes of the outcome of the body: a normal end stays, an
    exception goes through [finish_run(run_id, "FAILED")] and is raised
    again. *)
Definition settle (rid : Z) (o : (exn + unit) * world) : (exn + unit) * world :=
  match o with
  | (inr a, w) => (inr a, w)
  | (inl e, w) => (_ ← finish_run env rid "FAILED"; raise e) w
  end.

Lemma settle_raised (rid : Z) (e : exn) (w : world) :
  settle rid (inl e, w)
  = if fails env (finish_failed rid)
    then (inl (ExternalError (finish_failed rid)),
          World (heap w) (db w) (calls w ++ [finish_failed rid]))
    else (inl e,
          World (heap w) (update_where rid (with_end (utc_now (db w)) "FAILED") (db w))
                (calls w ++ [finish_failed rid])).
Proof.
  unfold settle, finish_run. rewrite bind_run, call_run.
  destruct (fails env _); reflexivity.
Qed.

Definition started (w : world) : world :=
  World (heap w) (insert_run (run_defaults env) (db w)) (calls w ++ [InsertRun]).

Lemma main_run (w : world) :
  main pd env w
  = if fails env InsertRun
    then (inl (ExternalError InsertRun), World (heap w) (db w) (calls w ++ [InsertRun]))
    else settle (next_RunID (db w)) (main_body pd env (next_RunID (db w)) (started w)).
Proof.
  unfold main, start_run. rewrite bind_run.
  unfold transaction at 1. rewrite bind_run. cbn [get_db]. rewrite bind_run, external_run.
  destruct (fails env InsertRun); [reflexivity|].
  unfold mret, M_ret. cbn beta iota.
  unfold try_except, settle, started.
  destruct (main_body pd env _ _) as [[e|a] w']; reflexivity.
Qed.

(** *** The paths through [main] *)

(** How a run that starts with no call issued can end: the outcome, with
    the key calls and the ledger at the end. *)
Inductive run_path (h : list frame) (d : database) : (exn + unit) * world -> Prop :=
  | run_unstarted :
      fails env InsertRun = true ->
      run_path h d (inl (ExternalError InsertRun), World h d [InsertRun])
  | run_returns t w :
      fails env InsertRun = false ->
      all_pass (next_RunID d) t ->
      obs w = (InsertRun :: full_body (next_RunID d) t,
               (finished (next_RunID d) (utc_now d) "SUCCESS"
                  (counted (next_RunID d) t
                     (ETL_Run d ++ [with_RunID (next_RunID d) (run_defaults env)])),
                next_RunID d + 1, utc_now d)) ->
      run_path h d (inr tt, w)
  | run_raises T runs' e w :
      fails env InsertRun = false ->
      failure (next_RunID d) (ETL_Run d ++ [with_RunID (next_RunID d) (run_defaults env)])
              (utc_now d) T runs' e ->
      fst (main_body pd env (next_RunID d) (started (World h d []))) = inl e ->
      fails env (finish_failed (next_RunID d)) = false ->
      obs w = (InsertRun :: T ++ [finish_failed (next_RunID d)],
               (finished (next_RunID d) (utc_now d) "FAILED" runs',
                next_RunID d + 1, utc_now d)) ->
      last (calls w) = Some (finish_failed (next_RunID d)) ->
      run_path h d (inl e, w)
  | run_raises_unsettled T runs' e w :
      fails env InsertRun = false ->
      failure (next_RunID d) (ETL_Run d ++ [with_RunID (next_RunID d) (run_defaults env)])
              (utc_now d) T runs' e ->
      fst (main_body pd env (next_RunID d) (started (World h d []))) = inl e ->
      fails env (finish_failed (next_RunID d)) = true ->
      obs w = (InsertRun :: T ++ [finish_failed (next_RunID d)],
               (runs', next_RunID d + 1, utc_now d)) ->
      last (calls w) = Some (finish_failed (next_RunID d)) ->
      run_path h d (inl (ExternalError (finish_failed (next_RunID d))), w).

Lemma main_paths (h : list frame) (d : database) :
  run_path h d (main pd env (World h d [])).
Proof.
  rewrite main_run. cbn [heap db calls app].
  destruct (fails env InsertRun) eqn:F0; [by apply run_unstarted|].
  pose proof (main_body_paths (next_RunID d) (started (World h d [])) [InsertRun]
                (ETL_Run d ++ [with_RunID (next_RunID d) (run_defaults env)])
                (next_RunID d + 1) (utc_now d) eq_refl) as Hp.
  destruct (main_body pd env (next_RunID d) (started (World h d []))) as [res w'] eqn:Hb.
  inversion Hp as [T runs' e w1 Hf Ho Heq|t w1 Hall Ho Heq]; subst.
  - rewrite settle_raised.
    destruct (fails env (finish_failed (next_RunID d))) eqn:FF.
    + apply (run_raises_unsettled h d T runs' e); [exact F0|exact Hf|by rewrite Hb|exact FF| |].
      * pose proof (obs_after_key_call w' (finish_failed (next_RunID d)) (db w') _ _ _
                      eq_refl Ho (obs_ledger _ _ _ Ho)) as Ho'.
        by rewrite <- app_assoc in Ho'.
      * apply last_snoc.
    + apply (run_raises h d T runs' e); [exact F0|exact Hf|by rewrite Hb|exact FF| |].
      * pose proof (obs_after_key_call w' (finish_failed (next_RunID d)) _ _ _ _
                      eq_refl Ho
                      (ledger_finish (next_RunID d) "FAILED" _ _ _ _ (obs_ledger _ _ _ Ho)))
          as Ho'.
        by rewrite <- app_assoc in Ho'.
      * apply last_snoc.
  - cbn [settle]. by eapply run_returns.
Qed.

End Run.

(** ** Reading a run off its calls *)


Definition is_finish (c : call) : bool :=
  match c with FinishRun _ _ => true | _ => false end.


(** The invocations of [finish_run]. *)
Definition finishes_of (w : world) : list call := List.filter is_finish (calls w).


(** The row that the run started from database [d0] inserted is, in [d],
    closed with the given status and an end timestamp, and so is every row
    that carries the identifier of the run. *)
Definition finalized (rid : Z) (status : string) (d0 d : database) : Prop :=
  (exists r, ETL_Run d !! length (ETL_Run d0) = Some r
             /\ RunID r = rid /\ Status r = Some status /\ EndedAt r = Some (utc_now d0))
  /\ forall r, r ∈ ETL_Run d -> RunID r = rid ->
       Status r = Some status /\ EndedAt r = Some (utc_now d0).

Lemma filter_key_calls (p : call -> bool) (w : world) :
  (forall c, p c = true -> is_key c = true) ->
  List.filter p (calls w) = List.filter p (key_calls w).
Proof.
  intros Hp. unfold key_calls. induction (calls w) as [|c cs IH]; [reflexivity|].
  cbn. destruct (is_key c) eqn:Hk; cbn; destruct (p c) eqn:Hc; try (by rewrite IH).
  apply Hp in Hc. congruence.
Qed.


Lemma obs_finishes (w : world) (k : list call) (l : list run_row * Z * Z) :
  obs w = (k, l) -> finishes_of w = List.filter is_finish k.
Proof.
  intros [= <- _]. apply filter_key_calls. by intros [].
Qed.


Lemma obs_runs (w : world) (k : list call) (runs : list run_row) (next now : Z) :
  obs w = (k, (runs, next, now)) -> ETL_Run (db w) = runs.
Proof. by intros [= _ -> _ _]. Qed.

(** The row of the run, at its place in the ledger. *)
Definition has_run (rid : Z) (n : nat) (runs : list run_row) : Prop :=
  exists r, runs !! n = Some r /\ RunID r = rid.

Lemma has_run_started (rid : Z) (defaults : run_row) (runs : list run_row) :
  has_run rid (length runs) (runs ++ [with_RunID rid defaults]).
Proof.
  exists (with_RunID rid defaults). split; [|reflexivity].
  rewrite lookup_app_r by lia. by rewrite Nat.sub_diag.
Qed.

Lemma has_run_counted (rid : Z) (n : nat) (t : tally) (runs : list run_row) :
  has_run rid n runs -> has_run rid n (counted rid t runs).
Proof.
  intros (r & Hr & Hid). unfold counted, has_run. rewrite list_lookup_fmap, Hr. cbn.
  eexists. split; [reflexivity|]. by destruct (RunID r =? rid)%Z.
Qed.

Lemma has_run_finished (rid now : Z) (n : nat) (status : string) (runs : list run_row) :
  has_run rid n runs -> has_run rid n (finished rid now status runs).
Proof.
  intros (r & Hr & Hid). unfold finished, has_run. rewrite list_lookup_fmap, Hr. cbn.
  eexists. split; [reflexivity|]. by destruct (RunID r =? rid)%Z.
Qed.

Lemma failure_has_run (env : environment) (rid now : Z) (n : nat) (runs runs' : list run_row)
    (T : list call) (e : exn) :
  failure env rid runs now T runs' e -> has_run rid n runs -> has_run rid n runs'.
Proof.
  intros Hf Hr. destruct Hf; auto using has_run_counted, has_run_finished.
Qed.

Lemma finished_finalized (rid : Z) (status : string) (d0 d : database) (runs : list run_row) :
  has_run rid (length (ETL_Run d0)) runs ->
  ETL_Run d = finished rid (utc_now d0) status runs ->
  finalized rid status d0 d.
Proof.
  intros (r & Hr & Hid) Hd. unfold finalized. rewrite Hd. split.
  - exists (with_end (utc_now d0) status r). unfold finished.
    rewrite list_lookup_fmap, Hr. cbn. rewrite <- Hid, Z.eqb_refl. done.
  - intros r' Hin Hid'. unfold finished in Hin. apply list_elem_of_fmap in Hin as (r0 & -> & _).
    destruct (RunID r0 =? rid)%Z eqn:He; [done|].
    apply Z.eqb_neq in He. done.
Qed.

(** ** The run: the claims *)



(** An environment in which the patient merge raises. *)
Definition patient_merge_fails (c : call) : bool :=
  match c with
  | Exec name None => String.eqb name "dbo.sp_upsert_patient"
  | _ => false
  end.


(** The status of the row of the run stays the default of the column or
    is one of the two that [main] writes. *)
Definition status_written (defaults r : run_row) : Prop :=
  Status r = Status defaults \/ Status r = Some "SUCCESS" \/ Status r = Some "FAILED".

Definition row_status_written (defaults : run_row) (n : nat) (runs : list run_row) : Prop :=
  forall r, runs !! n = Some r -> status_written defaults r.

Lemma written_started (rid : Z) (defaults : run_row) (runs : list run_row) :
  row_status_written defaults (length runs) (runs ++ [with_RunID rid defaults]).
Proof.
  intros r. rewrite lookup_app_r by lia. rewrite Nat.sub_diag. intros [= <-]. by left.
Qed.

Lemma written_counted (rid : Z) (defaults : run_row) (n : nat) (t : tally)
    (runs : list run_row) :
  row_status_written defaults n runs -> row_status_written defaults n (counted rid t runs).
Proof.
  intros Hw r. unfold counted. rewrite list_lookup_fmap.
  destruct (runs !! n) as [r0|] eqn:Hr; [|discriminate]. cbn. intros [= <-].
  specialize (Hw r0 Hr). by destruct (RunID r0 =? rid)%Z.
Qed.

Lemma written_finished (rid now : Z) (defaults : run_row) (n : nat) (status : string)
    (runs : list run_row) :
  status = "SUCCESS" \/ status = "FAILED" ->
  row_status_written defaults n runs ->
  row_status_written defaults n (finished rid now status runs).
Proof.
  intros Hs Hw r. unfold finished. rewrite list_lookup_fmap.
  destruct (runs !! n) as [r0|] eqn:Hr; [|discriminate]. cbn. intros [= <-].
  specialize (Hw r0 Hr). destruct (RunID r0 =? rid)%Z; [|exact Hw].
  unfold status_written. cbn. destruct Hs as [->| ->]; auto.
Qed.

Lemma failure_written (env : environment) (rid now : Z) (n : nat) (runs runs' : list run_row)
    (T : list call) (e : exn) :
  failure env rid runs now T runs' e ->
  row_status_written (run_defaults env) n runs ->
  row_status_written (run_defaults env) n runs'.
Proof.
  intros Hf Hw. destruct Hf; auto using written_counted, written_finished.
Qed.

Lemma elem_of_filter_calls (p : call -> bool) (c : call) (cs : list call) :
  p c = true -> c ∈ cs -> c ∈ List.filter p cs.
Proof.
  intros Hp Hc. apply list_elem_of_In, filter_In. split; [by apply list_elem_of_In|exact Hp].
Qed.

(** The finalizations of a run, for each way through [main]. *)
Lemma failure_finishes (env : environment) (rid now : Z) (runs runs' : list run_row)
    (T : list call) (e : exn) :
  failure env rid runs now T runs' e ->
  List.filter is_finish T = []
  \/ (List.filter is_finish T = [finish_success rid]
      /\ (fails env (finish_success rid) = true \/ fails env (Print rid) = true)).
Proof. intros Hf. destruct Hf; cbn; auto. Qed.

(** C9. In every run, each invocation of [finish_run] is for the run that
    [main] started and carries the status SUCCESS or FAILED, so PARTIAL is
    never passed; and the status of the row that the run inserted is, at the
    end, the default of the column, SUCCESS or FAILED. *)
Theorem status_is_success_or_failed (pd : pandas) (env : environment) (h : list frame)
    (d : database) :
  let run := main pd env (World h d []) in
  (forall rid status, FinishRun rid status ∈ calls (snd run) ->
     rid = next_RunID d /\ (status = "SUCCESS" \/ status = "FAILED"))
  /\ (forall rid, FinishRun rid "PARTIAL" ∉ calls (snd run))
  /\ (forall r, ETL_Run (db (snd run)) !! length (ETL_Run d) = Some r ->
        Status r = Status (run_defaults env)
        \/ Status r = Some "SUCCESS" \/ Status r = Some "FAILED").
Proof.
  intros run.
  assert (Hcalls : forall rid status, FinishRun rid status ∈ calls (snd run) ->
            rid = next_RunID d /\ (status = "SUCCESS" \/ status = "FAILED")).
  { intros rid status Hin.
    apply (elem_of_filter_calls is_finish) in Hin; [|reflexivity].
    fold (finishes_of (snd run)) in Hin.
    pose proof (main_paths pd env h d) as Hp. fold run in Hp.
    destruct run as [res w]. cbn [fst snd] in *.
    inversion Hp as [F0 Hres|t w1 F0 Hall Ho|T runs' e w1 F0 Hf Hb FF Ho Hl
                    |T runs' e w1 F0 Hf Hb FF Ho Hl]; subst.
    - inversion Hin as [|? ? ? Hn]; inversion Hn.
    - rewrite (obs_finishes _ _ _ Ho) in Hin. cbn in Hin. set_unfold in Hin.
      unfold finish_success in Hin. destruct Hin as [[= -> ->]|[]]. auto.
    - rewrite (obs_finishes _ _ _ Ho) in Hin. cbn [List.filter is_finish] in Hin.
      rewrite List.filter_app in Hin. cbn in Hin.
      destruct (failure_finishes _ _ _ _ _ _ _ Hf) as [Hn|[Hn _]]; rewrite Hn in Hin;
        set_unfold in Hin; unfold finish_success, finish_failed in Hin;
        destruct_or?; simplify_eq; auto.
    - rewrite (obs_finishes _ _ _ Ho) in Hin. cbn [List.filter is_finish] in Hin.
      rewrite List.filter_app in Hin. cbn in Hin.
      destruct (failure_finishes _ _ _ _ _ _ _ Hf) as [Hn|[Hn _]]; rewrite Hn in Hin;
        set_unfold in Hin; unfold finish_success, finish_failed in Hin;
        destruct_or?; simplify_eq; auto. }
  split; [exact Hcalls|]. split.
  { intros rid Hin. destruct (Hcalls rid "PARTIAL" Hin) as [_ [?|?]]; discriminate. }
  pose proof (main_paths pd env h d) as Hp. fold run in Hp.
  destruct run as [res w]. cbn [fst snd] in *.
  pose proof (written_started (next_RunID d) (run_defaults env) (ETL_Run d)) as Hw0.
  inversion Hp as [F0 Hres|t w1 F0 Hall Ho|T runs' e w1 F0 Hf Hb FF Ho Hl
                  |T runs' e w1 F0 Hf Hb FF Ho Hl]; subst.
  - intros r Hr. cbn in Hr. apply lookup_lt_Some in Hr. lia.
  - rewrite (obs_runs _ _ _ _ _ Ho).
    apply written_finished; [by left|]. by apply written_counted.
  - rewrite (obs_runs _ _ _ _ _ Ho).
    apply written_finished; [by right|]. by eapply failure_written.
  - rewrite (obs_runs _ _ _ _ _ Ho). by eapply failure_written.
Qed.

(** An environment in which the update that closes the run with SUCCESS
    raises. *)
Definition success_update_fails (c : call) : bool :=
  match c with
  | FinishRun _ status => String.eqb status "SUCCESS"
  | _ => false
  end.

(** C2, as stated, fails: when the error is raised by
    [finish_run(run_id, "SUCCESS")] itself, [finish_run] is invoked a
    second time by the handler, so twice in that run. *)
Lemma finish_is_invoked_twice :
  let run := main pandas_sample (env_sample success_update_fails) (on_heap []) in
  fst run = inl (ExternalError (FinishRun 1 "SUCCESS"))
  /\ finishes_of (snd run) = [FinishRun 1 "SUCCESS"; FinishRun 1 "FAILED"].
Proof. split; vm_compute; reflexivity. Qed.

(** C2, amended.  Take a run whose row was created.  When [main] returns,
    [finish_run] was invoked once, with SUCCESS, and the row of the run is
    closed with SUCCESS.  When [main] raises, its last call is
    [finish_run(run_id, "FAILED")]; that is the only invocation of
    [finish_run] when the error arose before the SUCCESS finalization was
    attempted, and the second one, after the SUCCESS one, when the SUCCESS
    finalization or the closing message raised.  When the FAILED update goes
    through, the row of the run is closed with FAILED and an end timestamp,
    and the exception [main] raises is the one the body raised. *)
Theorem failed_run_is_finalized (pd : pandas) (env : environment) (h : list frame)
    (d : database) :
  let rid := next_RunID d in
  let run := main pd env (World h d []) in
  fails env InsertRun = false ->
  (forall a, fst run = inr a ->
     finishes_of (snd run) = [finish_success rid]
     /\ finalized rid "SUCCESS" d (db (snd run)))
  /\ (forall e, fst run = inl e ->
        last (calls (snd run)) = Some (finish_failed rid)
        /\ (finish_success rid ∉ calls (snd run) ->
            finishes_of (snd run) = [finish_failed rid])
        /\ (finish_success rid ∈ calls (snd run) ->
            finishes_of (snd run) = [finish_success rid; finish_failed rid]
            /\ (fails env (finish_success rid) = true \/ fails env (Print rid) = true))
        /\ (fails env (finish_failed rid) = false ->
            finalized rid "FAILED" d (db (snd run))
            /\ fst run = fst (main_body pd env rid (started env (World h d []))))).
Proof.
  intros rid run F0. subst rid.
  pose proof (main_paths pd env h d) as Hp. fold run in Hp.
  destruct run as [res w]. cbn [fst snd].
  assert (Hmem : forall c, is_finish c = true ->
            (c ∈ calls w <-> c ∈ finishes_of w)).
  { intros c Hc. unfold finishes_of. rewrite !list_elem_of_In, filter_In. tauto. }
  inversion Hp as [F0' Hres|t w1 _ Hall Ho|T runs' e w1 _ Hf Hb FF Ho Hl
                  |T runs' e w1 _ Hf Hb FF Ho Hl]; subst.
  - congruence.
  - split; [|discriminate]. intros _ _. split; [by rewrite (obs_finishes _ _ _ Ho)|].
    apply (finished_finalized _ _ _ _
             (counted (next_RunID d) t
                (ETL_Run d ++ [with_RunID (next_RunID d) (run_defaults env)])));
      [|by eapply obs_runs].
    apply has_run_counted, has_run_started.
  - split; [discriminate|]. intros e' [= <-]. split; [exact Hl|].
    rewrite !Hmem by reflexivity. rewrite (obs_finishes _ _ _ Ho).
    cbn [List.filter is_finish]. rewrite List.filter_app. cbn [List.filter is_finish finish_failed].
    split; [|split].
    + destruct (failure_finishes _ _ _ _ _ _ _ Hf) as [Hn|[Hn _]]; rewrite Hn; [done|].
      intros Hnot. exfalso. apply Hnot. apply list_elem_of_In. cbn. auto.
    + destruct (failure_finishes _ _ _ _ _ _ _ Hf) as [Hn|[Hn Hwhy]]; rewrite Hn; [|done].
      intros Hin. set_unfold in Hin. destruct Hin as [Hin|[]]. discriminate.
    + intros _. split; [|by rewrite Hb].
      apply (finished_finalized _ _ _ _ runs'); [|by eapply obs_runs].
      eapply failure_has_run; [exact Hf|apply has_run_started].
  - split; [discriminate|]. intros e' [= <-]. split; [exact Hl|].
    rewrite !Hmem by reflexivity. rewrite (obs_finishes _ _ _ Ho).
    cbn [List.filter is_finish]. rewrite List.filter_app. cbn [List.filter is_finish finish_failed].
    split; [|split].
    + destruct (failure_finishes _ _ _ _ _ _ _ Hf) as [Hn|[Hn _]]; rewrite Hn; [done|].
      intros Hnot. exfalso. apply Hnot. apply list_elem_of_In. cbn. auto.
    + destruct (failure_finishes _ _ _ _ _ _ _ Hf) as [Hn|[Hn Hwhy]]; rewrite Hn; [|done].
      intros Hin. set_unfold in Hin. destruct Hin as [Hin|[]]. discriminate.
    + congruence.
Qed.

Lemma failed_run_is_finalized_witness :
  let run := main pandas_sample (env_sample patient_merge_fails) (on_heap []) in
  last (calls (snd run)) = Some (finish_failed 1)
  /\ finishes_of (snd run) = [finish_failed 1]
  /\ finalized 1 "FAILED" empty_db (db (snd run)).
Proof.
  intros run.
  assert (Hres : fst run = inl (ExternalError merge_patient)) by (vm_compute; reflexivity).
  destruct (failed_run_is_finalized pandas_sample (env_sample patient_merge_fails) []
              empty_db eq_refl) as [_ Hraise].
  destruct (Hraise (ExternalError merge_patient) Hres) as (Hlast & Honce & _ & Hfin).
  split; [exact Hlast|]. split.
  - apply Honce. rewrite list_elem_of_In. vm_compute.
    intros Hin. repeat (destruct Hin as [Hin|Hin]; [discriminate Hin|]). exact Hin.
  - apply Hfin. reflexivity.
Defined.

(** * Further code: the connection string ([etl_utils.py]) *)

Module Url.

(** [RuntimeError] of [_pick_sql_driver], with the drivers that were found. *)
Inductive runtime_error := NoDriver (installed : list string).

Definition driver_18 : string := "ODBC Driver 18 for SQL Server".
Definition driver_17 : string := "ODBC Driver 17 for SQL Server".

(** The loop over the two targets, in their order; [drivers] is what
    [pyodbc.drivers()] lists. *)
Fixpoint first_installed (targets drivers : list string) : option string :=
  match targets with
  | [] => None
  | target :: rest =>
      if Text.mem target drivers then Some target else first_installed rest drivers
  end.

Definition _pick_sql_driver (drivers : list string) : runtime_error + string :=
  match first_installed [driver_18; driver_17] drivers with
  | Some target => inr target
  | None => inl (NoDriver drivers)
  end.

(** The bytes [urllib.parse.quote] never escapes: letters, digits and
    [_.-~]. *)
Definition always_safe (c : ascii) : bool :=
  let n := nat_of_ascii c in
  ((65 <=? n) && (n <=? 90) || (97 <=? n) && (n <=? 122) || (48 <=? n) && (n <=? 57)
   || (n =? 95) || (n =? 46) || (n =? 45) || (n =? 126))%nat.

(** One digit of ['%{:02X}'] *)
Definition hex_digit (n : nat) : ascii :=
  if (n <? 10)%nat then ascii_of_nat (48 + n) else ascii_of_nat (55 + n).

(** What [quote_plus] makes of one byte of the UTF-8 text: itself when
    safe, [+] for the blank, [%XX] otherwise. *)
Definition quote_byte (c : ascii) : string :=
  if always_safe c then String c EmptyString
  else if Ascii.eqb c " " then "+"
  else String "%" (String (hex_digit (nat_of_ascii c / 16))
                     (String (hex_digit (nat_of_ascii c mod 16)) EmptyString)).

(** The quoting of the bytes of a text, byte by byte. *)
Fixpoint quote_bytes (s : string) : string :=
  match s with
  | EmptyString => EmptyString
  | String c s' => (quote_byte c ++ quote_bytes s')%string
  end.

(** The text holds a lone surrogate, which [str.encode("utf-8")] refuses: in
    the bytes, [ED] followed by a byte from [A0] to [BF].  The values of
    [os.environ] hold one for every byte of the environment that is not
    UTF-8. *)
Fixpoint has_surrogate (s : string) : bool :=
  match s with
  | EmptyString => false
  | String a s' =>
      match s' with
      | String b _ =>
          ((nat_of_ascii a =? 237) && (160 <=? nat_of_ascii b) && (nat_of_ascii b <=? 191))%nat
      | EmptyString => false
      end
      || has_surrogate s'
  end.

(** [urllib.parse.quote_plus(s)]: the text is encoded as UTF-8, which
    raises [UnicodeEncodeError] ([None]) on a lone surrogate, and its bytes
    are quoted. *)
Definition quote_plus (s : string) : option string :=
  if has_surrogate s then None else Some (quote_bytes s).

(** What [build_sqlalchemy_url] raises. *)
Inductive url_error :=
  | RuntimeError (e : runtime_error)    (* of [_pick_sql_driver] *)
  | UnicodeEncodeError.                 (* of [quote_plus] *)

(** The ODBC parameters of [build_sqlalchemy_url]. *)
Definition odbc_params (driver server database username password : string) : string :=
  ("DRIVER=" ++ driver ++ ";"
   ++ "SERVER=" ++ server ++ ",1433;"
   ++ "DATABASE=" ++ database ++ ";"
   ++ "UID=" ++ username ++ ";PWD=" ++ password ++ ";"
   ++ "Encrypt=yes;TrustServerCertificate=no;")%string.

Definition url_prefix : string := "mssql+pyodbc:///?odbc_connect=".

Definition build_sqlalchemy_url (drivers : list string)
    (server database username password : string) : url_error + string :=
  match _pick_sql_driver drivers with
  | inr driver =>
      match quote_plus (odbc_params driver server database username password) with
      | Some quoted => inr (url_prefix ++ quoted)%string
      | None => inl UnicodeEncodeError
      end
  | inl e => inl (RuntimeError e)
  end.

End Url.

(** ** The connection string: properties *)

Module UrlFacts.
Import Url.


Definition hex_value (c : ascii) : option nat :=
  let n := nat_of_ascii c in
  if ((48 <=? n) && (n <=? 57))%nat then Some (n - 48)%nat
  else if ((65 <=? n) && (n <=? 70))%nat then Some (n - 55)%nat
  else None.

(** Reading the quoted text back; it serves to show that nothing is lost. *)
Fixpoint unquote_plus (s : string) : string :=
  match s with
  | EmptyString => EmptyString
  | String c r =>
      if Ascii.eqb c "%" then
        match r with
        | String h (String l r') =>
            match hex_value h, hex_value l with
            | Some a, Some b => String (ascii_of_nat (16 * a + b)) (unquote_plus r')
            | _, _ => String c (unquote_plus r)
            end
        | _ => String c (unquote_plus r)
        end
      else if Ascii.eqb c "+" then String " " (unquote_plus r)
      else String c (unquote_plus r)
  end.

Lemma unquote_quote_byte (c : ascii) (r : string) :
  unquote_plus (quote_byte c ++ r) = String c (unquote_plus r).
Proof. destruct c as [[] [] [] [] [] [] [] []]; reflexivity. Qed.

Lemma unquote_quote (s : string) : unquote_plus (quote_bytes s) = s.
Proof.
  induction s as [|c s IH]; [reflexivity|].
  cbn [quote_bytes]. by rewrite unquote_quote_byte, IH.
Qed.




Lemma append_cancel (p x y : string) : (p ++ x = p ++ y)%string -> x = y.
Proof. induction p as [|c p IH]; cbn; [done|]. intros [= H]. by apply IH. Qed.




End UrlFacts.

Section UrlProperties.
Import Url UrlFacts.

(** X1. [_pick_sql_driver] returns driver 18 whenever it is installed,
    whatever else is and in whatever order; driver 17 when 18 is not
    installed and 17 is; and raises, reporting the installed drivers, when
    neither is.  A driver that is returned is one of the installed ones. *)
Theorem pick_sql_driver_prefers_18 (drivers : list string) :
  (driver_18 ∈ drivers -> _pick_sql_driver drivers = inr driver_18)
  /\ (driver_18 ∉ drivers -> driver_17 ∈ drivers ->
      _pick_sql_driver drivers = inr driver_17)
  /\ (driver_18 ∉ drivers -> driver_17 ∉ drivers ->
      _pick_sql_driver drivers = inl (NoDriver drivers))
  /\ (forall d, _pick_sql_driver drivers = inr d -> d ∈ drivers).
Proof.
  unfold _pick_sql_driver. cbn [first_installed].
  destruct (Text.mem driver_18 drivers) eqn:H18;
    [|destruct (Text.mem driver_17 drivers) eqn:H17].
  - apply mem_spec in H18. repeat split; try done. by intros d [= <-].
  - apply mem_spec in H17.
    assert (driver_18 ∉ drivers) by (rewrite <- mem_spec; congruence).
    repeat split; try done. by intros d [= <-].
  - assert (driver_18 ∉ drivers) by (rewrite <- mem_spec; congruence).
    assert (driver_17 ∉ drivers) by (rewrite <- mem_spec; congruence).
    repeat split; done.
Qed.

Lemma pick_sql_driver_prefers_18_witness :
  _pick_sql_driver ["SQL Server"; driver_17; driver_18] = inr driver_18.
Proof.
  apply (pick_sql_driver_prefers_18 ["SQL Server"; driver_17; driver_18]).
  apply list_elem_of_In. cbn. auto.
Defined.


(** X3. Nothing of the ODBC parameters is lost in the URL: with the same
    installed drivers, two calls that return the same URL were given
    parameters that spell the same ODBC string. *)
Theorem build_url_keeps_parameters (drivers : list string) (driver url : string)
    (server database username password : string)
    (server' database' username' password' : string) :
  _pick_sql_driver drivers = inr driver ->
  build_sqlalchemy_url drivers server database username password = inr url ->
  build_sqlalchemy_url drivers server' database' username' password' = inr url ->
  odbc_params driver server database username password
  = odbc_params driver server' database' username' password'.
Proof.
  unfold build_sqlalchemy_url, quote_plus. intros Hp H1 H2. rewrite Hp in H1, H2.
  set (a := odbc_params driver server database username password) in *.
  set (b := odbc_params driver server' database' username' password') in *.
  destruct (has_surrogate a); [discriminate|].
  destruct (has_surrogate b); [discriminate|].
  assert (H : (url_prefix ++ quote_bytes a = url_prefix ++ quote_bytes b)%string)
    by congruence.
  apply append_cancel in H. apply (f_equal unquote_plus) in H.
  by rewrite !unquote_quote in H.
Qed.

(** Two calls with different credentials and one URL. *)
Lemma build_url_keeps_parameters_witness :
  odbc_params driver_18 "srv" "db" "user;PWD=x" "p w"
  = odbc_params driver_18 "srv" "db" "user" "x;PWD=p w".
Proof.
  apply (build_url_keeps_parameters [driver_18] driver_18
           (url_prefix
            ++ quote_bytes (odbc_params driver_18 "srv" "db" "user" "x;PWD=p w")));
    reflexivity.
Defined.

Lemma append_assoc' (a b c : string) : ((a ++ b) ++ c = a ++ (b ++ c))%string.
Proof.
  induction a as [|x a IH]; [reflexivity|].
  change ((String x a ++ b) ++ c)%string with (String x ((a ++ b) ++ c)%string).
  by rewrite IH.
Qed.

(** X4. The user name and the password are put into the ODBC string as
    they are, so the string does not tell where one ends: a user name that
    carries [;PWD=] gives the URL of another pair of credentials. *)
Theorem credentials_are_not_escaped (drivers : list string)
    (server database u p q : string) :
  build_sqlalchemy_url drivers server database (u ++ ";PWD=" ++ p)%string q
  = build_sqlalchemy_url drivers server database u (p ++ ";PWD=" ++ q)%string.
Proof.
  unfold build_sqlalchemy_url. destruct (_pick_sql_driver drivers) as [e|driver]; [done|].
  assert (H : odbc_params driver server database (u ++ ";PWD=" ++ p)%string q
              = odbc_params driver server database u (p ++ ";PWD=" ++ q)%string).
  { unfold odbc_params. do 10 f_equal. rewrite !append_assoc'. reflexivity. }
  by rewrite H.
Qed.

End UrlProperties.

(** * Further properties of the CSV repair *)

Lemma split_has_a_piece (sep : ascii) (s : string) :
  (1 <= length (Text.split sep s))%nat.
Proof.
  induction s as [|c s IH]; cbn; [lia|].
  destruct (Ascii.eqb c sep); cbn; [lia|].
  destruct (Text.split sep s); cbn in *; lia.
Qed.

Lemma split_has_two_pieces (sep : ascii) (s : string) :
  Text.contains sep s = true -> (2 <= length (Text.split sep s))%nat.
Proof.
  induction s as [|c s IH]; [discriminate|].
  cbn. destruct (Ascii.eqb c sep) eqn:Hc; cbn.
  - intros _. pose proof (split_has_a_piece sep s). lia.
  - intros H. specialize (IH H). destruct (Text.split sep s) as [|p ps]; cbn in *; lia.
Qed.

Lemma pick_sep_found (header : string) :
  has_delimiter header = true -> Text.contains (pick_sep header) header = true.
Proof.
  unfold has_delimiter, pick_sep. cbn.
  destruct (Text.contains ";" header) eqn:H2; [done|].
  destruct (Text.contains "|" header) eqn:H3; [done|].
  by destruct (Text.contains "," header).
Qed.

Lemma max_width_nil : max_width [] = 0%nat.
Proof. reflexivity. Qed.

(** The table the split makes of a column of text. *)
Definition split_frame (header : string) (f : frame) : frame :=
  let sep := pick_sep header in
  let parts := map (split_cell sep) (column 0 f) in
  Frame (map Text.strip (Text.split sep header)) (map (pad (max_width parts)) parts).

(** The first block, on a one-column table of text with a delimiter in its
    header: it splits when the widest row has as many pieces as the header,
    and raises the length mismatch of pandas otherwise. *)
Lemma split_block_text (w : world) (df : ref) (f : frame) (header : string) :
  heap w !! df = Some f ->
  columns f = [header] ->
  has_delimiter header = true ->
  forallb is_text (column 0 f) = true ->
  let sep := pick_sep header in
  let width := max_width (map (split_cell sep) (column 0 f)) in
  let n := length (Text.split sep header) in
  split_block df w =
    if (n =? width)%nat
    then (inr (length (heap w)), with_heap (heap w ++ [split_frame header f]) w)
    else (inl (ValueError (LengthMismatch width n)),
          with_heap (heap w ++ [Frame (map pretty (seq 0 width))
                                      (map (pad width) (map (split_cell sep) (column 0 f)))]) w).
Proof.
  intros H Hc Hd Ht sep width n.
  rewrite (split_block_splits _ _ _ _ H Hc Hd). unfold str_split_expand. rewrite Ht.
  cbn [columns rows]. cbn zeta. rewrite !length_map, length_seq. reflexivity.
Qed.

(** X5. On a one-column table of text whose header holds a delimiter, the
    repair raises the length-mismatch [ValueError] of pandas (not the
    missing-columns one) whenever the widest row does not split into as many
    pieces as the header; the caller's table is then as it was. *)
Theorem repair_raises_on_ragged_rows (w : world) (df : ref) (f : frame) (header : string)
    (expected_cols : list string) (new_names : option (list string)) :
  heap w !! df = Some f ->
  columns f = [header] ->
  has_delimiter header = true ->
  forallb is_text (column 0 f) = true ->
  max_width (map (split_cell (pick_sep header)) (column 0 f))
  <> length (Text.split (pick_sep header) header) ->
  fst (_split_single_column_csv df expected_cols new_names w)
  = inl (ValueError (LengthMismatch
           (max_width (map (split_cell (pick_sep header)) (column 0 f)))
           (length (Text.split (pick_sep header) header))))
  /\ heap (snd (_split_single_column_csv df expected_cols new_names w)) !! df = Some f.
Proof.
  intros H Hc Hd Ht Hne. unfold _split_single_column_csv.
  rewrite bind_run, (split_block_text _ _ _ _ H Hc Hd Ht). cbn zeta.
  destruct (Nat.eqb_spec (length (Text.split (pick_sep header) header))
              (max_width (map (split_cell (pick_sep header)) (column 0 f)))) as [Heq|_];
    [congruence|].
  split; [reflexivity|]. cbn. by apply lookup_app_l_Some.
Qed.

Lemma repair_raises_on_ragged_rows_witness :
  let f := Frame ["Name;Region"] [[VStr "North;Mid;West"]; [VStr "Sunrise;South"]] in
  fst (_split_single_column_csv 0%nat ["Name"; "Region"] None (on_heap [f]))
  = inl (ValueError (LengthMismatch 3 2)).
Proof.
  intros f.
  assert (Hne : max_width (map (split_cell (pick_sep "Name;Region")) (column 0 f))
                <> length (Text.split (pick_sep "Name;Region") "Name;Region"))
    by (cbn; lia).
  exact (proj1 (repair_raises_on_ragged_rows (on_heap [f]) 0%nat f "Name;Region"
                  ["Name"; "Region"] None eq_refl eq_refl eq_refl eq_refl Hne)).
Defined.

(** X6. A one-column table that has a delimiter in its header and no row
    at all (a file with a header line only) is not repaired into an empty
    table with the header's columns: the split has no column to label, and
    the repair raises the length-mismatch [ValueError]. *)
Theorem repair_raises_on_header_only (w : world) (df : ref) (f : frame) (header : string)
    (expected_cols : list string) (new_names : option (list string)) :
  heap w !! df = Some f ->
  columns f = [header] ->
  has_delimiter header = true ->
  rows f = [] ->
  fst (_split_single_column_csv df expected_cols new_names w)
  = inl (ValueError (LengthMismatch 0 (length (Text.split (pick_sep header) header))))
  /\ (2 <= length (Text.split (pick_sep header) header))%nat.
Proof.
  intros H Hc Hd Hr.
  pose proof (split_has_two_pieces _ _ (pick_sep_found _ Hd)) as Hn.
  split; [|exact Hn]. unfold _split_single_column_csv.
  assert (Ht : forallb is_text (column 0 f) = true) by (unfold column; by rewrite Hr).
  rewrite bind_run, (split_block_text _ _ _ _ H Hc Hd Ht). cbn zeta.
  unfold column. rewrite Hr. cbn [map max_width foldr].
  destruct (Nat.eqb_spec (length (Text.split (pick_sep header) header)) 0) as [Hz|_];
    [lia|reflexivity].
Qed.

Lemma repair_raises_on_header_only_witness :
  fst (_split_single_column_csv 0%nat ["Name"; "Region"] None
         (on_heap [Frame ["Name,Region"] []]))
  = inl (ValueError (LengthMismatch 0 2)).
Proof.
  exact (proj1 (repair_raises_on_header_only (on_heap [Frame ["Name,Region"] []]) 0%nat
                  (Frame ["Name,Region"] []) "Name,Region" ["Name"; "Region"] None
                  eq_refl eq_refl eq_refl eq_refl)).
Defined.

(** X7. When the repair splits (one column, a delimiter in the header) it
    works on a new table: whether the call returns or raises, the caller's
    table is as it was, labels included, and a table that is returned is
    another object. *)
Theorem repair_split_leaves_input (w : world) (df : ref) (f : frame) (header : string)
    (expected_cols : list string) (new_names : option (list string)) :
  heap w !! df = Some f ->
  columns f = [header] ->
  has_delimiter header = true ->
  heap (snd (_split_single_column_csv df expected_cols new_names w)) !! df = Some f
  /\ forall r, fst (_split_single_column_csv df expected_cols new_names w) = inr r -> r <> df.
Proof.
  intros H Hc Hd.
  assert (Hlt : (df < length (heap w))%nat) by by eapply lookup_lt_Some.
  unfold _split_single_column_csv.
  rewrite bind_run, (split_block_splits _ _ _ _ H Hc Hd).
  destruct (str_split_expand _ _ _) as [e|g]; [by split|]. cbn zeta.
  destruct (_ =? _)%nat.
  2:{ split; [|discriminate]. cbn. by apply lookup_app_l_Some. }
  set (g' := Frame _ (rows g)).
  assert (Hg : heap (with_heap (heap w ++ [g']) w) !! length (heap w) = Some g').
  { cbn. rewrite lookup_app_r by lia. by rewrite Nat.sub_diag. }
  rewrite (validate_block_run _ _ _ _ _ Hg). cbn zeta.
  assert (Hkeep : forall tail,
            (<[length (heap w) := stripped g']> (heap w ++ [g']) ++ tail) !! df = Some f).
  { intros tail. rewrite lookup_app_l by (rewrite length_insert, length_app; cbn; lia).
    rewrite list_lookup_insert_ne by lia. by apply lookup_app_l_Some. }
  destruct (missing_from _ _); [destruct (truthy new_names)|];
    cbn [fst snd with_heap heap db calls].
  - split; [apply Hkeep|]. intros r [= <-]. rewrite length_app. cbn. lia.
  - split; [apply Hkeep|]. intros r [= <-]. rewrite length_app. cbn. lia.
  - split; [|discriminate]. rewrite <- (app_nil_r (<[_ := _]> _)). apply Hkeep.
Qed.

Lemma repair_split_leaves_input_witness :
  heap (snd (_split_single_column_csv 0%nat ["Name"; "Region"; "Specialty"] None
               (on_heap [providers_raw]))) !! 0%nat
  = Some providers_raw.
Proof.
  exact (proj1 (repair_split_leaves_input (on_heap [providers_raw]) 0%nat providers_raw
                  "Name,Region,Specialty" ["Name"; "Region"; "Specialty"] None
                  eq_refl eq_refl eq_refl)).
Defined.

Lemma positions_labels (k : nat) (label : string) (labels : list string) :
  map (fun i => default "" (labels !! (i - k)%nat)) (positions_from k label labels)
  = replicate (length (positions_from k label labels)) label.
Proof.
  revert k. induction labels as [|l ls IH]; intros k; [reflexivity|].
  cbn [positions_from]. destruct (String.eqb_spec l label) as [->|Hne].
  - cbn. rewrite Nat.sub_diag. cbn. f_equal. rewrite <- (IH (S k)).
    apply map_ext_in. intros i Hi. apply list_elem_of_In, positions_from_lookup in Hi as [Hle _].
    by replace (i - k)%nat with (S (i - S k)) by lia.
  - rewrite <- (IH (S k)).
    apply map_ext_in. intros i Hi. apply list_elem_of_In, positions_from_lookup in Hi as [Hle _].
    by replace (i - k)%nat with (S (i - S k)) by lia.
Qed.

Lemma positions_present (k : nat) (label : string) (labels : list string) :
  label ∈ labels -> positions_from k label labels <> [].
Proof.
  revert k. induction labels as [|l ls IH]; intros k Hin; [inversion Hin|].
  cbn. destruct (String.eqb_spec l label) as [->|Hne]; [done|].
  apply elem_of_cons in Hin as [->|Hin]; [done|]. by apply IH.
Qed.

(** The labels of a projection are the required names, each as often as
    the table carries it. *)
Lemma projection_labels (expected_cols : list string) (f : frame) (c : string) :
  missing_from expected_cols (columns f) = [] ->
  c ∈ columns (projection expected_cols f) <-> c ∈ expected_cols.
Proof.
  intros Hm. rewrite missing_from_nil in Hm.
  unfold projection, take_columns, positions. cbn [columns].
  induction expected_cols as [|e es IH]; cbn [flat_map map]; [done|].
  rewrite map_app, elem_of_app, elem_of_cons, IH by (intros x Hx; apply Hm; by right).
  assert (Hrep : map (fun i => default "" (columns f !! i)) (positions_from 0 e (columns f))
                 = replicate (length (positions_from 0 e (columns f))) e).
  { rewrite <- (positions_labels 0). apply map_ext. intros i. by rewrite Nat.sub_0_r. }
  rewrite Hrep. split.
  - intros [Hc|Hc]; [|by right]. left. by apply elem_of_replicate in Hc as [-> _].
  - intros [->|Hc]; [|by right]. left. apply elem_of_replicate. split; [done|].
    pose proof (positions_present 0 e (columns f) (Hm e (list_elem_of_here _ _))) as Hp.
    destruct (positions_from 0 e (columns f)); [done|cbn; lia].
Qed.

Lemma projection_rows_length (expected_cols : list string) (f : frame) :
  length (rows (projection expected_cols f)) = length (rows f).
Proof. unfold projection, take_columns. cbn. apply length_map. Qed.

(** Whenever the repair returns without renaming, the table it returns is
    the projection, on the required names, of a table with the rows of the
    input: the input itself or what the split made of it. *)
Lemma repair_returns (w w' : world) (df r : ref) (f : frame) (expected_cols : list string) :
  heap w !! df = Some f ->
  _split_single_column_csv df expected_cols None w = (inr r, w') ->
  exists g, length (rows g) = length (rows f)
            /\ missing_from expected_cols (columns (stripped g)) = []
            /\ heap w' !! r = Some (projection expected_cols (stripped g)).
Proof.
  intros H. unfold _split_single_column_csv. rewrite bind_run.
  assert (Hval : forall w0 r0 g, heap w0 !! r0 = Some g ->
            length (rows g) = length (rows f) ->
            validate_block r0 expected_cols None w0 = (inr r, w') ->
            exists g, length (rows g) = length (rows f)
                      /\ missing_from expected_cols (columns (stripped g)) = []
                      /\ heap w' !! r = Some (projection expected_cols (stripped g))).
  { intros w0 r0 g Hg Hlen. rewrite (validate_block_run _ _ _ _ _ Hg). cbn zeta.
    destruct (missing_from _ _) eqn:Hm; [|discriminate]. cbn [truthy].
    intros [= <- <-]. exists g. split; [exact Hlen|]. split; [exact Hm|].
    cbn. rewrite lookup_app_r by (rewrite length_insert; lia).
    by rewrite length_insert, Nat.sub_diag. }
  destruct (columns f) as [|header [|c2 cs]] eqn:Hc.
  - rewrite (split_block_keeps _ _ _ H) by (intros h; rewrite Hc; discriminate).
    by apply (Hval w df f).
  - destruct (has_delimiter header) eqn:Hd.
    + rewrite (split_block_splits _ _ _ _ H Hc Hd). unfold str_split_expand.
      destruct (forallb is_text (column 0 f)); [|discriminate]. cbn [columns rows]. cbn zeta.
      destruct (_ =? _)%nat; [|discriminate].
      eapply Hval.
      * cbn. rewrite lookup_app_r by lia. by rewrite Nat.sub_diag.
      * cbn. unfold column. by rewrite !length_map.
    + rewrite (split_block_keeps _ _ _ H)
        by (intros h; rewrite Hc; intros [= <-]; exact Hd).
      by apply (Hval w df f).
  - rewrite (split_block_keeps _ _ _ H) by (intros h; rewrite Hc; discriminate).
    by apply (Hval w df f).
Qed.

(** X8. Whenever the repair returns (without renaming), by either way,
    the table returned has as many rows as the table given, and its labels
    are the required names and nothing else. *)
Theorem repair_returns_required_columns (w : world) (df r : ref) (f : frame)
    (expected_cols : list string) :
  heap w !! df = Some f ->
  fst (_split_single_column_csv df expected_cols None w) = inr r ->
  exists out,
    heap (snd (_split_single_column_csv df expected_cols None w)) !! r = Some out
    /\ length (rows out) = length (rows f)
    /\ forall c, c ∈ columns out <-> c ∈ expected_cols.
Proof.
  intros H Hr.
  destruct (_split_single_column_csv df expected_cols None w) as [res w'] eqn:Hrun.
  cbn in Hr. subst res.
  destruct (repair_returns _ _ _ _ _ _ H Hrun) as (g & Hlen & Hm & Hout).
  exists (projection expected_cols (stripped g)). split; [exact Hout|].
  split; [by rewrite projection_rows_length|].
  intros c. by apply projection_labels.
Qed.

Lemma repair_returns_required_columns_witness :
  exists out,
    heap (snd (_split_single_column_csv 0%nat ["Region"; "Name"] None
                 (on_heap [providers_raw]))) !! 2%nat = Some out
    /\ length (rows out) = 2%nat
    /\ forall c, c ∈ columns out <-> c ∈ ["Region"; "Name"].
Proof.
  exact (repair_returns_required_columns (on_heap [providers_raw]) 0%nat 2%nat
           providers_raw ["Region"; "Name"] eq_refl eq_refl).
Defined.

Lemma rename_zip (expected_cols new_names : list string) :
  NoDup expected_cols ->
  length new_names = length expected_cols ->
  map (rename_label (zip expected_cols new_names)) expected_cols = new_names.
Proof.
  revert new_names. induction expected_cols as [|k es IH]; intros [|v ns] Hnd Hlen;
    try discriminate; [reflexivity|].
  apply NoDup_cons in Hnd as [Hk Hnd]. injection Hlen as Hlen.
  assert (Hkeys : map fst (zip es ns) = es) by (apply fst_zip; lia).
  cbn [zip zip_with map rename_label]. rewrite String.eqb_refl.
  change (zip_with pair es ns) with (zip es ns). rewrite Hkeys.
  destruct (Text.mem k es) eqn:Hm; [apply mem_spec in Hm; done|].
  f_equal. etransitivity; [|exact (IH ns Hnd Hlen)].
  apply map_ext_in. intros x Hx. cbn [rename_label].
  destruct (String.eqb_spec k x) as [->|_]; [|reflexivity].
  exfalso. apply Hk. by apply list_elem_of_In.
Qed.

(** X9. With replacement names, as many as the required names, and
    distinct names on both sides, a parsed table comes back with the
    replacement names in the place of the required ones, position by
    position, over the same cells. *)
Theorem repair_renames_by_position (w : world) (df : ref) (f : frame)
    (expected_cols new_names : list string) :
  heap w !! df = Some f ->
  (2 <= length (columns f))%nat ->
  NoDup (map Text.strip (columns f)) ->
  NoDup expected_cols ->
  (forall c, c ∈ expected_cols -> c ∈ map Text.strip (columns f)) ->
  new_names <> [] ->
  length new_names = length expected_cols ->
  fst (_split_single_column_csv df expected_cols (Some new_names) w)
  = inr (S (length (heap w)))
  /\ heap (snd (_split_single_column_csv df expected_cols (Some new_names) w))
       !! S (length (heap w))
     = Some (Frame new_names (rows (projection expected_cols (stripped f)))).
Proof.
  intros H Hlen Hnd Hnde Hall Hne Hnames.
  unfold _split_single_column_csv. rewrite bind_run.
  rewrite (split_block_keeps _ _ _ H)
    by (intros h Hh; rewrite Hh in Hlen; cbn in Hlen; lia).
  rewrite (validate_block_run _ _ _ _ _ H). cbn zeta.
  assert (Hm : missing_from expected_cols (columns (stripped f)) = [])
    by by apply missing_from_nil.
  rewrite Hm. destruct new_names as [|n ns]; [done|]. cbn [truthy default from_option id].
  rewrite (projection_columns expected_cols (stripped f) Hnd Hall).
  rewrite (rename_zip expected_cols (n :: ns) Hnde Hnames).
  split; [reflexivity|]. cbn [snd with_heap heap].
  rewrite lookup_app_r by (rewrite length_insert; lia).
  rewrite length_insert.
  by replace (S (length (heap w)) - length (heap w))%nat with 1%nat by lia.
Qed.

Lemma repair_renames_by_position_witness :
  let f := Frame ["Name"; "Region"; "Extra"] [[VStr "North Clinic"; VStr "Midwest"; VStr "x"]] in
  heap (snd (_split_single_column_csv 0%nat ["Region"; "Name"] (Some ["Area"; "Provider"])
               (on_heap [f]))) !! 2%nat
  = Some (Frame ["Area"; "Provider"] [[VStr "Midwest"; VStr "North Clinic"]]).
Proof.
  intros f.
  refine (proj2 (repair_renames_by_position (on_heap [f]) 0%nat f ["Region"; "Name"]
                   ["Area"; "Provider"] eq_refl _ _ _ _ _ eq_refl)).
  - cbn. lia.
  - cbn. repeat constructor; rewrite ?not_elem_of_cons; repeat split;
      try discriminate; apply not_elem_of_nil.
  - repeat constructor; rewrite ?not_elem_of_cons; repeat split;
      try discriminate; apply not_elem_of_nil.
  - intros c Hc. apply list_elem_of_In. apply list_elem_of_In in Hc. cbn in *. tauto.
  - discriminate.
Defined.

(** * Further properties of the coercion *)

(** What the loop does to a column mapped to [target]: the chain of tests
    of the loop body; [None] is a refused cast. *)
Definition convert (pd : pandas) (target : string) (s : list value)
  : option (list value) :=
  if Text.startswith "datetime" target then Some (map (to_datetime pd) s)
  else if String.eqb target "float" then Some (Numeric.to_numeric s)
  else if String.eqb target "int" then Numeric.astype_Int64 (Numeric.to_numeric s)
  else Some (map (to_stripped_str pd) s).

Lemma convert_length (pd : pandas) (target : string) (s s' : list value) :
  convert pd target s = Some s' -> length s' = length s.
Proof.
  unfold convert. destruct (Text.startswith "datetime" target);
    [intros [= <-]; apply length_map|].
  destruct (String.eqb target "float"); [intros [= <-]; apply to_numeric_length|].
  destruct (String.eqb target "int"); [|intros [= <-]; apply length_map].
  intros H. by rewrite (astype_Int64_length _ _ H), to_numeric_length.
Qed.

Lemma coerce_turn_convert (pd : pandas) (out : frame) (col target : string) (i : nat) :
  Text.mem col (columns out) = true ->
  positions col (columns out) = [i] ->
  coerce_turn pd out col target
  = match convert pd target (column i out) with
    | Some s => inr (set_column i s out)
    | None => inl (TypeError col)
    end.
Proof.
  intros Hm Hp. unfold coerce_turn, convert. rewrite Hm, Hp. cbn [negb]. cbn zeta.
  destruct (Text.startswith "datetime" target); [reflexivity|].
  destruct (String.eqb target "float"); [reflexivity|].
  by destruct (String.eqb target "int").
Qed.

Lemma set_column_well_formed (i : nat) (s : list value) (f : frame) :
  well_formed f -> well_formed (set_column i s f).
Proof.
  unfold well_formed, set_column. cbn. intros Hwf.
  revert s. induction Hwf as [|r rs Hr _ IH]; intros [|v s]; cbn; try constructor.
  - unfold set_cell. by rewrite length_insert.
  - apply IH.
Qed.

Lemma set_column_same (i : nat) (s : list value) (f : frame) :
  well_formed f -> (i < length (columns f))%nat -> length s = length (rows f) ->
  column i (set_column i s f) = s.
Proof.
  unfold well_formed, column, set_column. cbn [rows columns]. intros Hwf Hi.
  revert s. induction Hwf as [|r rs Hr _ IH]; intros [|v s] Hs; try discriminate; [done|].
  cbn [zip_with map]. f_equal; [|apply IH; by injection Hs].
  unfold cell, set_cell. rewrite list_lookup_insert_eq by lia. reflexivity.
Qed.

(** The loop, column by column, on a well-formed table with distinct labels
    and a mapping with distinct keys: it ends normally exactly when every
    mapped column converts, and then every mapped column holds its converted
    cells and every other column its own. *)
Lemma coerce_loop_columns (pd : pandas) (mapping : list (string * string)) (out : frame) :
  well_formed out -> NoDup (columns out) -> NoDup (map fst mapping) ->
  (fst (coerce_loop pd mapping out) = inr tt <->
   forall l t j, (l, t) ∈ mapping -> columns out !! j = Some l ->
     is_Some (convert pd t (column j out)))
  /\ (fst (coerce_loop pd mapping out) = inr tt ->
      well_formed (snd (coerce_loop pd mapping out))
      /\ forall j l, columns out !! j = Some l ->
           (forall t, (l, t) ∈ mapping ->
              convert pd t (column j out)
              = Some (column j (snd (coerce_loop pd mapping out))))
           /\ (l ∉ map fst mapping ->
               column j (snd (coerce_loop pd mapping out)) = column j out)).
Proof.
  revert out. induction mapping as [|[c t] rest IH]; intros out Hwf Hnd Hkeys.
  { cbn. split; [split; [intros _ l t j Hin; inversion Hin|done]|].
    intros _. split; [exact Hwf|]. intros j l Hj. split; [intros t Hin; inversion Hin|done]. }
  cbn [map fst] in Hkeys. apply NoDup_cons in Hkeys as [Hc Hkeys].
  cbn [coerce_loop].
  destruct (Text.mem c (columns out)) eqn:Hm.
  2:{ (* the table lacks the column: the entry is skipped *)
    assert (Habs : forall j, columns out !! j <> Some c).
    { intros j Hj. assert (c ∈ columns out) by (by eapply list_elem_of_lookup_2).
      apply mem_spec in H. congruence. }
    unfold coerce_turn. rewrite Hm. cbn [negb].
    destruct (IH out Hwf Hnd Hkeys) as [Hiff Hres]. split.
    - rewrite Hiff. split.
      + intros Hall l t' j Hin Hj. apply elem_of_cons in Hin as [[= -> ->]|Hin];
          [by destruct (Habs j)|by eapply Hall].
      + intros Hall l t' j Hin Hj. eapply Hall; [by right|done].
    - intros Hok. destruct (Hres Hok) as [Hwf' Hcols]. split; [exact Hwf'|].
      intros j l Hj. destruct (Hcols j l Hj) as [H1 H2]. split.
      + intros t' Hin. apply elem_of_cons in Hin as [[= -> ->]|Hin];
          [by destruct (Habs j)|by apply H1].
      + intros Hn. apply H2. cbn in Hn. by apply not_elem_of_cons in Hn as [_ Hn]. }
  apply mem_spec in Hm as Hin.
  destruct (positions_from_unique 0 c (columns out) Hnd Hin) as (i & Hi & Hp).
  cbn in Hp. rewrite (coerce_turn_convert pd out c t i Hm Hp).
  assert (Hsame : forall j, columns out !! j = Some c -> j = i).
  { intros j Hj. exact (NoDup_lookup _ _ _ _ Hnd Hj Hi). }
  destruct (convert pd t (column i out)) as [s|] eqn:Hs.
  2:{ (* the column does not convert *)
    cbn [fst snd]. split; [|discriminate]. split; [discriminate|].
    intros Hall. destruct (Hall c t i (list_elem_of_here _ _) Hi) as [s Hs'].
    congruence. }
  assert (Hlen : length s = length (rows out)).
  { rewrite (convert_length _ _ _ _ Hs). apply column_length. }
  assert (Hother : forall j, j <> i -> column j (set_column i s out) = column j out).
  { intros j Hj. apply set_column_other; [exact Hlen|]. congruence. }
  assert (Hthis : column i (set_column i s out) = s).
  { apply set_column_same; [exact Hwf| |exact Hlen]. by eapply lookup_lt_Some. }
  assert (Hrest : forall l t' j, (l, t') ∈ rest -> columns out !! j = Some l -> j <> i).
  { intros l t' j Hl Hj ->. rewrite Hi in Hj. injection Hj as <-.
    apply Hc. apply list_elem_of_fmap. by exists (c, t'). }
  destruct (IH (set_column i s out) (set_column_well_formed i s out Hwf) Hnd Hkeys)
    as [Hiff Hres].
  cbn [columns set_column] in Hiff, Hres. split.
  - rewrite Hiff. split.
    + intros Hall l t' j Hl Hj. apply elem_of_cons in Hl as [[= -> ->]|Hl].
      * rewrite (Hsame j Hj). by eexists.
      * rewrite <- (Hother j (Hrest l t' j Hl Hj)). by eapply Hall.
    + intros Hall l t' j Hl Hj. rewrite (Hother j (Hrest l t' j Hl Hj)).
      eapply Hall; [by right|done].
  - intros Hok. destruct (Hres Hok) as [Hwf' Hcols]. split; [exact Hwf'|].
    intros j l Hj. destruct (Hcols j l Hj) as [H1 H2]. split.
    + intros t' Hl. apply elem_of_cons in Hl as [[= -> ->]|Hl].
      * rewrite (Hsame j Hj) in *. rewrite H2 by exact Hc. by rewrite Hthis.
      * rewrite <- (Hother j (Hrest l t' j Hl Hj)). by apply H1.
    + intros Hn. cbn in Hn. apply not_elem_of_cons in Hn as [Hne Hn].
      rewrite (H2 Hn). apply Hother. intros ->. congruence.
Qed.



(** Two rows, and two tables, with the same cells are the same. *)
Lemma row_ext (n : nat) (r r' : list value) :
  length r = n -> length r' = n ->
  (forall j, (j < n)%nat -> cell r j = cell r' j) -> r = r'.
Proof.
  intros Hr Hr' H. apply list_eq. intros j.
  destruct (decide (j < n)%nat) as [Hj|Hj].
  - specialize (H j Hj). unfold cell in H.
    destruct (lookup_lt_is_Some_2 r j ltac:(lia)) as [x Hx].
    destruct (lookup_lt_is_Some_2 r' j ltac:(lia)) as [y Hy].
    rewrite Hx, Hy in *. cbn in H. congruence.
  - rewrite !lookup_ge_None_2 by lia. done.
Qed.

Lemma frame_ext (f g : frame) :
  well_formed f -> well_formed g -> columns f = columns g ->
  length (rows f) = length (rows g) ->
  (forall j, (j < length (columns f))%nat -> column j f = column j g) -> f = g.
Proof.
  destruct f as [cf rf], g as [cg rg]. unfold well_formed, column. cbn.
  intros Hf Hg <- Hlen H. f_equal.
  revert rg Hg Hlen H.
  induction Hf as [|r rs Hr _ IH]; intros [|r' rs'] Hg Hlen H; try discriminate; [done|].
  apply Forall_cons in Hg as [Hr' Hg]. f_equal.
  - apply (row_ext (length cf)); [done..|].
    intros j Hj. specialize (H j Hj). cbn in H. by injection H.
  - apply IH; [done|by injection Hlen|].
    intros j Hj. specialize (H j Hj). cbn in H. by injection H.
Qed.

(** [out] holds the columns of [f] converted as [mapping] says. *)
Definition converted (pd : pandas) (mapping : list (string * string)) (f out : frame) : Prop :=
  forall j l, columns f !! j = Some l ->
    (forall t, (l, t) ∈ mapping ->
       convert pd t (column j f) = Some (column j out))
    /\ (l ∉ map fst mapping -> column j out = column j f).

Lemma converted_unique (pd : pandas) (mapping : list (string * string)) (f out1 out2 : frame) :
  well_formed out1 -> well_formed out2 ->
  columns out1 = columns f -> columns out2 = columns f ->
  length (rows out1) = length (rows f) -> length (rows out2) = length (rows f) ->
  converted pd mapping f out1 -> converted pd mapping f out2 -> out1 = out2.
Proof.
  intros W1 W2 C1 C2 L1 L2 H1 H2.
  apply frame_ext; [done|done|congruence|congruence|].
  intros j Hj. rewrite C1 in Hj.
  destruct (lookup_lt_is_Some_2 _ _ Hj) as [l Hl].
  destruct (H1 j l Hl) as [A1 B1]. destruct (H2 j l Hl) as [A2 B2].
  destruct (decide (l ∈ map fst mapping)) as [Hin|Hout].
  - apply list_elem_of_fmap in Hin as ([l' t] & -> & Hin). cbn in *.
    specialize (A1 t Hin). specialize (A2 t Hin). congruence.
  - rewrite (B1 Hout), (B2 Hout). reflexivity.
Qed.

(** The call as a whole, for a well-formed table with distinct labels and a
    dict (distinct keys). *)
Lemma coerce_types_columns (pd : pandas) (w : world) (df : ref) (f : frame)
    (mapping : list (string * string)) :
  heap w !! df = Some f -> well_formed f -> NoDup (columns f) ->
  NoDup (map fst mapping) ->
  fst (coerce_loop pd mapping f) = inr tt ->
  _coerce_types pd df mapping w
  = (inr (length (heap w)), with_heap (heap w ++ [snd (coerce_loop pd mapping f)]) w)
  /\ well_formed (snd (coerce_loop pd mapping f))
  /\ columns (snd (coerce_loop pd mapping f)) = columns f
  /\ length (rows (snd (coerce_loop pd mapping f))) = length (rows f)
  /\ converted pd mapping f (snd (coerce_loop pd mapping f)).
Proof.
  intros H Hwf Hnd Hkeys Hok.
  rewrite (coerce_types_run pd mapping w df f H), Hok.
  destruct (coerce_loop_columns pd mapping f Hwf Hnd Hkeys) as [_ Hres].
  destruct (Hres Hok) as [Hwf' Hcols].
  destruct (coerce_loop_shape pd mapping f) as (Hc & Hr & _).
  done.
Qed.

Lemma coerce_types_outcome (pd : pandas) (w : world) (df : ref) (f : frame)
    (mapping : list (string * string)) (r : ref) :
  heap w !! df = Some f ->
  fst (_coerce_types pd df mapping w) = inr r ->
  r = length (heap w) /\ fst (coerce_loop pd mapping f) = inr tt.
Proof.
  intros H. rewrite (coerce_types_run pd mapping w df f H). cbn [fst].
  destruct (fst (coerce_loop pd mapping f)) as [e|[]]; [discriminate|].
  intros [= <-]. done.
Qed.

Ltac distinct :=
  repeat constructor; rewrite ?not_elem_of_cons; repeat split;
  try discriminate; apply not_elem_of_nil.





(** X12. A target that is none of "datetime...", "float" and "int" is
    neither refused nor skipped: "str" and any unknown tag alike turn the
    column into trimmed text.  In the table returned, each cell of such a
    column is the text of the input cell without its surrounding blanks; a
    text cell [s] becomes [s.strip()]. *)
Theorem unknown_target_is_text (pd : pandas) (w : world) (df : ref) (f : frame)
    (mapping : list (string * string)) (r : ref) (l t : string) (j : nat) :
  heap w !! df = Some f -> well_formed f -> NoDup (columns f) ->
  NoDup (map fst mapping) ->
  (l, t) ∈ mapping -> columns f !! j = Some l ->
  Text.startswith "datetime" t = false -> t <> "float" -> t <> "int" ->
  fst (_coerce_types pd df mapping w) = inr r ->
  exists out,
    heap (snd (_coerce_types pd df mapping w)) !! r = Some out
    /\ length (column j out) = length (column j f)
    /\ (forall v, v ∈ column j out -> exists s, v = VStr s /\ Text.strip s = s)
    /\ (forall k s, column j f !! k = Some (VStr s) ->
          column j out !! k = Some (VStr (Text.strip s))).
Proof.
  intros H Hwf Hnd Hkeys Hl Hj Hd Hf Hi Hr.
  destruct (coerce_types_outcome pd w df f mapping r H Hr) as [-> Hok].
  destruct (coerce_types_columns pd w df f mapping H Hwf Hnd Hkeys Hok)
    as (Hrun & _ & _ & _ & Hconv).
  exists (snd (coerce_loop pd mapping f)). rewrite Hrun. cbn [snd].
  split; [cbn; rewrite lookup_app_r by lia; by rewrite Nat.sub_diag|].
  destruct (Hconv j l Hj) as [A _]. specialize (A t Hl).
  unfold convert in A. rewrite Hd in A.
  apply String.eqb_neq in Hf, Hi. rewrite Hf, Hi in A.
  injection A as <-.
  split; [apply length_map|]. split.
  - intros v Hv. apply list_elem_of_fmap in Hv as (v0 & -> & _).
    eexists. split; [reflexivity|apply strip_idem].
  - intros k s Hk. rewrite list_lookup_fmap, Hk. reflexivity.
Qed.

Lemma unknown_target_is_text_witness :
  let f := Frame ["Gender"] [[VStr " F "]; [VNaN]] in
  exists out,
    heap (snd (_coerce_types pandas_sample 0%nat [("Gender", "category")] (on_heap [f]))) !! 1%nat
    = Some out
    /\ column 0 out !! 0%nat = Some (VStr "F").
Proof.
  intros f.
  destruct (unknown_target_is_text pandas_sample (on_heap [f]) 0%nat f [("Gender", "category")]
              1%nat "Gender" "category" 0%nat eq_refl
              ltac:(repeat constructor) ltac:(distinct) ltac:(distinct)
              (list_elem_of_here _ _) eq_refl eq_refl ltac:(discriminate) ltac:(discriminate)
              eq_refl)
    as (out & Ho & _ & _ & Hs).
  exists out. split; [exact Ho|]. exact (Hs 0%nat " F " eq_refl).
Defined.

(** A converted cell converts to itself, under any target, once timestamps
    and NaT are left as they are by [to_datetime], as pandas does. *)
Definition keeps_timestamps (pd : pandas) : Prop :=
  (forall t, datetime_of pd (VTime t) = Some t) /\ datetime_of pd VNaT = None.

(** A cell of a column of numbers: [to_numeric] leaves it as it is. *)
Definition is_number (v : value) : bool :=
  match v with
  | VStr _ | VNone | VTime _ | VNaT => false
  | _ => true
  end.

Lemma to_numeric_of_numbers (s : list value) :
  forallb is_number s = true -> Numeric.to_numeric s = s.
Proof.
  intros H. unfold Numeric.to_numeric.
  assert (Hobj : existsb Numeric.is_object s = false).
  { induction s as [|v s IH]; [reflexivity|]. cbn in H |- *.
    apply andb_true_iff in H as [Hv Hs]. rewrite (IH Hs). by destruct v. }
  rewrite Hobj. induction s as [|v s IH]; [reflexivity|]. cbn in H |- *.
  apply andb_true_iff in H as [Hv Hs].
  rewrite IH by (try done; cbn in Hobj; by apply orb_false_iff in Hobj as [_ ?]).
  by destruct v.
Qed.

Lemma forallb_map_true {A B} (g : B -> bool) (h : A -> B) (l : list A) :
  (forall x, g (h x) = true) -> forallb g (map h l) = true.
Proof. intros H. induction l as [|x l IH]; [reflexivity|]. cbn. by rewrite H, IH. Qed.

Lemma to_numeric_numbers (s : list value) :
  forallb is_number (Numeric.to_numeric s) = true.
Proof.
  unfold Numeric.to_numeric.
  destruct (existsb Numeric.is_object s) eqn:Hobj.
  - unfold Numeric.convert_object.
    match goal with |- context [if ?b then _ else _] => destruct b end;
      rewrite map_map; apply forallb_map_true; intros v;
      by destruct (Numeric.read_cell v) as [z []|[]].
  - induction s as [|v s IH]; [reflexivity|]. cbn in Hobj |- *.
    apply orb_false_iff in Hobj as [Hv Hs]. rewrite (IH Hs). by destruct v.
Qed.

Lemma to_numeric_idem (s : list value) :
  Numeric.to_numeric (Numeric.to_numeric s) = Numeric.to_numeric s.
Proof. apply to_numeric_of_numbers, to_numeric_numbers. Qed.

(** What the cast to Int64 yields is a cell of an Int64 column. *)
Definition is_Int64 (v : value) : bool :=
  match v with
  | VInt z => (Numeric.int64_min <=? z)%Z && (z <=? Numeric.int64_max)%Z
  | VNA => true
  | _ => false
  end.

Lemma to_Int64_is_Int64 (v v' : value) :
  Numeric.to_Int64 v = Some v' -> is_Int64 v' = true.
Proof.
  destruct v; cbn [Numeric.to_Int64]; try discriminate; try (by intros [= <-]).
  - cbn zeta. match goal with |- context [if ?b then _ else _] => destruct b eqn:E end;
      [|discriminate].
    intros [= <-]. cbn. apply andb_true_iff in E as [E1 E2].
    apply andb_true_iff in E1 as [_ E1]. by rewrite E1, E2.
  - match goal with |- context [if ?b then _ else _] => destruct b eqn:E end;
      [|discriminate].
    intros [= <-]. exact E.
Qed.

Lemma to_Int64_of_Int64 (v : value) : is_Int64 v = true -> Numeric.to_Int64 v = Some v.
Proof. destruct v; try discriminate; cbn; [by intros ->|done]. Qed.

Lemma astype_Int64_idem (s s' : list value) :
  Numeric.astype_Int64 s = Some s' ->
  Numeric.astype_Int64 (Numeric.to_numeric s') = Some s'.
Proof.
  intros H. unfold Numeric.astype_Int64 in *. apply mapM_Some in H.
  assert (Hall : Forall (fun v => is_Int64 v = true) s').
  { induction H as [|v v' l l' Hv _ IH]; constructor; [|exact IH].
    by eapply to_Int64_is_Int64. }
  rewrite to_numeric_of_numbers.
  - apply mapM_Some. clear H. induction Hall as [|v l Hv _ IH]; constructor; [|exact IH].
    by apply to_Int64_of_Int64.
  - clear H. induction Hall as [|v l Hv _ IH]; [reflexivity|]. cbn. rewrite IH.
    by destruct v.
Qed.

Lemma mapM_convert_idem (pd : pandas) (t : string) (s s' : list value) :
  keeps_timestamps pd ->
  convert pd t s = Some s' -> convert pd t s' = Some s'.
Proof.
  intros [Ht Hn]. unfold convert.
  destruct (Text.startswith "datetime" t).
  { intros [= <-]. f_equal. rewrite map_map. apply map_ext. intros v.
    unfold to_datetime. destruct (datetime_of pd v); cbn; by rewrite ?Ht, ?Hn. }
  destruct (String.eqb t "float"); [intros [= <-]; by rewrite to_numeric_idem|].
  destruct (String.eqb t "int"); [apply astype_Int64_idem|].
  intros [= <-]. f_equal. rewrite map_map. apply map_ext. intros v.
  unfold to_stripped_str. cbn [py_str]. by rewrite strip_idem.
Qed.

(** X13. Coercion is idempotent: for a well-formed table with distinct
    labels and a mapping with distinct keys, when [_coerce_types] returns a
    table, calling it again on that table with the same mapping returns too,
    with a further new table that has the same labels and cells.  It relies
    on [pd.to_datetime] leaving timestamps and NaT as they are. *)
Theorem coercion_is_idempotent (pd : pandas) (w : world) (df : ref) (f : frame)
    (mapping : list (string * string)) (r : ref) :
  keeps_timestamps pd ->
  heap w !! df = Some f -> well_formed f -> NoDup (columns f) ->
  NoDup (map fst mapping) ->
  fst (_coerce_types pd df mapping w) = inr r ->
  exists r',
    fst (_coerce_types pd r mapping (snd (_coerce_types pd df mapping w))) = inr r'
    /\ r' <> r
    /\ heap (snd (_coerce_types pd r mapping (snd (_coerce_types pd df mapping w)))) !! r'
       = heap (snd (_coerce_types pd df mapping w)) !! r.
Proof.
  intros Hpd H Hwf Hnd Hkeys Hr.
  destruct (coerce_types_outcome pd w df f mapping r H Hr) as [-> Hok].
  destruct (coerce_types_columns pd w df f mapping H Hwf Hnd Hkeys Hok)
    as (Hrun & Hwf1 & Hc1 & Hl1 & Hconv1).
  rewrite Hrun. cbn [snd].
  set (out1 := snd (coerce_loop pd mapping f)) in *.
  set (w1 := with_heap (heap w ++ [out1]) w).
  assert (H1 : heap w1 !! length (heap w) = Some out1).
  { cbn. rewrite lookup_app_r by lia. by rewrite Nat.sub_diag. }
  assert (Hnd1 : NoDup (columns out1)) by (by rewrite Hc1).
  assert (Hself : converted pd mapping out1 out1).
  { intros j l Hj. rewrite Hc1 in Hj. destruct (Hconv1 j l Hj) as [A _].
    split; [|done]. intros t Ht. exact (mapM_convert_idem pd t _ _ Hpd (A t Ht)). }
  assert (Hok2 : fst (coerce_loop pd mapping out1) = inr tt).
  { apply (coerce_loop_columns pd mapping out1 Hwf1 Hnd1 Hkeys).
    intros l t j Hl Hj. destruct (Hself j l Hj) as [A _]. rewrite (A t Hl). by eexists. }
  destruct (coerce_types_columns pd w1 (length (heap w)) out1 mapping H1 Hwf1 Hnd1 Hkeys Hok2)
    as (Hrun2 & Hwf2 & Hc2 & Hl2 & Hconv2).
  rewrite Hrun2. cbn [fst snd].
  exists (length (heap w1)). split; [reflexivity|].
  assert (Hlen : length (heap w1) = S (length (heap w))).
  { cbn. rewrite length_app. cbn. lia. }
  split; [lia|].
  rewrite H1. cbn [heap with_heap]. rewrite lookup_app_r by lia. rewrite Nat.sub_diag.
  cbn. f_equal.
  exact (converted_unique pd mapping out1 _ out1 Hwf2 Hwf1 Hc2 eq_refl Hl2 eq_refl Hconv2 Hself).
Qed.

(** A pandas for examples that reads one date and keeps timestamps. *)
Definition pandas_dates : pandas :=
  Pandas (fun v => match v with
                   | VTime t => Some t
                   | VStr s => if String.eqb s "1970-01-02" then Some 86400000000000 else None
                   | _ => None
                   end)
         (fun _ => "") (fun _ => "").

Lemma coercion_is_idempotent_witness :
  let f := Frame ["BirthDate"; "Gender"; "AmountPaid"]
             [[VStr "1970-01-02"; VStr " F "; VStr "10.50"]; [VStr "soon"; VStr "M"; VStr ""]] in
  let mapping := [("BirthDate", "datetime64[ns]"); ("Gender", "str"); ("AmountPaid", "float")] in
  let w1 := snd (_coerce_types pandas_dates 0%nat mapping (on_heap [f])) in
  exists r', fst (_coerce_types pandas_dates 1%nat mapping w1) = inr r'
    /\ r' <> 1%nat
    /\ heap (snd (_coerce_types pandas_dates 1%nat mapping w1)) !! r' = heap w1 !! 1%nat.
Proof.
  intros f mapping w1.
  apply (coercion_is_idempotent pandas_dates (on_heap [f]) 0%nat f mapping 1%nat).
  - split; [reflexivity|reflexivity].
  - reflexivity.
  - repeat constructor.
  - distinct.
  - distinct.
  - reflexivity.
Defined.

(** X14. The order of the mapping's entries does not matter to a call that
    returns: for a well-formed table with distinct labels and a mapping with
    distinct keys, if [_coerce_types] returns under one order of the entries
    then under any other order it returns the same reference and leaves the
    same state, the new table included, cell for cell. *)
Theorem coercion_ignores_entry_order (pd : pandas) (w : world) (df : ref) (f : frame)
    (mapping mapping' : list (string * string)) (r : ref) :
  heap w !! df = Some f -> well_formed f -> NoDup (columns f) ->
  NoDup (map fst mapping) ->
  mapping ≡ₚ mapping' ->
  fst (_coerce_types pd df mapping w) = inr r ->
  _coerce_types pd df mapping' w = _coerce_types pd df mapping w.
Proof.
  intros H Hwf Hnd Hkeys Hperm Hr.
  assert (Hkeys' : NoDup (map fst mapping')) by (by rewrite <- Hperm).
  assert (Hmem : forall x, x ∈ mapping' <-> x ∈ mapping) by (intros x; by rewrite Hperm).
  assert (Hkmem : forall l, l ∈ map fst mapping' <-> l ∈ map fst mapping)
    by (intros x; by rewrite Hperm).
  destruct (coerce_types_outcome pd w df f mapping r H Hr) as [-> Hok].
  assert (Hok' : fst (coerce_loop pd mapping' f) = inr tt).
  { apply (coerce_loop_columns pd mapping' f Hwf Hnd Hkeys').
    intros l t j Hl Hj. apply Hmem in Hl.
    by apply (proj1 (proj1 (coerce_loop_columns pd mapping f Hwf Hnd Hkeys)) Hok l t j). }
  destruct (coerce_types_columns pd w df f mapping H Hwf Hnd Hkeys Hok)
    as (Hrun & Hwf1 & Hc1 & Hl1 & Hconv1).
  destruct (coerce_types_columns pd w df f mapping' H Hwf Hnd Hkeys' Hok')
    as (Hrun' & Hwf2 & Hc2 & Hl2 & Hconv2).
  rewrite Hrun, Hrun'. do 4 f_equal.
  apply (converted_unique pd mapping f); try done.
  intros j l Hj. destruct (Hconv2 j l Hj) as [A B]. split.
  - intros t Ht. apply A. by apply Hmem.
  - intros Hn. apply B. by rewrite Hkmem.
Qed.

Lemma coercion_ignores_entry_order_witness :
  let f := Frame ["Visits"; "Region"] [[VStr "3"; VStr " north "]] in
  _coerce_types pandas_sample 0%nat [("Region", "str"); ("Visits", "int")] (on_heap [f])
  = _coerce_types pandas_sample 0%nat [("Visits", "int"); ("Region", "str")] (on_heap [f]).
Proof.
  intros f.
  apply (coercion_ignores_entry_order pandas_sample (on_heap [f]) 0%nat f
           [("Visits", "int"); ("Region", "str")] [("Region", "str"); ("Visits", "int")] 1%nat).
  - reflexivity.
  - repeat constructor.
  - distinct.
  - distinct.
  - apply perm_swap.
  - reflexivity.
Defined.

(** * The calls of a run, in full *)

(** ** Steps that work on DataFrame objects only *)

Definition heap_only {A} (m : M A) : Prop :=
  forall w, db (snd (m w)) = db w /\ calls (snd (m w)) = calls w.

Lemma heap_only_ret {A} (a : A) : heap_only (mret a : M A).
Proof. intros w. done. Qed.

Lemma heap_only_raise {A} (e : exn) : heap_only (raise e : M A).
Proof. intros w. done. Qed.

Lemma heap_only_bind {A B} (m : M A) (f : A -> M B) :
  heap_only m -> (forall a, heap_only (f a)) -> heap_only (m ≫= f).
Proof.
  intros Hm Hf w. rewrite bind_run. destruct (Hm w) as [Hd Hc].
  destruct (m w) as [[e|a] w']; cbn in *; [done|].
  destruct (Hf a w') as [Hd' Hc']. split; congruence.
Qed.

Lemma heap_only_get_heap : heap_only get_heap.
Proof. intros w. done. Qed.

Lemma heap_only_put_heap (h : list frame) : heap_only (put_heap h).
Proof. intros w. done. Qed.

Lemma heap_only_for_each {A} (xs : list A) (body : A -> M unit) :
  (forall x, heap_only (body x)) -> heap_only (for_each xs body).
Proof.
  intros Hb. induction xs as [|x xs IH]; cbn [for_each].
  - apply heap_only_ret.
  - apply heap_only_bind; [apply Hb|intros _; exact IH].
Qed.

Create HintDb heap_only.
#[local] Hint Resolve heap_only_ret heap_only_raise heap_only_get_heap heap_only_put_heap
  : heap_only.

Ltac heap_steps :=
  repeat first
    [ solve [auto with heap_only]
    | apply heap_only_bind; [|intros]
    | apply heap_only_for_each; intros
    | match goal with
      | |- heap_only (match ?x with _ => _ end) => destruct x
      | |- heap_only (if ?b then _ else _) => destruct b
      end ].

Lemma heap_only_alloc (f : frame) : heap_only (alloc f).
Proof. unfold alloc. heap_steps. Qed.

Lemma heap_only_deref (r : ref) : heap_only (deref r).
Proof. unfold deref. heap_steps. Qed.

Lemma heap_only_assign (r : ref) (f : frame) : heap_only (assign r f).
Proof. unfold assign. heap_steps. Qed.

#[local] Hint Resolve heap_only_alloc heap_only_deref heap_only_assign : heap_only.

Lemma heap_only_get_columns (df : ref) : heap_only (get_columns df).
Proof. unfold get_columns. heap_steps. Qed.

Lemma heap_only_set_columns (df : ref) (labels : list string) :
  heap_only (set_columns df labels).
Proof. unfold set_columns. heap_steps. Qed.

Lemma heap_only_getitem_list (df : ref) (labels : list string) :
  heap_only (getitem_list df labels).
Proof. unfold getitem_list. heap_steps. Qed.

Lemma heap_only_getitem (df : ref) (label : string) : heap_only (getitem df label).
Proof. unfold getitem. heap_steps. Qed.

Lemma heap_only_setitem (df : ref) (label : string) (s : list value) :
  heap_only (setitem df label s).
Proof. unfold setitem. heap_steps. Qed.

Lemma heap_only_copy (df : ref) : heap_only (copy df).
Proof. unfold copy. heap_steps. Qed.

#[local] Hint Resolve heap_only_get_columns heap_only_set_columns heap_only_getitem_list
  heap_only_getitem heap_only_setitem heap_only_copy : heap_only.

Lemma heap_only_repair (df : ref) (expected_cols : list string)
    (new_names : option (list string)) :
  heap_only (_split_single_column_csv df expected_cols new_names).
Proof. unfold _split_single_column_csv, split_block, validate_block. heap_steps. Qed.

Lemma heap_only_coerce_types (pd : pandas) (df : ref) (mapping : list (string * string)) :
  heap_only (_coerce_types pd df mapping).
Proof. unfold _coerce_types, coerce_column. heap_steps. Qed.

#[local] Hint Resolve heap_only_repair heap_only_coerce_types : heap_only.

Lemma heap_only_strip_columns (df : ref) : heap_only (strip_columns df).
Proof. unfold strip_columns. heap_steps. Qed.

Lemma heap_only_repair_if_single (df : ref) (expected : list string) :
  heap_only (repair_if_single df expected).
Proof. unfold repair_if_single. heap_steps. Qed.

#[local] Hint Resolve heap_only_strip_columns heap_only_repair_if_single : heap_only.

(** ** The script of a run *)

(** A call without the data it carries. *)
Definition shape (c : call) : call :=
  match c with
  | ToSql table_name _ => ToSql table_name []
  | UpdateRun run _ => UpdateRun run []
  | _ => c
  end.

(** A program follows the script [s] when the calls it issues are, data
    apart, those of [s] in the order of [s]: all of them when it returns,
    an initial part when it raises. *)
Definition scripted {A} (s : list call) (m : M A) : Prop :=
  forall w, exists k,
    calls (snd (m w)) = calls w ++ k
    /\ match fst (m w) with
       | inr _ => map shape k = s
       | inl _ => map shape k `prefix_of` s
       end.

Lemma scripted_heap_only {A} (m : M A) : heap_only m -> scripted [] m.
Proof.
  intros Hm w. exists []. destruct (Hm w) as [_ Hc]. rewrite app_nil_r.
  split; [exact Hc|]. by destruct (fst (m w)).
Qed.

Lemma scripted_bind {A B} (s1 s2 : list call) (m : M A) (f : A -> M B) :
  scripted s1 m -> (forall a, scripted s2 (f a)) -> scripted (s1 ++ s2) (m ≫= f).
Proof.
  intros Hm Hf w. rewrite bind_run. destruct (Hm w) as (k1 & Hc1 & Hs1).
  destruct (m w) as [[e|a] w1]; cbn [fst snd] in *.
  - exists k1. split; [exact Hc1|]. by apply prefix_app_r.
  - destruct (Hf a w1) as (k2 & Hc2 & Hs2). exists (k1 ++ k2).
    split; [by rewrite Hc2, Hc1, app_assoc|].
    rewrite map_app, Hs1.
    destruct (fst (f a w1)); [by apply prefix_app|by rewrite Hs2].
Qed.

Lemma scripted_eq {A} (s s' : list call) (m : M A) :
  scripted s m -> s = s' -> scripted s' m.
Proof. by intros H <-. Qed.

Section Script.

Context (pd : pandas) (env : environment).

Lemma scripted_external (c : call) (effect : database -> database) :
  scripted [shape c] (external env c effect).
Proof.
  intros w. exists [c]. rewrite external_run.
  destruct (fails env c); cbn [fst snd calls map]; split; reflexivity.
Qed.

Lemma scripted_transaction {A} (s : list call) (body : M A) :
  scripted s body -> scripted s (transaction body).
Proof.
  intros Hb w. destruct (Hb w) as (k & Hc & Hs). exists k. unfold transaction.
  destruct (body w) as [[e|a] w']; done.
Qed.

Lemma scripted_read (container blob_name : string) :
  scripted [ReadBlob container blob_name] (read_csv_from_blob env container blob_name).
Proof.
  intros w. exists [ReadBlob container blob_name]. unfold read_csv_from_blob.
  rewrite bind_run. cbn [emit]. destruct (blob env container blob_name);
    cbn [fst snd calls map alloc raise]; (split; [reflexivity|]); reflexivity.
Qed.

Lemma scripted_truncate :
  scripted [Truncate "StgClaim"; Truncate "StgPatient"; Truncate "StgProvider"]
           (truncate_staging env).
Proof.
  unfold truncate_staging.
  apply (scripted_bind [_] [_; _]); [apply scripted_external|intros _].
  apply (scripted_bind [_] [_]); [apply scripted_external|intros _].
  apply scripted_external.
Qed.

Lemma scripted_load (table_name : string) (df : option ref) :
  scripted [ToSql table_name []] (load_staging env table_name df).
Proof.
  unfold load_staging. destruct df as [r|].
  - apply (scripted_bind [] [_]); [apply scripted_heap_only, heap_only_deref|intros f].
    destruct (empty f); [|apply (scripted_external (ToSql table_name (rows f)))].
    intros w. exists []. rewrite app_nil_r. split; [done|]. apply prefix_nil.
  - intros w. exists []. rewrite app_nil_r. split; [done|]. apply prefix_nil.
Qed.

Lemma scripted_count (relation : string) (run : option Z) :
  scripted [SelectCount relation run] (select_count env relation run).
Proof.
  unfold select_count.
  apply (scripted_bind [_] []); [apply (scripted_external (SelectCount relation run))|intros _].
  apply scripted_heap_only. intros w. done.
Qed.

Lemma scripted_exec (proc_name : string) :
  scripted [Exec proc_name None] (exec_proc env proc_name).
Proof. apply scripted_transaction, (scripted_external (Exec proc_name None)). Qed.

(** The calls of the body of [main], data apart. *)
Definition body_script (rid : Z) : list call :=
  [ReadBlob (container env) "providers.csv";
   ReadBlob (container env) "patients.csv";
   ReadBlob (container env) "claims.csv";
   Truncate "StgClaim"; Truncate "StgPatient"; Truncate "StgProvider";
   ToSql "StgProvider" []; ToSql "StgPatient" []; ToSql "StgClaim" [];
   SelectCount "StgProvider" None; SelectCount "StgPatient" None; SelectCount "StgClaim" None;
   Exec "dbo.sp_upsert_provider" None; Exec "dbo.sp_upsert_patient" None;
   Exec "dbo.sp_upsert_claim" (Some rid);
   SelectCount "Provider" None; SelectCount "Patient" None; SelectCount "Claim" None;
   SelectCount "Reject_Claim" (Some rid);
   UpdateRun rid []; FinishRun rid "SUCCESS"; Print rid].

Ltac quiet_step :=
  apply (scripted_bind []); [apply scripted_heap_only; solve [auto with heap_only]|intros ?].

Lemma main_body_scripted (rid : Z) : scripted (body_script rid) (main_body pd env rid).
Proof.
  unfold main_body, body_script.
  apply (scripted_bind [_]); [apply scripted_read|intros providers].
  apply (scripted_bind [_]); [apply scripted_read|intros patients].
  apply (scripted_bind [_]); [apply scripted_read|intros claims].
  do 9 quiet_step.
  apply (scripted_bind [_; _; _]); [apply scripted_transaction, scripted_truncate|intros _].
  quiet_step. apply (scripted_bind [_]); [apply scripted_load|intros _].
  quiet_step. apply (scripted_bind [_]); [apply scripted_load|intros _].
  quiet_step. apply (scripted_bind [_]); [apply scripted_load|intros _].
  apply (scripted_bind [_; _; _]).
  { apply scripted_transaction.
    apply (scripted_bind [_] [_; _]); [apply scripted_count|intros p].
    apply (scripted_bind [_] [_]); [apply scripted_count|intros t].
    apply (scripted_bind [_] []); [apply scripted_count|intros c].
    apply scripted_heap_only, heap_only_ret. }
  intros stg_counts.
  apply (scripted_bind [_]); [apply scripted_exec|intros _].
  apply (scripted_bind [_]); [apply scripted_exec|intros _].
  apply (scripted_bind [_]);
    [apply scripted_transaction, (scripted_external (Exec _ (Some rid)))|intros _].
  apply (scripted_bind [_; _; _; _]).
  { apply scripted_transaction.
    apply (scripted_bind [_] [_; _; _]); [apply scripted_count|intros p].
    apply (scripted_bind [_] [_; _]); [apply scripted_count|intros t].
    apply (scripted_bind [_] [_]); [apply scripted_count|intros c].
    apply (scripted_bind [_] []); [apply scripted_count|intros r].
    apply scripted_heap_only, heap_only_ret. }
  intros [final_counts reject_total].
  apply (scripted_bind [_]).
  { unfold update_run_counts. cbn zeta.
    apply scripted_transaction, (scripted_external (UpdateRun rid _)). }
  intros _.
  apply (scripted_bind [_] [_]).
  { unfold finish_run. apply scripted_transaction, (scripted_external (FinishRun rid _)). }
  intros _. apply (scripted_external (Print rid)).
Qed.

End Script.

Lemma main_script (pd : pandas) (env : environment) (h : list frame) (d : database) :
  let rid := next_RunID d in
  let run := main pd env (World h d []) in
  exists k,
    map shape k `prefix_of` body_script env rid
    /\ match fst run with
       | inr _ => calls (snd run) = InsertRun :: k /\ map shape k = body_script env rid
       | inl _ => (calls (snd run) = [InsertRun] /\ fails env InsertRun = true)
                  \/ (calls (snd run) = InsertRun :: k ++ [FinishRun rid "FAILED"]
                      /\ fails env InsertRun = false)
       end.
Proof.
  intros rid run. subst run. rewrite main_run. cbn [heap db calls app].
  destruct (fails env InsertRun) eqn:F0.
  { exists []. split; [apply prefix_nil|]. by left. }
  destruct (main_body_scripted pd env rid (started env (World h d []))) as (k & Hc & Hs).
  exists k. fold rid.
  destruct (main_body pd env rid (started env (World h d []))) as [[e|a] w'];
    cbn [fst snd] in *.
  - split; [exact Hs|]. rewrite settle_raised.
    destruct (fails env (finish_failed rid)); cbn [fst snd calls]; right;
      (split; [|reflexivity]); rewrite Hc; reflexivity.
  - cbn [settle fst snd]. split; [by rewrite Hs|]. split; [exact Hc|exact Hs].
Qed.

(** X15. The calls of a run follow one script.  Data apart (the rows of a
    bulk insert, the numbers of the count update), every run of [main]
    issues [INSERT INTO ETL_Run] and then an initial part of: the three
    reads (providers, patients, claims), the three truncations (claim,
    patient, provider), the three bulk inserts (provider, patient, claim),
    the three staging counts, the three merges, the four final counts, the
    count update, the SUCCESS finalization, the message; all of it when
    [main] returns, and followed by [finish_run(run_id, "FAILED")] and
    nothing else when [main] raises after the run row was inserted. *)
Theorem main_follows_script (pd : pandas) (env : environment) (h : list frame)
    (d : database) :
  let rid := next_RunID d in
  let run := main pd env (World h d []) in
  exists k,
    map shape k `prefix_of` body_script env rid
    /\ match fst run with
       | inr _ => calls (snd run) = InsertRun :: k /\ map shape k = body_script env rid
       | inl _ => (calls (snd run) = [InsertRun] /\ fails env InsertRun = true)
                  \/ (calls (snd run) = InsertRun :: k ++ [FinishRun rid "FAILED"]
                      /\ fails env InsertRun = false)
       end.
Proof. exact (main_script pd env h d). Qed.

(** ** What changes the relations *)

(** The calls that write to a staging or a final relation. *)
Definition is_data (c : call) : bool :=
  match c with
  | Truncate _ | ToSql _ _ | Exec _ _ => true
  | _ => false
  end.

Lemma is_data_shape (c : call) : is_data (shape c) = is_data c.
Proof. by destruct c. Qed.

(** A program is tidy when it only adds to the calls and, unless one of
    them writes to a relation, leaves the staging and final relations as
    they were. *)
Definition tidy {A} (m : M A) : Prop :=
  forall w, exists k,
    calls (snd (m w)) = calls w ++ k
    /\ (Forall (fun c => is_data c = false) k ->
        staging (db (snd (m w))) = staging (db w)
        /\ final (db (snd (m w))) = final (db w)).

Lemma tidy_heap_only {A} (m : M A) : heap_only m -> tidy m.
Proof.
  intros Hm w. exists []. destruct (Hm w) as [Hd Hc]. rewrite app_nil_r, Hd. done.
Qed.

Lemma tidy_bind {A B} (m : M A) (f : A -> M B) :
  tidy m -> (forall a, tidy (f a)) -> tidy (m ≫= f).
Proof.
  intros Hm Hf w. rewrite bind_run. destruct (Hm w) as (k1 & Hc1 & Hd1).
  destruct (m w) as [[e|a] w1]; cbn [fst snd] in *; [by exists k1|].
  destruct (Hf a w1) as (k2 & Hc2 & Hd2). exists (k1 ++ k2).
  split; [by rewrite Hc2, Hc1, app_assoc|].
  intros Hk. apply Forall_app in Hk as [Hk1 Hk2].
  destruct (Hd1 Hk1) as [<- <-]. by apply Hd2.
Qed.

Lemma tidy_try_except {A} (m : M A) (handler : exn -> M A) :
  tidy m -> (forall e, tidy (handler e)) -> tidy (try_except m handler).
Proof.
  intros Hm Hh w. unfold try_except. destruct (Hm w) as (k1 & Hc1 & Hd1).
  destruct (m w) as [[e|a] w1]; cbn [fst snd] in *; [|by exists k1].
  destruct (Hh e w1) as (k2 & Hc2 & Hd2). exists (k1 ++ k2).
  split; [by rewrite Hc2, Hc1, app_assoc|].
  intros Hk. apply Forall_app in Hk as [Hk1 Hk2].
  destruct (Hd1 Hk1) as [<- <-]. by apply Hd2.
Qed.

Section Tidy.

Context (pd : pandas) (env : environment).

Lemma tidy_transaction {A} (body : M A) : tidy body -> tidy (transaction body).
Proof.
  intros Hb w. destruct (Hb w) as (k & Hc & Hd). exists k. unfold transaction.
  destruct (body w) as [[e|a] w']; cbn [fst snd calls db] in *; done.
Qed.

Lemma tidy_external (c : call) (effect : database -> database) :
  (is_data c = false ->
   forall d, staging (effect d) = staging d /\ final (effect d) = final d) ->
  tidy (external env c effect).
Proof.
  intros He w. exists [c]. rewrite external_run.
  destruct (fails env c); cbn [fst snd calls db]; (split; [reflexivity|]);
    intros Hk; [split; reflexivity|]; apply Forall_cons in Hk as [Hk _]; exact (He Hk (db w)).
Qed.

Lemma tidy_read (container blob_name : string) :
  tidy (read_csv_from_blob env container blob_name).
Proof.
  intros w. exists [ReadBlob container blob_name]. unfold read_csv_from_blob.
  rewrite bind_run. cbn [emit]. destruct (blob env container blob_name);
    cbn [fst snd calls db alloc raise]; (split; [reflexivity|]); intros _; split; reflexivity.
Qed.

Lemma tidy_truncate : tidy (truncate_staging env).
Proof.
  unfold truncate_staging. do 2 (apply tidy_bind; [apply tidy_external; discriminate|intros _]).
  apply tidy_external; discriminate.
Qed.

Lemma tidy_load (table_name : string) (df : option ref) :
  tidy (load_staging env table_name df).
Proof.
  unfold load_staging. destruct df as [r|]; [|apply tidy_heap_only, heap_only_raise].
  apply tidy_bind; [apply tidy_heap_only, heap_only_deref|intros f].
  destruct (empty f); [apply tidy_heap_only, heap_only_raise|].
  apply tidy_external; discriminate.
Qed.

Lemma tidy_count (relation : string) (run : option Z) :
  tidy (select_count env relation run).
Proof.
  unfold select_count. apply tidy_bind; [by apply tidy_external|intros _].
  apply tidy_heap_only. intros w. done.
Qed.

Lemma tidy_exec (proc_name : string) : tidy (exec_proc env proc_name).
Proof. apply tidy_transaction, tidy_external. discriminate. Qed.

Lemma tidy_update_run_counts (rid : Z) (stg_counts final_counts : list (string * Z))
    (reject_total : Z) :
  tidy (update_run_counts env rid stg_counts final_counts reject_total).
Proof. unfold update_run_counts. cbn zeta. by apply tidy_transaction, tidy_external. Qed.

Lemma tidy_finish_run (rid : Z) (status : string) : tidy (finish_run env rid status).
Proof. unfold finish_run. by apply tidy_transaction, tidy_external. Qed.

Lemma tidy_start_run : tidy (start_run env).
Proof.
  unfold start_run. apply tidy_transaction.
  apply tidy_bind; [apply tidy_heap_only; intros w; done|intros d].
  apply tidy_bind; [by apply tidy_external|intros _].
  apply tidy_heap_only, heap_only_ret.
Qed.

Ltac tidy_steps :=
  repeat first
    [ apply tidy_heap_only; solve [auto with heap_only]
    | apply tidy_read | apply tidy_load | apply tidy_count | apply tidy_exec
    | apply tidy_update_run_counts | apply tidy_finish_run
    | apply tidy_transaction
    | apply tidy_truncate
    | apply tidy_external; (discriminate || done)
    | apply tidy_bind; [|intros ?]
    | match goal with
      | |- tidy (let '(_, _) := ?x in _) => destruct x
      end ].

Lemma tidy_main_body (rid : Z) : tidy (main_body pd env rid).
Proof. unfold main_body. tidy_steps. Qed.

Lemma tidy_main : tidy (main pd env).
Proof.
  unfold main. apply tidy_bind; [apply tidy_start_run|intros rid].
  apply tidy_try_except; [apply tidy_main_body|intros e].
  apply tidy_bind; [apply tidy_finish_run|intros _].
  apply tidy_heap_only, heap_only_raise.
Qed.

End Tidy.

(** In a run, a call that writes to a relation comes after the first
    truncation. *)
Lemma data_calls_after_truncation (script_tail k : list call) (c1 c2 c3 : call) :
  is_data c1 = false -> is_data c2 = false -> is_data c3 = false ->
  map shape k `prefix_of` c1 :: c2 :: c3 :: Truncate "StgClaim" :: script_tail ->
  Truncate "StgClaim" ∉ k ->
  Forall (fun c => is_data c = false) k.
Proof.
  intros D1 D2 D3 [rest Heq] Hnot.
  destruct k as [|a1 [|a2 [|a3 [|a4 k']]]]; cbn in Heq.
  - constructor.
  - injection Heq as E1 _. repeat constructor. by rewrite <- is_data_shape, <- E1.
  - injection Heq as E1 E2 _. repeat constructor; rewrite <- is_data_shape; congruence.
  - injection Heq as E1 E2 E3 _. repeat constructor; rewrite <- is_data_shape; congruence.
  - injection Heq as _ _ _ E4 _. exfalso. apply Hnot.
    do 3 apply list_elem_of_further. destruct a4; try discriminate E4.
    cbn in E4. rewrite E4. apply list_elem_of_here.
Qed.

(** X16. A run that ends without having issued the first truncation (the
    run row could not be inserted, a blob could not be read, the repair or
    the coercion raised) has written to no staging and no final relation:
    both are as they were before the run, no bulk insert and no merge was
    attempted, and [main] raised. *)
Theorem early_failure_leaves_warehouse (pd : pandas) (env : environment) (h : list frame)
    (d : database) :
  let run := main pd env (World h d []) in
  Truncate "StgClaim" ∉ calls (snd run) ->
  (exists e, fst run = inl e)
  /\ staging (db (snd run)) = staging d
  /\ final (db (snd run)) = final d
  /\ forall c, c ∈ calls (snd run) -> is_data c = false.
Proof.
  intros run Hnot.
  destruct (main_script pd env h d) as (k & Hs & Hrun). fold run in Hrun.
  destruct (tidy_main pd env (World h d [])) as (k0 & Hc0 & Hd0).
  fold run in Hc0, Hd0. cbn [calls db app] in Hc0, Hd0.
  assert (Hquiet : Forall (fun c => is_data c = false) (calls (snd run))).
  { destruct (fst run) as [e|a].
    - destruct Hrun as [[Hc _]|[Hc _]]; rewrite Hc in *.
      + by repeat constructor.
      + constructor; [reflexivity|]. apply Forall_app. split; [|by repeat constructor].
        eapply data_calls_after_truncation; [| | |exact Hs|]; try reflexivity.
        intros Hin. apply Hnot. right. apply elem_of_app. by left.
    - destruct Hrun as [Hc Heq]. rewrite Hc in *. constructor; [reflexivity|].
      eapply data_calls_after_truncation; [| | |exact Hs|]; try reflexivity.
      intros Hin. apply Hnot. by right. }
  split.
  { destruct (fst run) as [e|a]; [by eexists|]. exfalso.
    destruct Hrun as [Hc Heq]. apply Hnot. rewrite Hc.
    destruct k as [|a1 [|a2 [|a3 [|a4 k']]]]; try discriminate Heq.
    injection Heq as _ _ _ E4 _. do 4 apply list_elem_of_further.
    destruct a4; try discriminate E4. cbn in E4. rewrite E4. apply list_elem_of_here. }
  rewrite <- Hc0 in Hd0. destruct (Hd0 Hquiet) as [Hst Hfi].
  split; [exact Hst|]. split; [exact Hfi|].
  intros c Hc. by apply (proj1 (Forall_forall _ _) Hquiet).
Qed.

(** An environment in which the claims blob cannot be read. *)
Definition env_without_claims : environment :=
  Environment (fun container blob_name =>
                 if String.eqb blob_name "claims.csv" then None
                 else blobs_sample container blob_name)
              nothing_fails "landing" run_defaults_sample (fun _ _ _ ft => ft).

Lemma early_failure_leaves_warehouse_witness :
  let run := main pandas_sample env_without_claims (on_heap []) in
  fst run = inl (ExternalError (ReadBlob "landing" "claims.csv"))
  /\ staging (db (snd run)) = ∅
  /\ final (db (snd run)) = FinalTables [] [] [] [].
Proof.
  intros run.
  assert (Hcalls : calls (snd run)
                   = [InsertRun; ReadBlob "landing" "providers.csv";
                      ReadBlob "landing" "patients.csv"; ReadBlob "landing" "claims.csv";
                      FinishRun 1 "FAILED"]) by (vm_compute; reflexivity).
  assert (Hres : fst run = inl (ExternalError (ReadBlob "landing" "claims.csv")))
    by (vm_compute; reflexivity).
  destruct (early_failure_leaves_warehouse pandas_sample env_without_claims [] empty_db)
    as (_ & Hs & Hf & _).
  - change (Truncate "StgClaim" ∉ calls (snd run)). rewrite Hcalls.
    rewrite !not_elem_of_cons. repeat split; try discriminate. apply not_elem_of_nil.
  - split; [exact Hres|]. split; [exact Hs|exact Hf].
Defined.

(** ** The truncation of the staging tables *)

(** X17. [truncate_staging] inside [with engine.begin()], as [main] calls
    it, is all or nothing.  It returns exactly when none of the three
    TRUNCATE statements fails; then the three statements were issued in the
    order claim, patient, provider, the three staging relations are empty
    and every other relation, the final tables and the run ledger are as
    before.  When one statement fails, it is the last call issued, its error
    is raised, and the database is as it was before the first statement,
    truncations that had gone through included. *)
Theorem truncation_is_all_or_nothing (env : environment) (w : world) :
  let run := transaction (truncate_staging env) w in
  let t1 := Truncate "StgClaim" in
  let t2 := Truncate "StgPatient" in
  let t3 := Truncate "StgProvider" in
  (fst run = inr tt <->
   fails env t1 = false /\ fails env t2 = false /\ fails env t3 = false)
  /\ (fst run = inr tt ->
      calls (snd run) = calls w ++ [t1; t2; t3]
      /\ staging (db (snd run))
         = <["StgProvider" := []]> (<["StgPatient" := []]> (<["StgClaim" := []]>
             (staging (db w))))
      /\ relation_of "StgClaim" (db (snd run)) = []
      /\ relation_of "StgPatient" (db (snd run)) = []
      /\ relation_of "StgProvider" (db (snd run)) = []
      /\ final (db (snd run)) = final (db w)
      /\ ETL_Run (db (snd run)) = ETL_Run (db w))
  /\ (forall e, fst run = inl e ->
        db (snd run) = db w
        /\ exists before t, e = ExternalError t /\ fails env t = true
             /\ calls (snd run) = calls w ++ before ++ [t]
             /\ before ++ [t] `prefix_of` [t1; t2; t3]
             /\ Forall (fun c => fails env c = false) before).
Proof.
  intros run t1 t2 t3. subst run. unfold transaction, truncate_staging.
  rewrite bind_run, external_run. fold t1.
  destruct (fails env t1) eqn:F1.
  { cbn [fst snd db calls]. split; [split; [discriminate|intros (? & _); discriminate]|].
    split; [discriminate|]. intros e [= <-]. split; [reflexivity|].
    exists [], t1. split; [reflexivity|]. split; [exact F1|]. split; [reflexivity|].
    split; [by exists [t2; t3]|constructor]. }
  rewrite bind_run, external_run. fold t2.
  destruct (fails env t2) eqn:F2.
  { cbn [fst snd db calls]. split; [split; [discriminate|intros (_ & ? & _); discriminate]|].
    split; [discriminate|]. intros e [= <-]. split; [reflexivity|].
    exists [t1], t2. split; [reflexivity|]. split; [exact F2|].
    split; [by rewrite <- app_assoc|]. split; [by exists [t3]|by repeat constructor]. }
  rewrite external_run. fold t3.
  destruct (fails env t3) eqn:F3.
  { cbn [fst snd db calls]. split; [split; [discriminate|intros (_ & _ & ?); discriminate]|].
    split; [discriminate|]. intros e [= <-]. split; [reflexivity|].
    exists [t1; t2], t3. split; [reflexivity|]. split; [exact F3|].
    split; [by rewrite <- !app_assoc|]. split; [by exists []|by repeat constructor]. }
  cbn [fst snd db calls heap]. split; [done|]. split; [|discriminate].
  intros _. split; [by rewrite <- !app_assoc|].
  split; [reflexivity|]. unfold relation_of. cbn [staging set_staging].
  split; [by rewrite lookup_insert_ne, lookup_insert_ne, lookup_insert_eq|].
  split; [by rewrite lookup_insert_ne, lookup_insert_eq|].
  split; [by rewrite lookup_insert_eq|]. done.
Qed.

(** * A run on files that parsed into columns *)

Lemma bind_assoc_run {A B C} (m : M A) (f : A -> M B) (g : B -> M C) (w : world) :
  ((m ≫= f) ≫= g) w = (m ≫= (fun a => f a ≫= g)) w.
Proof. rewrite !bind_run. by destruct (m w) as [[e|a] w']. Qed.

Lemma bind_ext_run {A B} (m : M A) (f g : A -> M B) (w : world) :
  (forall a w', f a w' = g a w') -> (m ≫= f) w = (m ≫= g) w.
Proof. intros H. rewrite !bind_run. destruct (m w) as [[e|a] w']; [done|apply H]. Qed.

Section Phases.

Context (pd : pandas) (env : environment).

(** Steps 1 and 2 of [main]: read the three blobs, strip the labels, repair
    one-column tables, coerce the types. *)
Definition prepare : M (ref * ref * ref) :=
  providers ← read_csv_from_blob env (container env) "providers.csv";
  patients ← read_csv_from_blob env (container env) "patients.csv";
  claims ← read_csv_from_blob env (container env) "claims.csv";
  _ ← strip_columns providers;
  _ ← strip_columns patients;
  _ ← strip_columns claims;
  providers ← repair_if_single providers provider_cols;
  patients ← repair_if_single patients patient_cols;
  claims ← repair_if_single claims claim_cols;
  providers ← _coerce_types pd providers provider_types;
  patients ← _coerce_types pd patients patient_types;
  claims ← _coerce_types pd claims claim_types;
  mret (providers, patients, claims).

(** Step 3: truncate, then select and load the three tables. *)
Definition stage (providers patients claims : ref) : M unit :=
  _ ← transaction (truncate_staging env);
  sel ← getitem_list providers provider_cols;
  _ ← load_staging env "StgProvider" (Some sel);
  sel ← getitem_list patients patient_cols;
  _ ← load_staging env "StgPatient" (Some sel);
  sel ← getitem_list claims claim_cols;
  load_staging env "StgClaim" (Some sel).

(** The rest of the body: counts, merges, counts, ledger, message. *)
Definition merge_and_record (rid : Z) : M unit :=
  stg_counts ← transaction
    (p ← select_count env "StgProvider" None;
     t ← select_count env "StgPatient" None;
     c ← select_count env "StgClaim" None;
     mret [("provider", p); ("patient", t); ("claim", c)]);
  _ ← exec_proc env "dbo.sp_upsert_provider";
  _ ← exec_proc env "dbo.sp_upsert_patient";
  _ ← transaction
    (external env (Exec "dbo.sp_upsert_claim" (Some rid))
       (fun d => set_final
          (procedure env "dbo.sp_upsert_claim" (Some rid) (staging d) (final d)) d));
  '(final_counts, reject_total) ← transaction
    (p ← select_count env "Provider" None;
     t ← select_count env "Patient" None;
     c ← select_count env "Claim" None;
     r ← select_count env "Reject_Claim" (Some rid);
     mret ([("provider", p); ("patient", t); ("claim", c)], r));
  _ ← update_run_counts env rid stg_counts final_counts reject_total;
  _ ← finish_run env rid "SUCCESS";
  external env (Print rid) id.

(** The body of [main] is these three phases, one after the other. *)
Lemma main_body_phases (rid : Z) (w : world) :
  main_body pd env rid w
  = ('(providers, patients, claims) ← prepare;
     _ ← stage providers patients claims;
     merge_and_record rid) w.
Proof.
  unfold main_body, prepare. symmetry.
  do 12 (rewrite bind_assoc_run; apply bind_ext_run; intros ? ?).
  rewrite bind_run. cbn [mret M_ret]. unfold stage.
  do 6 (rewrite bind_assoc_run; apply bind_ext_run; intros ? ?).
  reflexivity.
Qed.


(** A table as the parser delivers it when the file has several columns
    with distinct names. *)
Definition parsed (f : frame) : Prop :=
  length (columns f) <> 1%nat /\ NoDup (map Text.strip (columns f)).

(** What the coercion makes of such a table, labels stripped. *)
Definition coerced (mapping : list (string * string)) (f : frame) : frame :=
  snd (coerce_loop pd mapping (stripped f)).

Lemma read_csv_run (container blob_name : string) (f : frame) (w : world) :
  blob env container blob_name = Some f ->
  read_csv_from_blob env container blob_name w
  = (inr (length (heap w)),
     World (heap w ++ [f]) (db w) (calls w ++ [ReadBlob container blob_name])).
Proof. intros H. unfold read_csv_from_blob. rewrite bind_run. cbn [emit]. by rewrite H. Qed.

Lemma strip_columns_run (w : world) (r : ref) (f : frame) :
  heap w !! r = Some f ->
  strip_columns r w = (inr tt, World (<[r := stripped f]> (heap w)) (db w) (calls w)).
Proof.
  intros H. unfold strip_columns.
  rewrite bind_run, (get_columns_run _ _ _ H).
  apply (set_columns_run w r f _ H), length_map.
Qed.

Lemma repair_if_single_skips (w : world) (r : ref) (f : frame) (expected : list string) :
  heap w !! r = Some f -> length (columns f) <> 1%nat ->
  repair_if_single r expected w = (inr r, w).
Proof.
  intros H Hn. unfold repair_if_single. rewrite bind_run, (get_columns_run _ _ _ H).
  apply Nat.eqb_neq in Hn. by rewrite Hn.
Qed.

Lemma coerce_parsed_run (w : world) (r : ref) (f : frame) (mapping : list (string * string)) :
  heap w !! r = Some (stripped f) -> parsed f ->
  (forall col target, (col, target) ∈ mapping -> target <> "int") ->
  _coerce_types pd r mapping w
  = (inr (length (heap w)), World (heap w ++ [coerced mapping f]) (db w) (calls w)).
Proof.
  intros H [_ Hnd] Hint. rewrite (coerce_types_run pd mapping w r _ H).
  by rewrite (coerce_loop_returns pd mapping (stripped f) Hnd Hint).
Qed.

Lemma no_int_target (mapping : list (string * string)) :
  forallb (fun entry => negb (String.eqb (snd entry) "int")) mapping = true ->
  forall col target, (col, target) ∈ mapping -> target <> "int".
Proof.
  intros Hall col target Hin ->. rewrite forallb_forall in Hall.
  apply list_elem_of_In in Hin. by specialize (Hall _ Hin).
Qed.

Lemma prepare_run (d : database) (cs : list call) (fp ft fc : frame) :
  blob env (container env) "providers.csv" = Some fp ->
  blob env (container env) "patients.csv" = Some ft ->
  blob env (container env) "claims.csv" = Some fc ->
  parsed fp -> parsed ft -> parsed fc ->
  prepare (World [] d cs)
  = (inr (3, 4, 5)%nat,
     World [stripped fp; stripped ft; stripped fc;
            coerced provider_types fp; coerced patient_types ft; coerced claim_types fc]
           d
           (cs ++ [ReadBlob (container env) "providers.csv";
                   ReadBlob (container env) "patients.csv";
                   ReadBlob (container env) "claims.csv"])).
Proof.
  intros Bp Bt Bc Pp Pt Pc. unfold prepare.
  rewrite bind_run, (read_csv_run _ _ _ _ Bp). cbn [heap db calls length app].
  rewrite bind_run, (read_csv_run _ _ _ _ Bt). cbn [heap db calls length app].
  rewrite bind_run, (read_csv_run _ _ _ _ Bc). cbn [heap db calls length app].
  rewrite bind_run, (strip_columns_run _ 0%nat fp) by reflexivity. cbn [heap db calls].
  rewrite bind_run, (strip_columns_run _ 1%nat ft) by reflexivity. cbn [heap db calls].
  rewrite bind_run, (strip_columns_run _ 2%nat fc) by reflexivity. cbn [heap db calls].
  cbn [insert list_insert].
  rewrite bind_run, (repair_if_single_skips _ 0%nat (stripped fp))
    by (first [reflexivity|cbn; rewrite length_map; apply Pp]).
  rewrite bind_run, (repair_if_single_skips _ 1%nat (stripped ft))
    by (first [reflexivity|cbn; rewrite length_map; apply Pt]).
  rewrite bind_run, (repair_if_single_skips _ 2%nat (stripped fc))
    by (first [reflexivity|cbn; rewrite length_map; apply Pc]).
  rewrite bind_run, (coerce_parsed_run _ 0%nat fp)
    by (first [reflexivity|exact Pp|by apply no_int_target]).
  cbn [heap db calls length app].
  rewrite bind_run, (coerce_parsed_run _ 1%nat ft)
    by (first [reflexivity|exact Pt|by apply no_int_target]).
  cbn [heap db calls length app].
  rewrite bind_run, (coerce_parsed_run _ 2%nat fc)
    by (first [reflexivity|exact Pc|by apply no_int_target]).
  cbn [heap db calls length app].
  rewrite <- !app_assoc. reflexivity.
Qed.


(** The database after the three truncations. *)
Definition truncated (d : database) : database :=
  set_staging (<["StgProvider" := []]> (<["StgPatient" := []]> (<["StgClaim" := []]>
                 (staging d)))) d.

Lemma truncate_run (w : world) :
  fails env (Truncate "StgClaim") = false ->
  fails env (Truncate "StgPatient") = false ->
  fails env (Truncate "StgProvider") = false ->
  transaction (truncate_staging env) w
  = (inr tt,
     World (heap w) (truncated (db w))
           (calls w ++ [Truncate "StgClaim"; Truncate "StgPatient"; Truncate "StgProvider"])).
Proof.
  intros F1 F2 F3. unfold transaction, truncate_staging.
  rewrite bind_run, external_run, F1, bind_run, external_run, F2, external_run, F3.
  cbn [heap db calls]. by rewrite <- !app_assoc.
Qed.

Lemma select_match (labels : list string) (f : frame) :
  select labels f
  = match missing_from labels (columns f) with
    | [] => inr (projection labels f)
    | (_ :: _) as absent => inl (KeyError absent)
    end.
Proof. reflexivity. Qed.


Lemma load_staging_run (table_name : string) (w : world) (r : ref) (f : frame) :
  heap w !! r = Some f -> empty f = false ->
  fails env (ToSql table_name (rows f)) = false ->
  load_staging env table_name (Some r) w
  = (inr tt,
     World (heap w)
           (set_staging (<[table_name := relation_of table_name (db w) ++ rows f]>
                           (staging (db w))) (db w))
           (calls w ++ [ToSql table_name (rows f)])).
Proof.
  intros H He Hf. unfold load_staging.
  by rewrite bind_run, (deref_run _ _ _ H), He, external_run, Hf.
Qed.

Lemma select_count_run (relation : string) (run : option Z) (w : world) :
  fails env (SelectCount relation run) = false ->
  select_count env relation run w
  = (inr (count_of relation run (db w)),
     World (heap w) (db w) (calls w ++ [SelectCount relation run])).
Proof.
  intros Hf. unfold select_count. rewrite bind_run, external_run, Hf. reflexivity.
Qed.

Lemma transaction_returns {A} (body : M A) (w w' : world) (a : A) :
  body w = (inr a, w') -> transaction body w = (inr a, w').
Proof. intros H. unfold transaction. by rewrite H. Qed.

Lemma coerced_columns (mapping : list (string * string)) (f : frame) :
  columns (coerced mapping f) = map Text.strip (columns f).
Proof. unfold coerced. by destruct (coerce_loop_shape pd mapping (stripped f)) as [-> _]. Qed.

Lemma coerced_rows_length (mapping : list (string * string)) (f : frame) :
  length (rows (coerced mapping f)) = length (rows f).
Proof. unfold coerced. by destruct (coerce_loop_shape pd mapping (stripped f)) as (_ & -> & _). Qed.

(** What is sent to a staging table: the required columns of the coerced
    table. *)
Definition loaded (cols : list string) (mapping : list (string * string)) (f : frame) : frame :=
  projection cols (coerced mapping f).

Lemma loaded_rows_length (cols : list string) (mapping : list (string * string)) (f : frame) :
  length (rows (loaded cols mapping f)) = length (rows f).
Proof. unfold loaded. by rewrite projection_rows_length, coerced_rows_length. Qed.

Lemma loaded_not_empty (cols : list string) (mapping : list (string * string)) (f : frame) :
  cols <> [] -> rows f <> [] ->
  (forall c, c ∈ cols -> c ∈ map Text.strip (columns f)) ->
  empty (loaded cols mapping f) = false.
Proof.
  intros Hc Hr Hall. unfold empty.
  destruct (rows (loaded cols mapping f)) as [|r rs] eqn:Er.
  { exfalso. apply Hr. apply length_zero_iff_nil.
    by rewrite <- (loaded_rows_length cols mapping f), Er. }
  destruct (columns (loaded cols mapping f)) as [|l ls] eqn:Ec; [|reflexivity].
  exfalso. destruct cols as [|c cols]; [done|].
  assert (Hin : c ∈ columns (loaded (c :: cols) mapping f)).
  { apply projection_labels; [|by left].
    apply missing_from_nil. by rewrite coerced_columns. }
  rewrite Ec in Hin. inversion Hin.
Qed.




(** The database after a staging phase in which every call went through. *)
Definition staged (lp lt lc : frame) (d : database) : database :=
  set_staging (<["StgClaim" := rows lc]> (<["StgPatient" := rows lt]>
                 (<["StgProvider" := rows lp]> (staging (truncated d))))) d.

Lemma stage_run (a0 a1 a2 cp ct cc : frame) (d : database) (cs : list call)
    (lp lt lc : frame) :
  (forall c, fails env c = false) ->
  select provider_cols cp = inr lp -> empty lp = false ->
  select patient_cols ct = inr lt -> empty lt = false ->
  select claim_cols cc = inr lc -> empty lc = false ->
  stage 3%nat 4%nat 5%nat (World [a0; a1; a2; cp; ct; cc] d cs)
  = (inr tt,
     World [a0; a1; a2; cp; ct; cc; lp; lt; lc] (staged lp lt lc d)
           (cs ++ [Truncate "StgClaim"; Truncate "StgPatient"; Truncate "StgProvider";
                   ToSql "StgProvider" (rows lp); ToSql "StgPatient" (rows lt);
                   ToSql "StgClaim" (rows lc)])).
Proof.
  intros Hf Sp Ep St Et Sc Ec. unfold stage.
  rewrite bind_run, (truncate_run _ (Hf _) (Hf _) (Hf _)). cbn [heap db calls].
  rewrite bind_run, (getitem_list_run _ 3%nat cp lp) by (reflexivity || exact Sp).
  cbn [heap db calls length app].
  rewrite bind_run, (load_staging_run _ _ 6%nat lp) by (reflexivity || exact Ep || apply Hf).
  cbn [heap db calls length app].
  rewrite bind_run, (getitem_list_run _ 4%nat ct lt) by (reflexivity || exact St).
  cbn [heap db calls length app].
  rewrite bind_run, (load_staging_run _ _ 7%nat lt) by (reflexivity || exact Et || apply Hf).
  cbn [heap db calls length app].
  rewrite bind_run, (getitem_list_run _ 5%nat cc lc) by (reflexivity || exact Sc).
  cbn [heap db calls length app].
  rewrite (load_staging_run _ _ 8%nat lc) by (reflexivity || exact Ec || apply Hf).
  cbn [heap db calls length app].
  f_equal. f_equal.
  - unfold staged, truncated, relation_of. cbn [staging set_staging final ETL_Run next_RunID utc_now].
    repeat (rewrite !lookup_insert_eq || rewrite lookup_insert_ne by done).
    reflexivity.
  - by rewrite <- !app_assoc.
Qed.


(** The database after the three merges, and after the ledger was written. *)
Definition merged (rid : Z) (d : database) : database :=
  set_final
    (procedure env "dbo.sp_upsert_claim" (Some rid) (staging d)
       (procedure env "dbo.sp_upsert_patient" None (staging d)
          (procedure env "dbo.sp_upsert_provider" None (staging d) (final d)))) d.

Definition tally_of (rid : Z) (d : database) : list Z :=
  [count_of "StgProvider" None d; count_of "StgPatient" None d; count_of "StgClaim" None d;
   count_of "Provider" None (merged rid d); count_of "Patient" None (merged rid d);
   count_of "Claim" None (merged rid d); count_of "Reject_Claim" (Some rid) (merged rid d)].

Definition recorded (rid : Z) (d : database) : database :=
  update_where rid (with_end (utc_now d) "SUCCESS")
    (update_where rid
       (with_counts
          (count_of "StgProvider" None d) (count_of "StgPatient" None d)
          (count_of "StgClaim" None d)
          (count_of "Provider" None (merged rid d)) (count_of "Patient" None (merged rid d))
          (count_of "Claim" None (merged rid d))
          (count_of "Reject_Claim" (Some rid) (merged rid d)))
       (merged rid d)).

Lemma merge_and_record_run (rid : Z) (w : world) :
  (forall c, fails env c = false) ->
  merge_and_record rid w
  = (inr tt,
     World (heap w) (recorded rid (db w))
           (calls w ++ [SelectCount "StgProvider" None; SelectCount "StgPatient" None;
                        SelectCount "StgClaim" None;
                        Exec "dbo.sp_upsert_provider" None; Exec "dbo.sp_upsert_patient" None;
                        Exec "dbo.sp_upsert_claim" (Some rid);
                        SelectCount "Provider" None; SelectCount "Patient" None;
                        SelectCount "Claim" None; SelectCount "Reject_Claim" (Some rid);
                        UpdateRun rid (tally_of rid (db w));
                        FinishRun rid "SUCCESS"; Print rid])).
Proof.
  intros Hf. destruct w as [h d cs]. unfold merge_and_record.
  rewrite bind_run.
  erewrite transaction_returns.
  2:{ rewrite bind_run, select_count_run by apply Hf. cbn [heap db calls].
      rewrite bind_run, select_count_run by apply Hf. cbn [heap db calls].
      rewrite bind_run, select_count_run by apply Hf. cbn [heap db calls].
      reflexivity. }
  unfold exec_proc.
  rewrite bind_run, call_run, Hf. cbn [heap db calls].
  rewrite bind_run, call_run, Hf. cbn [heap db calls].
  rewrite bind_run, call_run, Hf. cbn [heap db calls].
  rewrite bind_run.
  erewrite transaction_returns.
  2:{ rewrite bind_run, select_count_run by apply Hf. cbn [heap db calls].
      rewrite bind_run, select_count_run by apply Hf. cbn [heap db calls].
      rewrite bind_run, select_count_run by apply Hf. cbn [heap db calls].
      rewrite bind_run, select_count_run by apply Hf. cbn [heap db calls].
      reflexivity. }
  cbn beta iota.
  unfold update_run_counts, finish_run. cbn zeta.
  rewrite bind_run, call_run, Hf. cbn [heap db calls].
  rewrite bind_run, call_run, Hf. cbn [heap db calls].
  rewrite external_run, Hf. cbn [heap db calls].
  rewrite <- !app_assoc. cbn [app]. reflexivity.
Qed.


(** A parsed table that has rows and all the required columns. *)
Definition complete (cols : list string) (f : frame) : Prop :=
  rows f <> [] /\ forall c, c ∈ cols -> c ∈ map Text.strip (columns f).

Lemma select_loaded (cols : list string) (mapping : list (string * string)) (f : frame) :
  complete cols f -> select cols (coerced mapping f) = inr (loaded cols mapping f).
Proof.
  intros [_ Hall]. rewrite select_match.
  assert (Hm : missing_from cols (columns (coerced mapping f)) = []).
  { apply missing_from_nil. by rewrite coerced_columns. }
  by rewrite Hm.
Qed.

Lemma update_fresh (rid : Z) (set : run_row -> run_row) (runs : list run_row) :
  Forall (fun r => RunID r <> rid) runs ->
  map (fun r => if (RunID r =? rid)%Z then set r else r) runs = runs.
Proof.
  induction 1 as [|r rs Hr _ IH]; [reflexivity|]. cbn. rewrite IH.
  apply Z.eqb_neq in Hr. by rewrite Hr.
Qed.

(** X19. A run in which no call fails, on three files that parsed into
    several distinctly named columns, with rows and with all the required
    columns: [main] returns; each staging relation holds exactly the rows
    sent by this run (the required columns of the coerced table, one row
    per row of the file), whatever it held before; the final relations are
    what the provider, patient and claim procedures, in this order, make of
    them from these staging relations; and the ledger has one new row, for
    this run, with status SUCCESS, the end time, the three staging counts
    equal to the numbers of rows of the three files, and the counts of the
    final relations and of this run's rejects as they are at the end. *)
Theorem successful_run_loads_the_files (d : database) (fp ft fc : frame) :
  let rid := next_RunID d in
  let run := main pd env (World [] d []) in
  let lp := loaded provider_cols provider_types fp in
  let lt := loaded patient_cols patient_types ft in
  let lc := loaded claim_cols claim_types fc in
  (forall c, fails env c = false) ->
  blob env (container env) "providers.csv" = Some fp ->
  blob env (container env) "patients.csv" = Some ft ->
  blob env (container env) "claims.csv" = Some fc ->
  parsed fp -> parsed ft -> parsed fc ->
  complete provider_cols fp -> complete patient_cols ft -> complete claim_cols fc ->
  Forall (fun r => RunID r <> rid) (ETL_Run d) ->
  fst run = inr tt
  /\ relation_of "StgProvider" (db (snd run)) = rows lp
  /\ relation_of "StgPatient" (db (snd run)) = rows lt
  /\ relation_of "StgClaim" (db (snd run)) = rows lc
  /\ length (rows lp) = length (rows fp)
  /\ length (rows lt) = length (rows ft)
  /\ length (rows lc) = length (rows fc)
  /\ final (db (snd run))
     = procedure env "dbo.sp_upsert_claim" (Some rid) (staging (db (snd run)))
         (procedure env "dbo.sp_upsert_patient" None (staging (db (snd run)))
            (procedure env "dbo.sp_upsert_provider" None (staging (db (snd run))) (final d)))
  /\ ETL_Run (db (snd run))
     = ETL_Run d
       ++ [with_end (utc_now d) "SUCCESS"
             (with_counts
                (Z.of_nat (length (rows fp))) (Z.of_nat (length (rows ft)))
                (Z.of_nat (length (rows fc)))
                (count_of "Provider" None (db (snd run)))
                (count_of "Patient" None (db (snd run)))
                (count_of "Claim" None (db (snd run)))
                (count_of "Reject_Claim" (Some rid) (db (snd run)))
                (with_RunID rid (run_defaults env)))].
Proof.
  intros rid run lp lt lc Hf Bp Bt Bc Pp Pt Pc Cp Ct Cc Hfresh. subst run.
  assert (Hlp : length (rows lp) = length (rows fp)) by apply loaded_rows_length.
  assert (Hlt : length (rows lt) = length (rows ft)) by apply loaded_rows_length.
  assert (Hlc : length (rows lc) = length (rows fc)) by apply loaded_rows_length.
  rewrite main_run, Hf. fold rid. rewrite main_body_phases.
  unfold started. cbn [heap db calls app].
  rewrite bind_run, (prepare_run _ _ fp ft fc Bp Bt Bc Pp Pt Pc). cbn beta iota.
  rewrite bind_run.
  rewrite (stage_run _ _ _ _ _ _ _ _ lp lt lc Hf).
  2: by apply select_loaded.
  2: apply loaded_not_empty; [discriminate|apply Cp..].
  2: by apply select_loaded.
  2: apply loaded_not_empty; [discriminate|apply Ct..].
  2: by apply select_loaded.
  2: apply loaded_not_empty; [discriminate|apply Cc..].
  rewrite (merge_and_record_run rid _ Hf). cbn [settle fst snd db heap calls].
  split; [reflexivity|].
  unfold relation_of.
  cbn [recorded merged update_where set_final staged truncated set_staging insert_run
       staging final ETL_Run next_RunID utc_now].
  split; [by repeat (rewrite !lookup_insert_eq || rewrite lookup_insert_ne by done)|].
  split; [by repeat (rewrite !lookup_insert_eq || rewrite lookup_insert_ne by done)|].
  split; [by repeat (rewrite !lookup_insert_eq || rewrite lookup_insert_ne by done)|].
  split; [exact Hlp|]. split; [exact Hlt|]. split; [exact Hlc|].
  split; [reflexivity|].
  rewrite !map_app. rewrite !(update_fresh rid _ (ETL_Run d) Hfresh).
  f_equal. cbn [map RunID with_RunID with_counts]. rewrite Z.eqb_refl.
  cbn [RunID with_RunID with_counts]. rewrite Z.eqb_refl.
  unfold count_of at 1 2 3. cbn [String.eqb Ascii.eqb Bool.eqb].
  unfold relation_of, staged at 1 2 3, truncated. cbn [staging set_staging].
  repeat (rewrite !lookup_insert_eq || rewrite lookup_insert_ne by done).
  cbn [default from_option id]. rewrite Hlp, Hlt, Hlc. reflexivity.
Qed.

End Phases.

(** An environment for examples: three files that parsed into columns, a
    provider procedure that copies the staged providers, no failing call. *)
Definition patients_parsed : frame :=
  Frame ["FirstName"; "LastName"; "BirthDate"; "Gender"]
        [[VStr "Ada"; VStr "Diaz"; VStr "1980-02-03"; VStr "F"];
         [VStr "Bo"; VStr "Lee"; VStr "1975-10-30"; VStr "M"]].

Definition procedure_sample (name : string) (run : option Z) (st : gmap string (list row))
    (ft : final_tables) : final_tables :=
  if String.eqb name "dbo.sp_upsert_provider"
  then FinalTables (default [] (st !! "StgProvider")) (Patient ft) (Claim ft) (Reject_Claim ft)
  else ft.

Definition env_parsed (providers : frame) : environment :=
  Environment (fun container blob_name =>
                 if String.eqb blob_name "providers.csv" then Some providers
                 else if String.eqb blob_name "patients.csv" then Some patients_parsed
                 else if String.eqb blob_name "claims.csv" then Some claims_blob
                 else None)
              nothing_fails "landing" run_defaults_sample procedure_sample.

(** A database whose staging table of providers still holds a row. *)
Definition db_with_leftovers : database :=
  Database {["StgProvider" := [[VStr "Old Clinic"; VStr "West"; VStr "Surgery"]]]}
           (FinalTables [] [] [] []) [] 1 0.

Ltac among :=
  let c := fresh "c" in let Hc := fresh "Hc" in
  intros c Hc; apply list_elem_of_In; apply list_elem_of_In in Hc;
  vm_compute in Hc |- *; tauto.


Lemma successful_run_loads_the_files_witness :
  let run := main pandas_sample (env_parsed providers_blob) (World [] db_with_leftovers []) in
  fst run = inr tt
  /\ relation_of "StgProvider" (db (snd run))
     = [[VStr "North Clinic"; VStr "Midwest"; VStr "Primary Care"]]
  /\ length (relation_of "StgPatient" (db (snd run))) = 2%nat
  /\ Provider (final (db (snd run)))
     = [[VStr "North Clinic"; VStr "Midwest"; VStr "Primary Care"]].
Proof.
  intros run.
  destruct (successful_run_loads_the_files pandas_sample (env_parsed providers_blob)
              db_with_leftovers providers_blob patients_parsed claims_blob)
    as (Hres & Hp & Ht & _ & _ & Hlt & _ & Hfin & _); try reflexivity.
  - split; [discriminate|vm_compute; distinct].
  - split; [discriminate|vm_compute; distinct].
  - split; [discriminate|vm_compute; distinct].
  - split; [discriminate|among].
  - split; [discriminate|among].
  - split; [discriminate|among].
  - constructor.
  - fold run in Hres, Hp, Ht, Hfin.
    split; [exact Hres|]. split; [exact Hp|]. split; [rewrite Ht; exact Hlt|].
    rewrite Hfin. cbn [procedure env_parsed procedure_sample String.eqb Ascii.eqb Bool.eqb Provider].
    fold (relation_of "StgProvider" (db (snd run))). rewrite Hp. reflexivity.
Defined.

(** ** Updates of the ledger for a run that it does not hold *)

Lemma update_where_fresh (rid : Z) (set : run_row -> run_row) (d : database) :
  Forall (fun r => RunID r <> rid) (ETL_Run d) -> update_where rid set d = d.
Proof.
  intros H. unfold update_where. rewrite (update_fresh rid set _ H). by destruct d.
Qed.

(** X20. Neither [finish_run] nor [update_run_counts] checks that a row was
    updated: for a run identifier that no row of the ledger carries, each
    issues its UPDATE, returns normally and leaves the database as it
    was. *)
Theorem ledger_updates_ignore_unknown_run (env : environment) (w : world) (rid : Z)
    (status : string) (stg_counts final_counts : list (string * Z)) (reject_total : Z) :
  Forall (fun r => RunID r <> rid) (ETL_Run (db w)) ->
  fails env (FinishRun rid status) = false ->
  (forall counts, fails env (UpdateRun rid counts) = false) ->
  finish_run env rid status w
  = (inr tt, World (heap w) (db w) (calls w ++ [FinishRun rid status]))
  /\ fst (update_run_counts env rid stg_counts final_counts reject_total w) = inr tt
  /\ db (snd (update_run_counts env rid stg_counts final_counts reject_total w)) = db w
  /\ exists counts,
       calls (snd (update_run_counts env rid stg_counts final_counts reject_total w))
       = calls w ++ [UpdateRun rid counts].
Proof.
  intros Hfresh Ff Fu. unfold finish_run, update_run_counts. cbn zeta.
  rewrite !call_run, Ff, Fu. cbn [fst snd db calls].
  rewrite !update_where_fresh by exact Hfresh.
  split; [reflexivity|]. split; [reflexivity|]. split; [reflexivity|]. by eexists.
Qed.

Lemma ledger_updates_ignore_unknown_run_witness :
  finish_run (env_sample nothing_fails) 7 "SUCCESS" (on_heap [])
  = (inr tt, World [] empty_db [FinishRun 7 "SUCCESS"]).
Proof.
  apply (ledger_updates_ignore_unknown_run (env_sample nothing_fails) (on_heap []) 7
           "SUCCESS" [] [] 0).
  - constructor.
  - reflexivity.
  - reflexivity.
Defined.

(** * The configuration read when [etl_load] is imported *)

Module Config.







End Config.


(** * The parser options of [read_csv_from_blob] *)

Section ReadCsvOptions.

(** The values of keyword arguments are arbitrary objects; two of them are
    named by the function: the type [str] and [True]. *)
Context {V : Type} (str_type true_value : V).

(** The two [if "..." not in read_csv_kwargs] statements, on the keyword
    arguments of one call. *)
Definition read_csv_defaults (read_csv_kwargs : gmap string V) : gmap string V :=
  let kwargs :=
    if decide (is_Some (read_csv_kwargs !! "dtype")) then read_csv_kwargs
    else <["dtype" := str_type]> read_csv_kwargs in
  if decide (is_Some (kwargs !! "na_filter")) then kwargs
  else <["na_filter" := true_value]> kwargs.

(** X22. The options that [read_csv_from_blob] hands to [pandas.read_csv]
    always carry [dtype] and [na_filter]: the caller's value when the caller
    passed one, [str] and [True] otherwise.  Every option of the caller is
    forwarded with its value, nothing else is added, and applying the
    defaults again changes nothing. *)
Theorem read_csv_defaults_keep_caller_choices (kwargs : gmap string V) :
  read_csv_defaults kwargs !! "dtype" = Some (default str_type (kwargs !! "dtype"))
  /\ read_csv_defaults kwargs !! "na_filter"
     = Some (default true_value (kwargs !! "na_filter"))
  /\ (forall key v, kwargs !! key = Some v -> read_csv_defaults kwargs !! key = Some v)
  /\ (forall key, key <> "dtype" -> key <> "na_filter" ->
        read_csv_defaults kwargs !! key = kwargs !! key)
  /\ read_csv_defaults (read_csv_defaults kwargs) = read_csv_defaults kwargs.
Proof.
  assert (Hlook : forall key,
            read_csv_defaults kwargs !! key
            = match kwargs !! key with
              | Some v => Some v
              | None => if String.eqb key "dtype" then Some str_type
                        else if String.eqb key "na_filter" then Some true_value
                        else None
              end).
  { intros key. unfold read_csv_defaults.
    assert (Hnone : forall k, ~ is_Some (kwargs !! k) -> kwargs !! k = None).
    { intros k Hk. destruct (kwargs !! k); [exfalso; apply Hk; by eexists|done]. }
    destruct (String.eqb_spec key "dtype") as [Hk1|Hk1];
      [|destruct (String.eqb_spec key "na_filter") as [Hk2|Hk2]]; try subst key.
    - destruct (decide (is_Some (kwargs !! "dtype"))) as [[t Ed]|Hd].
      + rewrite Ed. case_decide; [exact Ed|by rewrite lookup_insert_ne].
      + rewrite (Hnone _ Hd).
        case_decide; [apply lookup_insert_eq|].
        rewrite lookup_insert_ne by done. apply lookup_insert_eq.
    - destruct (decide (is_Some (kwargs !! "dtype"))) as [Hd|Hd].
      + destruct (decide (is_Some (kwargs !! "na_filter"))) as [[n En]|Hn].
        * by rewrite En.
        * rewrite (Hnone _ Hn). apply lookup_insert_eq.
      + rewrite lookup_insert_ne by done.
        destruct (decide (is_Some (kwargs !! "na_filter"))) as [[n En]|Hn].
        * rewrite En. by rewrite lookup_insert_ne.
        * rewrite (Hnone _ Hn). apply lookup_insert_eq.
    - assert (Hkeep : forall m : gmap string V,
                (if decide (is_Some (m !! "na_filter")) then m
                 else <["na_filter" := true_value]> m) !! key = m !! key).
      { intros m. case_decide; [done|by rewrite lookup_insert_ne]. }
      rewrite Hkeep.
      case_decide; [by destruct (kwargs !! key)|].
      rewrite lookup_insert_ne by done. by destruct (kwargs !! key). }
  split; [rewrite Hlook; by destruct (kwargs !! "dtype")|].
  split; [rewrite Hlook; by destruct (kwargs !! "na_filter")|].
  split; [intros key v Hv; by rewrite Hlook, Hv|].
  split.
  { intros key H1 H2. rewrite Hlook. destruct (kwargs !! key); [done|].
    apply String.eqb_neq in H1, H2. by rewrite H1, H2. }
  assert (Hd : is_Some (read_csv_defaults kwargs !! "dtype")).
  { rewrite Hlook. destruct (kwargs !! "dtype"); by eexists. }
  assert (Hn : is_Some (read_csv_defaults kwargs !! "na_filter")).
  { rewrite Hlook. destruct (kwargs !! "na_filter"); by eexists. }
  unfold read_csv_defaults at 1. cbn zeta.
  destruct (decide (is_Some (read_csv_defaults kwargs !! "dtype"))) as [_|H];
    [|exfalso; exact (H Hd)].
  destruct (decide (is_Some (read_csv_defaults kwargs !! "na_filter"))) as [_|H];
    [reflexivity|exfalso; exact (H Hn)].
Qed.

End ReadCsvOptions.
